(** * go-toggl: time entries, their mutators and the session calls

    A shallow embedding of [main.go] (package [toggl]).  Go values are
    modelled as the program has them:

    - [int], [int64] and [time.Duration] are 64-bit two's-complement
      integers: a [Z] with the wrap-around written out ([Int64]);
    - [*time.Time] and [[]string] are references into a heap ([Store]):
      addresses of cells, so that two entries can share a cell;
    - a method with a pointer receiver returns the updated receiver;
    - a nil dereference is the outcome [Panic];
    - [error] is an optional message ([None] is Go's [nil]).

    The packages [time] and [encoding/json] are not part of the
    repository; the modules [time] and [json] below describe the parts of
    them that [main.go] calls. *)

From Stdlib Require Import ZArith Lia Bool String Ascii List DecimalString.
From Stdlib Require OrderedTypeEx.
From stdpp Require Import base list sorting.
Import ListNotations.
Local Open Scope string_scope.
Local Open Scope list_scope.
Local Open Scope Z_scope.
Set Warnings "-register-all".

(** ** 64-bit integers *)

Module Int64.

Definition min_int : Z := - 2 ^ 63.
Definition max_int : Z := 2 ^ 63 - 1.

Definition in_range (z : Z) : Prop := min_int <= z <= max_int.

(** The value a 64-bit register holds after an operation whose exact
    result is [z]. *)
Definition wrap (z : Z) : Z := (z + 2 ^ 63) mod 2 ^ 64 - 2 ^ 63.

Definition add (a b : Z) : Z := wrap (a + b).
Definition sub (a b : Z) : Z := wrap (a - b).
Definition mul (a b : Z) : Z := wrap (a * b).
Definition neg (a : Z) : Z := wrap (- a).
(** Go's [/] on integers truncates toward zero. *)
Definition quot (a b : Z) : Z := wrap (Z.quot a b).

End Int64.

(** ** Package [time]: instants, durations, arithmetic *)

Module time.

(** A [*time.Location]: UTC, the machine's local zone, or a zone with a
    fixed offset (seconds east of UTC). *)
Inductive Location : Type :=
| UTC
| Local
| FixedZone (offset : Z).

(** A [time.Time] is the instant it denotes, counted in nanoseconds since
    the Unix epoch, together with its location.  The count is not bounded
    here (the library keeps seconds in an [int64] around the year 1);
    monotonic clock readings are left out. *)
Record Time : Type := mkTime { nanos : Z; loc : Location }.

(** [time.Duration] is an [int64] count of nanoseconds. *)
Definition Nanosecond : Z := 1.
Definition Second : Z := 1000000000.
Definition minDuration : Z := Int64.min_int.
Definition maxDuration : Z := Int64.max_int.

(** [time.Time{}]: January 1, year 1, 00:00:00 UTC. *)
Definition zero : Time := mkTime (-62135596800 * Second) UTC.

(** Whole seconds since the epoch, rounded down. *)
Definition seconds (t : Time) : Z := nanos t / Second.

(** [t.Unix()], an [int64]. *)
Definition Unix (t : Time) : Z := Int64.wrap (seconds t).

(** [t.Nanosecond()]: the offset within the second. *)
Definition Nanos (t : Time) : Z := nanos t mod Second.

(** [t.Add(d)]. *)
Definition Add (t : Time) (d : Z) : Time := mkTime (nanos t + d) (loc t).

(** [t.Sub(u)]: the duration [t-u], or the largest (smallest) duration
    when the difference does not fit. *)
Definition Sub (t u : Time) : Z :=
  let d := nanos t - nanos u in
  if d <? minDuration then minDuration
  else if maxDuration <? d then maxDuration
  else d.

(** [t.Local()]. *)
Definition InLocal (t : Time) : Time := mkTime (nanos t) Local.

(** *** The calendar

    The proleptic Gregorian calendar that [time.Date] and [Time.Date]
    compute with; days are counted from 1970-01-01. *)

Definition secondsPerDay : Z := 86400.

Definition isLeap (y : Z) : bool :=
  (y mod 4 =? 0) && (negb (y mod 100 =? 0) || (y mod 400 =? 0)).

Definition daysIn (m y : Z) : Z :=
  if m =? 2 then (if isLeap y then 29 else 28)
  else if (m =? 4) || (m =? 6) || (m =? 9) || (m =? 11) then 30
  else 31.

(** Day of a 400-year era (which starts on March 1) to the year of the
    era, the month and the day. *)
Definition civil_of_doe (doe : Z) : Z * Z * Z :=
  let yoe := (doe - doe / 1460 + doe / 36524 - doe / 146096) / 365 in
  let doy := doe - (365 * yoe + yoe / 4 - yoe / 100) in
  let mp := (5 * doy + 2) / 153 in
  let d := doy - (153 * mp + 2) / 5 + 1 in
  let m := if mp <? 10 then mp + 3 else mp - 9 in
  (yoe, m, d).

Definition doe_of_civil (yoe m d : Z) : Z :=
  let mp := if 2 <? m then m - 3 else m + 9 in
  let doy := (153 * mp + 2) / 5 + d - 1 in
  yoe * 365 + yoe / 4 - yoe / 100 + doy.

Definition civil_from_days (z : Z) : Z * Z * Z :=
  let z := z + 719468 in
  let '(yoe, m, d) := civil_of_doe (z mod 146097) in
  let y := yoe + (z / 146097) * 400 in
  (if m <=? 2 then y + 1 else y, m, d).

Definition days_from_civil (y m d : Z) : Z :=
  let y := if m <=? 2 then y - 1 else y in
  (y / 400) * 146097 + doe_of_civil (y mod 400) m d - 719468.

(** The offset (seconds east of UTC) in force at [t] in its location;
    [tz] gives the local zone's offset at a Unix time. *)
Definition offset_of (tz : Z -> Z) (t : Time) : Z :=
  match loc t with
  | UTC => 0
  | Local => tz (Unix t)
  | FixedZone o => o
  end.

(** The wall clock [t] shows: seconds since the epoch in its own zone. *)
Definition wall (tz : Z -> Z) (t : Time) : Z := seconds t + offset_of tz t.

Definition Date (tz : Z -> Z) (t : Time) : Z * Z * Z :=
  civil_from_days (wall tz t / secondsPerDay).

(** [time.Date(y, m, d, hh, mm, ss, nsec, UTC)] for fields in range. *)
Definition civil_nanos (y m d hh mm ss nsec : Z) : Z :=
  (days_from_civil y m d * secondsPerDay + hh * 3600 + mm * 60 + ss) * Second
  + nsec.

(** *** Formatting *)

Definition digit (n : Z) : ascii := ascii_of_N (Z.to_N (48 + n mod 10)).

(** The last [w] decimal digits of [n]. *)
Fixpoint digits (w : nat) (n : Z) : string :=
  match w with
  | O => EmptyString
  | S w' => (digits w' (n / 10) ++ String (digit n) EmptyString)%string
  end.

Definition decimal (n : Z) : string :=
  DecimalString.NilEmpty.string_of_uint (N.to_uint (Z.to_N n)).

(** [appendInt(b, x, width)]: [x] in decimal, zero-padded to [width]. *)
Definition appendInt (x : Z) (width : nat) : string :=
  let u := Z.abs x in
  let s := if u <? 10 ^ Z.of_nat width then digits width u else decimal u in
  if x <? 0 then String "-"%char s else s.

(** The decimal places of [n] out of [10 ^ k], up to the last one that
    is not zero. *)
Fixpoint frac (k : nat) (n : Z) : string :=
  match k with
  | O => EmptyString
  | S k' =>
      if n =? 0 then EmptyString
      else String (digit (n / 10 ^ Z.of_nat k')) (frac k' (n mod 10 ^ Z.of_nat k'))
  end.

(** [appendNano] for the layout element [.999999999]: nothing for a whole
    second, else a period and the nine digits without trailing zeros. *)
Definition appendNano (nsec : Z) : string :=
  if nsec =? 0 then EmptyString else String "."%char (frac 9 nsec).

(** The layout element [Z07:00]. *)
Definition appendZone (offset : Z) : string :=
  if offset =? 0 then "Z"%string
  else
    let zone := Z.quot offset 60 in
    let sign := if zone <? 0 then "-"%string else "+"%string in
    let zone := Z.abs zone in
    (sign ++ appendInt (zone / 60) 2 ++ ":" ++ appendInt (zone mod 60) 2)%string.

(** [t.Format("2006-01-02")] *)
Definition FormatDate (tz : Z -> Z) (t : Time) : string :=
  let '(y, m, d) := Date tz t in
  (appendInt y 4 ++ "-" ++ appendInt m 2 ++ "-" ++ appendInt d 2)%string.

(** [t.Format(time.RFC3339Nano)], layout [2006-01-02T15:04:05.999999999Z07:00] *)
Definition FormatRFC3339Nano (tz : Z -> Z) (t : Time) : string :=
  let '(y, m, d) := Date tz t in
  let sod := wall tz t mod secondsPerDay in
  (appendInt y 4 ++ "-" ++ appendInt m 2 ++ "-" ++ appendInt d 2 ++ "T"
   ++ appendInt (sod / 3600) 2 ++ ":" ++ appendInt (sod mod 3600 / 60) 2 ++ ":"
   ++ appendInt (sod mod 60) 2
   ++ appendNano (Nanos t) ++ appendZone (offset_of tz t))%string.

(** [t.MarshalJSON()], without the quotes: RFC 3339 with sub-second
    precision, refused for a year outside 0..9999 or a zone offset of 24
    hours or more. *)
Definition MarshalJSON (tz : Z -> Z) (t : Time) : string * option string :=
  let '(y, _, _) := Date tz t in
  if (y <? 0) || (9999 <? y) then
    (EmptyString, Some "Time.MarshalJSON: year outside of range [0,9999]"%string)
  else if 24 <=? Z.abs (Z.quot (offset_of tz t) 60) / 60 then
    (EmptyString,
     Some "Time.MarshalJSON: timezone hour outside of range [0,23]"%string)
  else (FormatRFC3339Nano tz t, None).

(** *** Parsing *)

Definition digit_val (c : ascii) : option Z :=
  let n := Z.of_N (N_of_ascii c) in
  if (48 <=? n) && (n <=? 57) then Some (n - 48) else None.

Definition isDigit (c : ascii) : bool :=
  match digit_val c with Some _ => true | None => false end.

(** [getnum(s, true)]: exactly two digits. *)
Definition getnum2 (s : string) : option (Z * string) :=
  match s with
  | String a (String b r) =>
      match digit_val a, digit_val b with
      | Some x, Some y => Some (10 * x + y, r)
      | _, _ => None
      end
  | _ => None
  end.

(** [getnum(s, false)]: one digit, or two when a second one follows. *)
Definition getnum (s : string) : option (Z * string) :=
  match s with
  | String a r =>
      match digit_val a with
      | None => None
      | Some x =>
          match r with
          | String b r' =>
              match digit_val b with
              | Some y => Some (10 * x + y, r')
              | None => Some (x, r)
              end
          | EmptyString => Some (x, r)
          end
      end
  | EmptyString => None
  end.

(** The layout element [2006]: four digits. *)
Definition getyear (s : string) : option (Z * string) :=
  match getnum2 s with
  | Some (hi, r) =>
      match getnum2 r with
      | Some (lo, r') => Some (100 * hi + lo, r')
      | None => None
      end
  | None => None
  end.

(** A literal character of the layout. *)
Definition skip (c : ascii) (s : string) : option string :=
  match s with
  | String a r => if Ascii.eqb a c then Some r else None
  | EmptyString => None
  end.

Fixpoint span_digits (s : string) : list Z * string :=
  match s with
  | String a r =>
      match digit_val a with
      | Some x => let '(ds, rest) := span_digits r in (x :: ds, rest)
      | None => ([], s)
      end
  | EmptyString => ([], s)
  end.

(** The value of at most [n] leading digits, scaled to [n] places. *)
Fixpoint scaled (n : nat) (ds : list Z) : Z :=
  match n with
  | O => 0
  | S n' =>
      match ds with
      | x :: ds' => x * 10 ^ Z.of_nat n' + scaled n' ds'
      | [] => 0
      end
  end.

(** A fractional second after the seconds field, which [Parse] accepts
    whether or not the layout has one: a period or comma and digits, of
    which nine count. *)
Definition getfrac (s : string) : Z * string :=
  match s with
  | String c (String d r) =>
      if (Ascii.eqb c "."%char || Ascii.eqb c ","%char)
         && isDigit d
      then let '(ds, rest) := span_digits (String d r) in (scaled 9 ds, rest)
      else (0, s)
  | _ => (0, s)
  end.

Definition in_range (lo hi x : Z) : bool := (lo <=? x) && (x <=? hi).

(** The common prefix [2006-01-02T15:04:05] of the two layouts: the
    nanoseconds since the epoch of the date and time read as UTC, and
    the rest of the input. *)
Definition parse_datetime (s : string) : option (Z * string) :=
  '(y, s) ← getyear s;
  s ← skip "-"%char s;
  '(m, s) ← getnum2 s;
  if negb (in_range 1 12 m) then None else
  s ← skip "-"%char s;
  '(d, s) ← getnum2 s;
  s ← skip "T"%char s;
  '(hh, s) ← getnum s;
  if negb (in_range 0 23 hh) then None else
  s ← skip ":"%char s;
  '(mm, s) ← getnum2 s;
  if negb (in_range 0 59 mm) then None else
  s ← skip ":"%char s;
  '(ss, s) ← getnum2 s;
  if negb (in_range 0 59 ss) then None else
  let '(nsec, s) := getfrac s in
  if negb (in_range 1 (daysIn m y) d) then None else
  Some (civil_nanos y m d hh mm ss nsec, s).

(** The layout element [-07:00]: a sign, two digits, a colon, two
    digits; hours up to 24 and minutes up to 60 are let through. *)
Definition parse_offset (s : string) : option (Z * string) :=
  match s with
  | String sg (String h1 (String h2 (String c (String m1 (String m2 r))))) =>
      if negb (Ascii.eqb c ":"%char) then None else
      '(hr, _) ← getnum2 (String h1 (String h2 EmptyString));
      '(mm, _) ← getnum2 (String m1 (String m2 EmptyString));
      if (24 <? hr) || (60 <? mm) then None else
      let off := (hr * 60 + mm) * 60 in
      if Ascii.eqb sg "+"%char then Some (off, r)
      else if Ascii.eqb sg "-"%char then Some (- off, r)
      else None
  | _ => None
  end.

Definition layoutZ : string := "2006-01-02T15:04:05Z".
Definition layoutOffset : string := "2006-01-02T15:04:05-07:00".

(** The error of a failed parse.  The library's message also quotes the
    value and names the layout element that did not match; what is kept
    here is the value and the layout that was tried. *)
Definition ParseError (layout value : string) : option string :=
  Some ("parsing time " ++ value ++ " as " ++ layout)%string.

(** [time.Parse("2006-01-02T15:04:05Z", value)]: the [Z] is a literal
    of the layout, and the result is in UTC. *)
Definition ParseZ (value : string) : Time * option string :=
  match parse_datetime value with
  | Some (n, "Z"%string) => (mkTime n UTC, None)
  | _ => (zero, ParseError layoutZ value)
  end.

(** [time.Parse("2006-01-02T15:04:05-07:00", value)]: the result is in
    the local zone when that zone has the offset read at that instant,
    and in a zone fixed at the offset otherwise. *)
Definition ParseOffset (tz : Z -> Z) (value : string) : Time * option string :=
  match parse_datetime value with
  | Some (n, rest) =>
      match parse_offset rest with
      | Some (off, EmptyString) =>
          let n := n - off * Second in
          if tz (Int64.wrap (n / Second)) =? off then (mkTime n Local, None)
          else (mkTime n (FixedZone off), None)
      | _ => (zero, ParseError layoutOffset value)
      end
  | None => (zero, ParseError layoutOffset value)
  end.

End time.

(** ** The heap *)

(** Cells holding a [time.Time] (what a [*time.Time] points to) and
    backing arrays of strings (what a [[]string] views). *)
Record Store : Type := mkStore {
  times : list time.Time;
  arrays : list (list string)
}.

(** [*time.Time]: [None] is nil. *)
Definition ptr : Type := option nat.

(** [[]string]: the first [s_len] elements of the backing array [s_arr],
    whose length is [s_cap].  The nil slice has no array. *)
Record slice : Type := mkSlice { s_arr : option nat; s_len : nat; s_cap : nat }.

Definition nil_slice : slice := mkSlice None 0 0.

Definition load (p : ptr) (st : Store) : option time.Time :=
  match p with
  | None => None
  | Some a => times st !! a
  end.

(** [&v] for a fresh variable [v] holding [t]. *)
Definition new_time (t : time.Time) (st : Store) : nat * Store :=
  (length (times st), mkStore (times st ++ [t]) (arrays st)).

(** [*p = t]. *)
Definition store_time (a : nat) (t : time.Time) (st : Store) : Store :=
  mkStore (<[a := t]> (times st)) (arrays st).

Definition new_array (l : list string) (st : Store) : nat * Store :=
  (length (arrays st), mkStore (times st) (arrays st ++ [l])).

(** The elements of a slice. *)
Definition elems (s : slice) (st : Store) : option (list string) :=
  match s_arr s with
  | None => Some []
  | Some a =>
      match arrays st !! a with
      | Some l => Some (take (s_len s) l)
      | None => None
      end
  end.

(** ** TimeEntry *)

(** [float32], as its 32 bits. *)
Definition float32 : Type := Z.

Record TimeEntry : Type := mkTimeEntry {
  Wid : Z;
  ID : Z;
  Pid : Z;
  Tid : Z;
  Description : string;
  Stop : ptr;
  Start : ptr;
  Tags : slice;
  Duration : Z;
  DurOnly : bool;
  Billable : float32
}.

(** [TimeEntry{}]. *)
Definition zeroTimeEntry : TimeEntry :=
  mkTimeEntry 0 0 0 0 "" None None nil_slice 0 false 0.

Definition set_Wid (e : TimeEntry) (z : Z) : TimeEntry :=
  mkTimeEntry z (ID e) (Pid e) (Tid e) (Description e)
    (Stop e) (Start e) (Tags e) (Duration e) (DurOnly e) (Billable e).

Definition set_ID (e : TimeEntry) (z : Z) : TimeEntry :=
  mkTimeEntry (Wid e) z (Pid e) (Tid e) (Description e)
    (Stop e) (Start e) (Tags e) (Duration e) (DurOnly e) (Billable e).

Definition set_Pid (e : TimeEntry) (z : Z) : TimeEntry :=
  mkTimeEntry (Wid e) (ID e) z (Tid e) (Description e)
    (Stop e) (Start e) (Tags e) (Duration e) (DurOnly e) (Billable e).

Definition set_Tid (e : TimeEntry) (z : Z) : TimeEntry :=
  mkTimeEntry (Wid e) (ID e) (Pid e) z (Description e)
    (Stop e) (Start e) (Tags e) (Duration e) (DurOnly e) (Billable e).

Definition set_Description (e : TimeEntry) (s : string) : TimeEntry :=
  mkTimeEntry (Wid e) (ID e) (Pid e) (Tid e) s
    (Stop e) (Start e) (Tags e) (Duration e) (DurOnly e) (Billable e).

Definition set_Billable (e : TimeEntry) (f : float32) : TimeEntry :=
  mkTimeEntry (Wid e) (ID e) (Pid e) (Tid e) (Description e)
    (Stop e) (Start e) (Tags e) (Duration e) (DurOnly e) f.

Definition set_Stop (e : TimeEntry) (p : ptr) : TimeEntry :=
  mkTimeEntry (Wid e) (ID e) (Pid e) (Tid e) (Description e)
    p (Start e) (Tags e) (Duration e) (DurOnly e) (Billable e).

Definition set_Start (e : TimeEntry) (p : ptr) : TimeEntry :=
  mkTimeEntry (Wid e) (ID e) (Pid e) (Tid e) (Description e)
    (Stop e) p (Tags e) (Duration e) (DurOnly e) (Billable e).

Definition set_Tags (e : TimeEntry) (s : slice) : TimeEntry :=
  mkTimeEntry (Wid e) (ID e) (Pid e) (Tid e) (Description e)
    (Stop e) (Start e) s (Duration e) (DurOnly e) (Billable e).

Definition set_Duration (e : TimeEntry) (d : Z) : TimeEntry :=
  mkTimeEntry (Wid e) (ID e) (Pid e) (Tid e) (Description e)
    (Stop e) (Start e) (Tags e) d (DurOnly e) (Billable e).

Definition set_DurOnly (e : TimeEntry) (b : bool) : TimeEntry :=
  mkTimeEntry (Wid e) (ID e) (Pid e) (Tid e) (Description e)
    (Stop e) (Start e) (Tags e) (Duration e) b (Billable e).

Definition error : Type := option string.

Inductive Outcome (A : Type) : Type :=
| Done (a : A)
| Panic.
Arguments Done {A} a.
Arguments Panic {A}.

(** [func (e *TimeEntry) IsRunning() bool] *)
Definition IsRunning (e : TimeEntry) : bool := Duration e <? 0.

(** [func (e *TimeEntry) StartTime() time.Time] *)
Definition StartTime (e : TimeEntry) (st : Store) : Outcome time.Time :=
  match Start e with
  | Some a => match times st !! a with Some t => Done t | None => Panic end
  | None => Done time.zero
  end.

(** [func (e *TimeEntry) StopTime() time.Time] *)
Definition StopTime (e : TimeEntry) (st : Store) : Outcome time.Time :=
  match Stop e with
  | Some a => match times st !! a with Some t => Done t | None => Panic end
  | None => Done time.zero
  end.

Definition must_be_stopped : error := Some "TimeEntry must be stopped"%string.

(** [func (e *TimeEntry) SetDuration(duration int64) error] *)
Definition SetDuration (e : TimeEntry) (duration : Z) (st : Store)
  : Outcome (TimeEntry * error * Store) :=
  if IsRunning e then Done (e, must_be_stopped, st)
  else
    let e := set_Duration e duration in
    match load (Start e) st with
    | None => Panic
    | Some start =>
        let newStop := time.Add start (Int64.mul duration time.Second) in
        let '(a, st) := new_time newStop st in
        Done (set_Stop e (Some a), None, st)
    end.

(** [func (e *TimeEntry) SetStartTime(start time.Time, updateEnd bool)] *)
Definition SetStartTime (e : TimeEntry) (start : time.Time) (updateEnd : bool)
  (st : Store) : Outcome (TimeEntry * Store) :=
  let '(a, st) := new_time start st in
  let e := set_Start e (Some a) in
  if negb (IsRunning e) then
    if updateEnd then
      let newStop := time.Add start (Int64.mul (Duration e) time.Second) in
      let '(b, st) := new_time newStop st in
      Done (set_Stop e (Some b), st)
    else
      match load (Stop e) st, load (Start e) st with
      | Some stop, Some start' =>
          Done (set_Duration e (Int64.sub (time.Unix stop) (time.Unix start')), st)
      | _, _ => Panic
      end
  else Done (e, st).

(** [func (e *TimeEntry) SetStopTime(stop time.Time) (err error)] *)
Definition SetStopTime (e : TimeEntry) (stop : time.Time) (st : Store)
  : Outcome (TimeEntry * error * Store) :=
  if IsRunning e then Done (e, must_be_stopped, st)
  else
    let '(a, st) := new_time stop st in
    let e := set_Stop e (Some a) in
    match load (Start e) st with
    | None => Panic
    | Some start =>
        Done (set_Duration e (Int64.quot (time.Sub stop start) time.Second), None, st)
    end.

(** Go's address-of applied to a dereference of [p], as [Copy] writes it
    for [e.Start] and [e.Stop]: the address of the variable [p] points
    to, which is [p] itself; the variable is not copied. *)
Definition addr_of_deref (p : ptr) : ptr := p.

(** [func (e *TimeEntry) Copy() TimeEntry] *)
Definition Copy (e : TimeEntry) (st : Store) : Outcome (TimeEntry * Store) :=
  match elems (Tags e) st with
  | None => Panic
  | Some l =>
      let newEntry := e in
      let '(a, st) := new_array l st in
      let newEntry :=
        set_Tags newEntry (mkSlice (Some a) (s_len (Tags e)) (s_len (Tags e))) in
      let newEntry :=
        match Start e with
        | Some _ => set_Start newEntry (addr_of_deref (Start e))
        | None => newEntry
        end in
      let newEntry :=
        match Stop e with
        | Some _ => set_Stop newEntry (addr_of_deref (Stop e))
        | None => newEntry
        end in
      Done (newEntry, st)
  end.

(** [func indexOfTag(tag string, tags []string) int], on the elements. *)
Fixpoint indexOfTag_from (i : Z) (tag : string) (tags : list string) : Z :=
  match tags with
  | [] => -1
  | t :: tags' =>
      if String.eqb t tag then i else indexOfTag_from (i + 1) tag tags'
  end.

Definition indexOfTag (tag : string) (tags : list string) : Z :=
  indexOfTag_from 0 tag tags.

(** [func (e *TimeEntry) HasTag(tag string) bool] *)
Definition HasTag (e : TimeEntry) (tag : string) (st : Store) : Outcome bool :=
  match elems (Tags e) st with
  | None => Panic
  | Some l => Done (negb (indexOfTag tag l =? -1))
  end.

Definition set_array (a : nat) (l : list string) (st : Store) : Store :=
  mkStore (times st) (<[a := l]> (arrays st)).

(** [append(s, x)]: in place when the capacity allows, else into a new
    array whose capacity the runtime chooses ([grow], at least the
    length needed). *)
Definition append1 (grow : nat -> nat) (s : slice) (x : string) (st : Store)
  : Outcome (slice * Store) :=
  match elems s st with
  | None => Panic
  | Some l =>
      if (s_len s <? s_cap s)%nat then
        match s_arr s with
        | Some a =>
            match arrays st !! a with
            | Some arr =>
                Done (mkSlice (Some a) (S (s_len s)) (s_cap s),
                      set_array a (<[s_len s := x]> arr) st)
            | None => Panic
            end
        | None => Panic
        end
      else
        let n := S (s_len s) in
        let c := Nat.max n (grow n) in
        let '(a, st) := new_array (l ++ [x] ++ replicate (c - n) ""%string) st in
        Done (mkSlice (Some a) n c, st)
  end.

(** [func (e *TimeEntry) AddTag(tag string)] *)
Definition AddTag (grow : nat -> nat) (e : TimeEntry) (tag : string) (st : Store)
  : Outcome (TimeEntry * Store) :=
  match HasTag e tag st with
  | Panic => Panic
  | Done true => Done (e, st)
  | Done false =>
      match append1 grow (Tags e) tag st with
      | Panic => Panic
      | Done (s, st) => Done (set_Tags e s, st)
      end
  end.

(** [func (e *TimeEntry) RemoveTag(tag string)]:
    [append(e.Tags[:i], e.Tags[i+1:]...)] moves the elements after [i]
    one place down inside the backing array. *)
Definition RemoveTag (e : TimeEntry) (tag : string) (st : Store)
  : Outcome (TimeEntry * Store) :=
  match elems (Tags e) st with
  | None => Panic
  | Some l =>
      let i := indexOfTag tag l in
      if i =? -1 then Done (e, st)
      else
        match s_arr (Tags e) with
        | Some a =>
            match arrays st !! a with
            | Some arr =>
                let n := s_len (Tags e) in
                let k := Z.to_nat i in
                let arr' := take k arr ++ drop (S k) (take n arr)
                            ++ drop (n - 1)%nat arr in
                Done (set_Tags e (mkSlice (Some a) (n - 1)%nat (s_cap (Tags e))),
                      set_array a arr' st)
            | None => Panic
            end
        | None => Panic
        end
  end.

(** ** Package [encoding/json]: documents *)

Module json.

(** A number literal: an integer, or the literal printed for a
    [float32] (which is read back as that [float32]). *)
Inductive Number : Type :=
| Int (z : Z)
| Float32 (bits : Z).

(** A JSON document, as its syntax tree; the bytes [json.Marshal]
    writes and [json.Unmarshal] reads stand for such a tree.  Strings
    are the text they hold. *)
Inductive Value : Type :=
| Null
| Bool (b : bool)
| Num (n : Number)
| Str (s : string)
| Arr (l : list Value)
| Obj (fields : list (string * Value)).

End json.

(** [[]byte] holding a document; [None] stands for bytes that are not
    one (none at all among them). *)
Definition Bytes : Type := option json.Value.

(** What an [interface{}] handed to [post] and [put] holds. *)
Inductive GoValue : Type :=
| VNil
| VString (s : string)
| VInt (z : Z)
| VBool (b : bool)
| VFloat32 (f : float32)
| VStrings (s : slice)
| VTimeEntry (e : TimeEntry)
| VMap (m : list (string * GoValue)).

(** The outcome of encoding: a document, an error, or a panic. *)
Definition Enc (A : Type) : Type := Outcome (string + A).

Definition enc_bind {A B} (x : Enc A) (f : A -> Enc B) : Enc B :=
  match x with
  | Done (inr a) => f a
  | Done (inl msg) => Done (inl msg)
  | Panic => Panic
  end.

Notation "'let*' x := c 'in' k" := (enc_bind c (fun x => k))
  (at level 10, x pattern, c at level 100, k at level 200, only parsing).

(** NaN and the infinities have all exponent bits set. *)
Definition float32_finite (f : float32) : bool :=
  negb ((f / 2 ^ 23) mod 256 =? 255).

Definition UnsupportedValueError (f : float32) : string :=
  if negb (f mod 2 ^ 23 =? 0) then "json: unsupported value: NaN"
  else if (f / 2 ^ 31) mod 2 =? 0 then "json: unsupported value: +Inf"
  else "json: unsupported value: -Inf".

Definition marshal_float32 (f : float32) : Enc json.Value :=
  if float32_finite f then Done (inr (json.Num (json.Float32 f)))
  else Done (inl (UnsupportedValueError f)).

Definition MarshalerError (msg : string) : string :=
  ("json: error calling MarshalJSON for type *time.Time: " ++ msg)%string.

(** A [*time.Time] field tagged [omitempty]: left out when nil. *)
Definition marshal_time_field (tz : Z -> Z) (st : Store) (k : string) (p : ptr)
  : Enc (list (string * json.Value)) :=
  match p with
  | None => Done (inr [])
  | Some a =>
      match times st !! a with
      | None => Panic
      | Some t =>
          match time.MarshalJSON tz t with
          | (s, None) => Done (inr [(k, json.Str s)])
          | (_, Some msg) => Done (inl (MarshalerError msg))
          end
      end
  end.

(** A [[]string]: [null] when nil. *)
Definition marshal_strings (st : Store) (s : slice) : Enc json.Value :=
  match s_arr s with
  | None => Done (inr json.Null)
  | Some _ =>
      match elems s st with
      | Some l => Done (inr (json.Arr (map json.Str l)))
      | None => Panic
      end
  end.

Definition omitempty (k : string) (empty : bool) (v : json.Value)
  : list (string * json.Value) :=
  if empty then [] else [(k, v)].

(** [json.Marshal] of a [TimeEntry], by the struct's field tags. *)
Definition marshal_TimeEntry (tz : Z -> Z) (st : Store) (e : TimeEntry)
  : Enc json.Value :=
  let* stop := marshal_time_field tz st "stop" (Stop e) in
  let* start := marshal_time_field tz st "start" (Start e) in
  let* tags := marshal_strings st (Tags e) in
  let* billable := marshal_float32 (Billable e) in
  Done (inr (json.Obj (
    omitempty "wid" (Wid e =? 0) (json.Num (json.Int (Wid e)))
    ++ omitempty "id" (ID e =? 0) (json.Num (json.Int (ID e)))
    ++ [("pid", json.Num (json.Int (Pid e)));
        ("tid", json.Num (json.Int (Tid e)))]
    ++ omitempty "description" (String.eqb (Description e) "")
         (json.Str (Description e))
    ++ stop ++ start
    ++ [("tags", tags)]
    ++ omitempty "duration" (Duration e =? 0) (json.Num (json.Int (Duration e)))
    ++ [("duronly", json.Bool (DurOnly e)); ("billable", billable)]))).

(** Map keys are written in sorted order. *)
Fixpoint insert_sorted {A} (kv : string * A) (l : list (string * A))
  : list (string * A) :=
  match l with
  | [] => [kv]
  | kv' :: l' =>
      if String.leb (fst kv) (fst kv') then kv :: l
      else kv' :: insert_sorted kv l'
  end.

Definition sort_keys {A} (l : list (string * A)) : list (string * A) :=
  fold_right insert_sorted [] l.

Fixpoint enc_fields (l : list (string * Enc json.Value))
  : Enc (list (string * json.Value)) :=
  match l with
  | [] => Done (inr [])
  | (k, x) :: l' =>
      let* v := x in
      let* vs := enc_fields l' in
      Done (inr ((k, v) :: vs))
  end.

Fixpoint marshal (tz : Z -> Z) (st : Store) (v : GoValue) : Enc json.Value :=
  match v with
  | VNil => Done (inr json.Null)
  | VString s => Done (inr (json.Str s))
  | VInt z => Done (inr (json.Num (json.Int z)))
  | VBool b => Done (inr (json.Bool b))
  | VFloat32 f => marshal_float32 f
  | VStrings s => marshal_strings st s
  | VTimeEntry e => marshal_TimeEntry tz st e
  | VMap m =>
      let* fs :=
        enc_fields (sort_keys (map (fun kv => (fst kv, marshal tz st (snd kv))) m)) in
      Done (inr (json.Obj fs))
  end.

(** [json.Marshal(data)] *)
Definition json_Marshal (tz : Z -> Z) (st : Store) (data : GoValue)
  : Outcome (Bytes * error) :=
  match marshal tz st data with
  | Done (inr j) => Done (Some j, None)
  | Done (inl msg) => Done (None, Some msg)
  | Panic => Panic
  end.

(** *** Decoding *)

(** Keys match field names without regard to case: letters fold onto
    the lower-case ASCII ones (with the long s and the Kelvin sign). *)
Definition lower (c : ascii) : ascii :=
  let n := N_of_ascii c in
  if ((65 <=? n) && (n <=? 90))%N then ascii_of_N (n + 32) else c.

Fixpoint fold_key (s : string) : string :=
  match s with
  | String "197" (String "191" r) => String "s" (fold_key r)
  | String "226" (String "132" (String "170" r)) => String "k" (fold_key r)
  | String c r => String (lower c) (fold_key r)
  | EmptyString => EmptyString
  end.

(** An [UnmarshalTypeError], reduced to the field it names. *)
Definition type_error (field : string) : string :=
  ("json: cannot unmarshal into Go struct field " ++ field)%string.

Definition in_int64 (z : Z) : bool :=
  (Int64.min_int <=? z) && (z <=? Int64.max_int).

(** The [float32] nearest to an integer (ties to even): its bits, or
    nothing when the integer is too large. *)
Definition float32_of_Z (z : Z) : option float32 :=
  if z =? 0 then Some 0
  else
    let a := Z.abs z in
    let e := Z.log2 a in
    let '(m, e) :=
      if e <=? 23 then (a * 2 ^ (23 - e), e)
      else
        let sh := e - 23 in
        let q := a / 2 ^ sh in
        let r := a mod 2 ^ sh in
        let half := 2 ^ (sh - 1) in
        let q := if (half <? r) || ((r =? half) && Z.odd q) then q + 1 else q in
        if q =? 2 ^ 24 then (2 ^ 23, e + 1) else (q, e) in
    if 127 <? e then None
    else Some ((if z <? 0 then 2 ^ 31 else 0) + (e + 127) * 2 ^ 23 + (m - 2 ^ 23)).

(** A value decoded into a field that holds [cur]; [null] leaves a
    field of these types as it is. *)
Definition decode_int (field : string) (v : json.Value) (cur : Z) : string + Z :=
  match v with
  | json.Null => inr cur
  | json.Num (json.Int z) => if in_int64 z then inr z else inl (type_error field)
  | _ => inl (type_error field)
  end.

Definition decode_string (field : string) (v : json.Value) (cur : string)
  : string + string :=
  match v with
  | json.Null => inr cur
  | json.Str s => inr s
  | _ => inl (type_error field)
  end.

Definition decode_bool (field : string) (v : json.Value) (cur : bool)
  : string + bool :=
  match v with
  | json.Null => inr cur
  | json.Bool b => inr b
  | _ => inl (type_error field)
  end.

Definition decode_float32 (field : string) (v : json.Value) (cur : float32)
  : string + float32 :=
  match v with
  | json.Null => inr cur
  | json.Num (json.Float32 f) => inr f
  | json.Num (json.Int z) =>
      match float32_of_Z z with
      | Some f => inr f
      | None => inl (type_error field)
      end
  | _ => inl (type_error field)
  end.

Fixpoint decode_elements (field : string) (l : list json.Value)
  : string + list string :=
  match l with
  | [] => inr []
  | v :: l' =>
      match decode_string field v "", decode_elements field l' with
      | inr s, inr ss => inr (s :: ss)
      | inl msg, _ => inl msg
      | _, inl msg => inl msg
      end
  end.

(** A [[]string] field that is nil so far: [null] leaves it nil, an
    array gives it a backing array.  (A document that repeats the key
    has the later array decoded over the earlier one; here each array
    is decoded as if it were the first.) *)
Definition decode_strings (grow : nat -> nat) (field : string) (v : json.Value)
  (st : Store) : string + (slice * Store) :=
  match v with
  | json.Null => inr (nil_slice, st)
  | json.Arr l =>
      match decode_elements field l with
      | inl msg => inl msg
      | inr ss =>
          let n := length ss in
          let c := if (n =? 0)%nat then 0%nat else Nat.max n (grow n) in
          let '(a, st) := new_array (ss ++ replicate (c - n) ""%string) st in
          inr (mkSlice (Some a) n c, st)
      end
  | _ => inl (type_error field)
  end.

(** [type tempTimeEntry struct]: the embedded entry, whose [stop] and
    [start] keys are taken by the two string fields. *)
Record tempTimeEntry : Type := mkTemp {
  embeddedTimeEntry : TimeEntry;
  StopString : string;
  StartString : string
}.

Definition zeroTemp : tempTimeEntry := mkTemp zeroTimeEntry "" "".

Definition set_embedded (t : tempTimeEntry) (e : TimeEntry) : tempTimeEntry :=
  mkTemp e (StopString t) (StartString t).

Definition decode_key (grow : nat -> nat) (k : string) (v : json.Value)
  (t : tempTimeEntry) (st : Store) : string + (tempTimeEntry * Store) :=
  let e := embeddedTimeEntry t in
  let name := fold_key k in
  if String.eqb name "wid" then
    match decode_int "wid" v (Wid e) with
    | inr z => inr (set_embedded t (set_Wid e z), st)
    | inl msg => inl msg
    end
  else if String.eqb name "id" then
    match decode_int "id" v (ID e) with
    | inr z => inr (set_embedded t (set_ID e z), st)
    | inl msg => inl msg
    end
  else if String.eqb name "pid" then
    match decode_int "pid" v (Pid e) with
    | inr z => inr (set_embedded t (set_Pid e z), st)
    | inl msg => inl msg
    end
  else if String.eqb name "tid" then
    match decode_int "tid" v (Tid e) with
    | inr z => inr (set_embedded t (set_Tid e z), st)
    | inl msg => inl msg
    end
  else if String.eqb name "description" then
    match decode_string "description" v (Description e) with
    | inr s => inr (set_embedded t (set_Description e s), st)
    | inl msg => inl msg
    end
  else if String.eqb name "stop" then
    match decode_string "stop" v (StopString t) with
    | inr s => inr (mkTemp e s (StartString t), st)
    | inl msg => inl msg
    end
  else if String.eqb name "start" then
    match decode_string "start" v (StartString t) with
    | inr s => inr (mkTemp e (StopString t) s, st)
    | inl msg => inl msg
    end
  else if String.eqb name "tags" then
    match decode_strings grow "tags" v st with
    | inr (s, st) => inr (set_embedded t (set_Tags e s), st)
    | inl msg => inl msg
    end
  else if String.eqb name "duration" then
    match decode_int "duration" v (Duration e) with
    | inr z => inr (set_embedded t (set_Duration e z), st)
    | inl msg => inl msg
    end
  else if String.eqb name "duronly" then
    match decode_bool "duronly" v (DurOnly e) with
    | inr b => inr (set_embedded t (set_DurOnly e b), st)
    | inl msg => inl msg
    end
  else if String.eqb name "billable" then
    match decode_float32 "billable" v (Billable e) with
    | inr f => inr (set_embedded t (set_Billable e f), st)
    | inl msg => inl msg
    end
  else inr (t, st).

Fixpoint decode_fields (grow : nat -> nat) (fields : list (string * json.Value))
  (t : tempTimeEntry) (st : Store) : string + (tempTimeEntry * Store) :=
  match fields with
  | [] => inr (t, st)
  | (k, v) :: fields' =>
      match decode_key grow k v t st with
      | inr (t, st) => decode_fields grow fields' t st
      | inl msg => inl msg
      end
  end.

(** [json.Unmarshal(b, &entry)] for [var entry tempTimeEntry]. *)
Definition unmarshal_temp (grow : nat -> nat) (b : json.Value) (st : Store)
  : string + (tempTimeEntry * Store) :=
  match b with
  | json.Null => inr (zeroTemp, st)
  | json.Obj fields => decode_fields grow fields zeroTemp st
  | _ => inl (type_error "tempTimeEntry")
  end.

(** The closure [parseTime] of [asTimeEntry]. *)
Definition parseTime (tz : Z -> Z) (s : string) : time.Time * error :=
  let '(t, err) := time.ParseZ s in
  match err with
  | Some _ => time.ParseOffset tz s
  | None => (t, err)
  end.

(** [func (t *tempTimeEntry) asTimeEntry() (entry TimeEntry, err error)] *)
Definition asTimeEntry (tz : Z -> Z) (t : tempTimeEntry) (st : Store)
  : TimeEntry * error * Store :=
  let entry := embeddedTimeEntry t in
  let after_start (entry : TimeEntry) (st : Store) :=
    if negb (String.eqb (StopString t) "") then
      let '(stop, err) := parseTime tz (StopString t) in
      match err with
      | Some _ => (entry, err, st)
      | None =>
          let '(a, st) := new_time stop st in
          (set_Stop entry (Some a), None, st)
      end
    else (entry, None, st) in
  if negb (String.eqb (StartString t) "") then
    let '(start, err) := parseTime tz (StartString t) in
    match err with
    | Some _ => (entry, err, st)
    | None =>
        let '(a, st) := new_time start st in
        after_start (set_Start entry (Some a)) st
    end
  else after_start entry st.

(** [func (e *TimeEntry) UnmarshalJSON(b []byte) error] *)
Definition UnmarshalJSON (tz : Z -> Z) (grow : nat -> nat) (e : TimeEntry)
  (b : json.Value) (st : Store) : TimeEntry * error * Store :=
  match unmarshal_temp grow b st with
  | inl msg => (e, Some msg, st)
  | inr (entry, st) =>
      let '(te, err, st) := asTimeEntry tz entry st in
      match err with
      | Some _ => (e, err, st)
      | None => (te, None, st)
      end
  end.

(** [json.Unmarshal(data, &entry)] for
    [var entry struct { Data TimeEntry `json:"data"` }]: every [data]
    key calls [UnmarshalJSON]. *)
Fixpoint decode_data (tz : Z -> Z) (grow : nat -> nat)
  (fields : list (string * json.Value)) (d : TimeEntry) (st : Store)
  : TimeEntry * error * Store :=
  match fields with
  | [] => (d, None, st)
  | (k, v) :: fields' =>
      if String.eqb (fold_key k) "data" then
        let '(d, err, st) := UnmarshalJSON tz grow d v st in
        match err with
        | Some _ => (d, err, st)
        | None => decode_data tz grow fields' d st
        end
      else decode_data tz grow fields' d st
  end.

Definition unmarshal_data (tz : Z -> Z) (grow : nat -> nat) (data : Bytes)
  (st : Store) : TimeEntry * error * Store :=
  match data with
  | None => (zeroTimeEntry, Some "unexpected end of JSON input"%string, st)
  | Some json.Null => (zeroTimeEntry, None, st)
  | Some (json.Obj fields) => decode_data tz grow fields zeroTimeEntry st
  | Some _ => (zeroTimeEntry, Some (type_error "Data"), st)
  end.

(** ** The session *)

(** Toggl service constants *)
Definition TogglAPI : string := "https://toggl.com/api/v8".
Definition DefaultAppName : string := "go-toggl".

Inductive Method : Type := GET | POST | PUT | DELETE.

(** What [session.request] sends. *)
Record Request : Type := mkRequest {
  method : Method;
  requestURL : string;
  body : Bytes
}.

(** What the program does not decide: the clock ([clock n] is the
    [n]-th reading of [time.Now]), the local time zone, the remote
    service (its answer to a request, given the requests sent before:
    the content read and the error), the package variable [AppName]
    and the capacities the runtime gives to slices.  The session's
    credentials only reach the remote service and are part of it. *)
Record Env : Type := mkEnv {
  clock : nat -> time.Time;
  zone : Z -> Z;
  transport : list Request -> Request -> Bytes * error;
  AppName : string;
  grow : nat -> nat
}.

Record World : Type := mkWorld {
  ticks : nat;
  sent : list Request;
  heap : Store
}.

Definition set_heap (w : World) (st : Store) : World :=
  mkWorld (ticks w) (sent w) st.

(** Computations that read the clock, send requests, use the heap, and
    may panic. *)
Definition M (A : Type) : Type := World -> Outcome (A * World).

#[global] Instance M_ret : MRet M := fun A (a : A) (w : World) => Done (a, w).

#[global] Instance M_bind : MBind M :=
  fun A B (f : A -> M B) (m : M A) (w : World) =>
    match m w with
    | Done (a, w') => f a w'
    | Panic => Panic
    end.

Definition panic {A} : M A := fun _ => Panic.

(** [time.Now()] *)
Definition Now (env : Env) : M time.Time :=
  fun w => Done (clock env (ticks w), mkWorld (S (ticks w)) (sent w) (heap w)).

(** [*p] *)
Definition deref (p : ptr) : M time.Time :=
  fun w => match load p (heap w) with Some t => Done (t, w) | None => Panic end.

Definition on_heap {A} (f : Store -> Outcome (A * Store)) : M A :=
  fun w =>
    match f (heap w) with
    | Done (a, st) => Done (a, set_heap w st)
    | Panic => Panic
    end.

(** [fmt.Sprintf] of an integer with [%v] or [%d]. *)
Definition Sprint (z : Z) : string := NilZero.string_of_int (Z.to_int z).

(** [func (session *Session) request(method, requestURL, body)] *)
Definition request (env : Env) (method : Method) (requestURL : string)
  (body : Bytes) : M (Bytes * error) :=
  fun w =>
    let r := mkRequest method requestURL body in
    Done (transport env (sent w) r, mkWorld (ticks w) (sent w ++ [r]) (heap w)).

(** The shared start of [post] and [put]: the body for [data]. *)
Definition encode_body (env : Env) (data : GoValue) : M (Bytes * error) :=
  match data with
  | VNil => mret (None, None)
  | _ =>
      fun w =>
        match json_Marshal (zone env) (heap w) data with
        | Done r => Done (r, w)
        | Panic => Panic
        end
  end.

(** [func (session *Session) post(requestURL, path, data)] *)
Definition post (env : Env) (requestURL path : string) (data : GoValue)
  : M (Bytes * error) :=
  let requestURL := (requestURL ++ path)%string in
  '(body, err) ← encode_body env data;
  match err with
  | Some _ => mret (None, err)
  | None => request env POST requestURL body
  end.

(** [func (session *Session) put(requestURL, path, data)] *)
Definition put (env : Env) (requestURL path : string) (data : GoValue)
  : M (Bytes * error) :=
  let requestURL := (requestURL ++ path)%string in
  '(body, err) ← encode_body env data;
  match err with
  | Some _ => mret (None, err)
  | None => request env PUT requestURL body
  end.

(** [func (session *Session) delete(requestURL, path)] *)
Definition delete (env : Env) (requestURL path : string) : M (Bytes * error) :=
  request env DELETE (requestURL ++ path)%string None.

(** [func timeEntryRequest(data []byte, err error) (TimeEntry, error)] *)
Definition timeEntryRequest (env : Env) (data : Bytes) (err : error)
  : M (TimeEntry * error) :=
  match err with
  | Some _ => mret (zeroTimeEntry, err)
  | None =>
      fun w =>
        let '(entry, err, st) :=
          unmarshal_data (zone env) (grow env) data (heap w) in
        match err with
        | Some _ => Done ((zeroTimeEntry, err), set_heap w st)
        | None => Done ((entry, None), set_heap w st)
        end
  end.

(** [func (session *Session) UpdateTimeEntry(timer TimeEntry)] *)
Definition UpdateTimeEntry (env : Env) (timer : TimeEntry) : M (TimeEntry * error) :=
  let data := VMap [("time_entry", VTimeEntry timer)] in
  let path := ("/time_entries/" ++ Sprint (ID timer))%string in
  '(respData, err) ← post env TogglAPI path data;
  timeEntryRequest env respData err.

(** [func (session *Session) DeleteTimeEntry(timer TimeEntry)] *)
Definition DeleteTimeEntry (env : Env) (timer : TimeEntry) : M (Bytes * error) :=
  let path := ("/time_entries/" ++ Sprint (ID timer))%string in
  delete env TogglAPI path.

(** The [time_entry] map that starts a new entry like [timer]. *)
Definition start_data (env : Env) (timer : TimeEntry) (duronly : bool) : GoValue :=
  VMap [("time_entry", VMap [
    ("description", VString (Description timer));
    ("pid", VInt (Pid timer));
    ("tid", VInt (Tid timer));
    ("billable", VFloat32 (Billable timer));
    ("created_with", VString (AppName env));
    ("tags", VStrings (Tags timer));
    ("duronly", VBool duronly)])].

(** [time.Now().Local().Format("2006-01-02") ==
     timer.Start.Local().Format("2006-01-02")] *)
Definition same_local_day (env : Env) (now start : time.Time) : bool :=
  String.eqb (time.FormatDate (zone env) (time.InLocal now))
             (time.FormatDate (zone env) (time.InLocal start)).

(** [func (session *Session) ContinueTimeEntry(timer TimeEntry, duronly bool)] *)
Definition ContinueTimeEntry (env : Env) (timer : TimeEntry) (duronly : bool)
  : M (TimeEntry * error) :=
  today ←
    (if duronly then
       now ← Now env;
       start ← deref (Start timer);
       mret (same_local_day env now start)
     else mret false);
  if (today : bool) then
    entry ← on_heap (Copy timer);
    now ← Now env;
    let entry :=
      set_Duration entry (Int64.neg (Int64.sub (time.Unix now) (Duration entry))) in
    let entry := set_DurOnly entry true in
    let data := VMap [("time_entry", VTimeEntry entry)] in
    let path := ("/time_entries/" ++ Sprint (ID timer))%string in
    '(respData, err) ← put env TogglAPI path data;
    timeEntryRequest env respData err
  else
    '(respData, err) ←
      post env TogglAPI "/time_entries/start" (start_data env timer duronly);
    timeEntryRequest env respData err.

Definition Errorf (context : string) (err : string) : error :=
  Some (context ++ ": " ++ err)%string.

(** [func (session *Session) UnstopTimeEntry(timer TimeEntry)
     (newEntry TimeEntry, err error)] *)
Definition UnstopTimeEntry (env : Env) (timer : TimeEntry) : M (TimeEntry * error) :=
  let newEntry := zeroTimeEntry in
  '(respData, err) ←
    post env TogglAPI "/time_entries/start" (start_data env timer (DurOnly timer));
  match err with
  | Some msg => mret (newEntry, Errorf "New entry not started" msg)
  | None =>
      '(newEntry, err) ← timeEntryRequest env respData err;
      match err with
      | Some msg => mret (newEntry, Errorf "New entry not valid" msg)
      | None =>
          let newEntry := set_Start newEntry (Start timer) in
          '(_, err) ← UpdateTimeEntry env newEntry;
          match err with
          | Some msg => mret (newEntry, Errorf "New entry not updated" msg)
          | None =>
              '(_, err) ← DeleteTimeEntry env timer;
              match err with
              | Some msg => mret (newEntry, Errorf "Old entry not deleted" msg)
              | None => mret (newEntry, None)
              end
          end
      end
  end.

(** ** Other calls of the session *)

(** [func (session *Session) StartTimeEntry(description string)] *)
Definition StartTimeEntry (env : Env) (description : string)
  : M (TimeEntry * error) :=
  let data := VMap [("time_entry", VMap [
    ("description", VString description);
    ("created_with", VString (AppName env))])] in
  '(respData, err) ← post env TogglAPI "/time_entries/start" data;
  timeEntryRequest env respData err.

(** [func (session *Session) StartTimeEntryForProject(description string,
     projectID int, billable bool)] *)
Definition StartTimeEntryForProject (env : Env) (description : string)
  (projectID : Z) (billable : bool) : M (TimeEntry * error) :=
  let data := VMap [("time_entry", VMap [
    ("description", VString description);
    ("pid", VInt projectID);
    ("billable", VBool billable);
    ("created_with", VString (AppName env))])] in
  '(respData, err) ← post env TogglAPI "/time_entries/start" data;
  timeEntryRequest env respData err.

(** [func (session *Session) StopTimeEntry(timer TimeEntry)] *)
Definition StopTimeEntry (env : Env) (timer : TimeEntry) : M (TimeEntry * error) :=
  let path := ("/time_entries/" ++ Sprint (ID timer) ++ "/stop")%string in
  '(respData, err) ← put env TogglAPI path VNil;
  timeEntryRequest env respData err.

(** The slice literal [[]string{tag}]. *)
Definition slice_of_one (tag : string) (st : Store) : Outcome (slice * Store) :=
  let '(a, st) := new_array [tag] st in
  Done (mkSlice (Some a) 1 1, st).

(** [func (session *Session) AddRemoveTag(entryID int, tag string, add bool)] *)
Definition AddRemoveTag (env : Env) (entryID : Z) (tag : string) (add : bool)
  : M (TimeEntry * error) :=
  let action := "add" in
  let action := if negb add then "remove" else action in
  tags ← on_heap (slice_of_one tag);
  let data := VMap [("time_entry", VMap [
    ("tags", VStrings tags);
    ("tag_action", VString action)])] in
  let path := ("/time_entries/" ++ Sprint entryID)%string in
  '(respData, err) ← post env TogglAPI path data;
  timeEntryRequest env respData err.

(** *** Queries

    [url.QueryEscape]: letters, digits and [-_.~] stand for themselves, a
    space becomes [+], every other byte a percent sign and two upper-case
    hexadecimal digits. *)
Definition shouldEscape (c : ascii) : bool :=
  let n := N_of_ascii c in
  negb (((97 <=? n) && (n <=? 122)) || ((65 <=? n) && (n <=? 90))
        || ((48 <=? n) && (n <=? 57))
        || Ascii.eqb c "-" || Ascii.eqb c "_" || Ascii.eqb c "."
        || Ascii.eqb c "~")%N.

Definition upperhex (n : N) : ascii :=
  if (n <? 10)%N then ascii_of_N (48 + n) else ascii_of_N (55 + n).

Fixpoint QueryEscape (s : string) : string :=
  match s with
  | EmptyString => EmptyString
  | String c r =>
      if shouldEscape c then
        if Ascii.eqb c " " then String "+" (QueryEscape r)
        else String "%" (String (upperhex (N_of_ascii c / 16))
                           (String (upperhex (N_of_ascii c mod 16)) (QueryEscape r)))
      else String c (QueryEscape r)
  end.

(** [url.Values]: the values of each key. *)
Definition Values : Type := list (string * list string).

(** [data.Set(key, value)]: the key has this one value from now on. *)
Definition Values_Set (key value : string) (data : Values) : Values :=
  (key, [value]) :: List.filter (fun kv => negb (String.eqb (fst kv) key)) data.

Definition encode_pairs (kv : string * list string) : list string :=
  map (fun v => (QueryEscape (fst kv) ++ "=" ++ QueryEscape v)%string) (snd kv).

Fixpoint join (sep : string) (l : list string) : string :=
  match l with
  | [] => EmptyString
  | [x] => x
  | x :: l' => (x ++ sep ++ join sep l')%string
  end.

(** [data.Encode()]: the pairs, keys in sorted order, joined by [&]. *)
Definition Values_Encode (data : Values) : string :=
  join "&" (concat (map encode_pairs (sort_keys data))).

(** [func (session *Session) get(requestURL, path, params)]; [params],
    a map, is given by its entries in the order the loop meets them
    (an order the runtime chooses), and [None] is the nil map. *)
Definition get (env : Env) (requestURL path : string)
  (params : option (list (string * string))) : M (Bytes * error) :=
  let requestURL := (requestURL ++ path)%string in
  let requestURL :=
    match params with
    | Some entries =>
        let data :=
          fold_left (fun data kv => Values_Set (fst kv) (snd kv) data) entries [] in
        (requestURL ++ "?" ++ Values_Encode data)%string
    | None => requestURL
    end in
  request env GET requestURL None.

(** [func (session *Session) GetCurrentTimeEntry()] *)
Definition GetCurrentTimeEntry (env : Env) : M (TimeEntry * error) :=
  '(data, err) ← get env TogglAPI "/time_entries/current" None;
  match err with
  | Some _ => mret (zeroTimeEntry, err)
  | None => timeEntryRequest env data err
  end.

(** [t.Format(time.RFC3339)], layout [2006-01-02T15:04:05Z07:00] *)
Definition FormatRFC3339 (tz : Z -> Z) (t : time.Time) : string :=
  let '(y, m, d) := time.Date tz t in
  let sod := time.wall tz t mod time.secondsPerDay in
  (time.appendInt y 4 ++ "-" ++ time.appendInt m 2 ++ "-" ++ time.appendInt d 2
   ++ "T" ++ time.appendInt (sod / 3600) 2 ++ ":"
   ++ time.appendInt (sod mod 3600 / 60) 2 ++ ":" ++ time.appendInt (sod mod 60) 2
   ++ time.appendZone (time.offset_of tz t))%string.

(** The elements of an array decoded into a [[]TimeEntry]: each one by
    [UnmarshalJSON] into a new, zero element; the first error ends the
    decoding. *)
Fixpoint decode_entries (tz : Z -> Z) (grow : nat -> nat) (l : list json.Value)
  (st : Store) : list TimeEntry * error * Store :=
  match l with
  | [] => ([], None, st)
  | v :: l' =>
      let '(e, err, st) := UnmarshalJSON tz grow zeroTimeEntry v st in
      match err with
      | Some _ => ([e], err, st)
      | None =>
          let '(es, err, st) := decode_entries tz grow l' st in
          (e :: es, err, st)
      end
  end.

(** [json.Unmarshal(data, &results)] for [results] of type [[]TimeEntry]
    ([None] is the nil slice): [null] makes it nil, an array replaces
    its elements. *)
Definition unmarshal_entries (tz : Z -> Z) (grow : nat -> nat) (data : Bytes)
  (results : option (list TimeEntry)) (st : Store)
  : option (list TimeEntry) * error * Store :=
  match data with
  | None => (results, Some "unexpected end of JSON input"%string, st)
  | Some json.Null => (None, None, st)
  | Some (json.Arr l) =>
      let '(es, err, st) := decode_entries tz grow l st in (Some es, err, st)
  | Some _ => (results, Some (type_error "[]TimeEntry"), st)
  end.

(** [func (session *Session) GetTimeEntries(startDate, endDate time.Time)];
    [end_first] tells in which order the loop of [get] meets the two
    entries of [params]. *)
Definition GetTimeEntries (env : Env) (end_first : bool)
  (startDate endDate : time.Time) : M (option (list TimeEntry) * error) :=
  let start_date := ("start_date", FormatRFC3339 (zone env) startDate) in
  let end_date := ("end_date", FormatRFC3339 (zone env) endDate) in
  let params :=
    if end_first then [end_date; start_date] else [start_date; end_date] in
  '(data, err) ← get env TogglAPI "/time_entries" (Some params);
  match err with
  | Some _ => mret (None, err)
  | None =>
      let results := Some [] in
      fun w =>
        let '(results, err, st) :=
          unmarshal_entries (zone env) (grow env) data results (heap w) in
        match err with
        | Some _ => Done ((None, err), set_heap w st)
        | None => Done ((results, None), set_heap w st)
        end
  end.

(** *** Projects *)

Module project.

(** [type Project struct] *)
Record Project : Type := mkProject {
  Wid : Z;
  ID : Z;
  Cid : Z;
  Name : string;
  Active : bool;
  Billable : float32;
  ServerDeletedAt : ptr
}.

End project.

Section projects.

(** [json.Unmarshal(data, &dProject)] for a [dataProject]: what it leaves
    in [dProject.Data], and its error.  The decoder of a [Project] is
    the library's own (the type has no [UnmarshalJSON]) and is not
    described here. *)
Variable unmarshal_dataProject : Bytes -> Store -> project.Project * error * Store.

(** [func (session *Session) GetProject(id int) (project *Project, err error)];
    the pointer returned is nil ([None]) or points to the decoded
    project. *)
Definition GetProject (env : Env) (id : Z) : M (option project.Project * error) :=
  let path := ("/projects/" ++ Sprint id)%string in
  '(data, err) ← get env TogglAPI path None;
  match err with
  | Some _ => mret (None, err)
  | None =>
      fun w =>
        let '(dProject, err, st) := unmarshal_dataProject data (heap w) in
        Done ((Some dProject, None), set_heap w st)
  end.

End projects.

(** [*p = t] *)
Definition assign (p : ptr) (t : time.Time) (st : Store) : Outcome Store :=
  match p with
  | Some a =>
      match times st !! a with
      | Some _ => Done (store_time a t st)
      | None => Panic
      end
  | None => Panic
  end.

(** References that point into the heap (or are nil). *)
Definition valid_ptr (st : Store) (p : ptr) : Prop :=
  p = None \/ exists t, load p st = Some t.

Definition valid_entry (st : Store) (e : TimeEntry) : Prop :=
  valid_ptr st (Start e) /\ valid_ptr st (Stop e) /\
  exists l, elems (Tags e) st = Some l.

(** ** Sample values *)

(** 2024-01-01T09:00:00Z and 2024-01-01T10:30:00Z. *)
Definition ex_start : time.Time := time.mkTime 1704099600000000000 time.UTC.
Definition ex_stop : time.Time := time.mkTime 1704105000000000000 time.UTC.
(** 2024-01-01T12:00:00Z and half a second before [ex_start]. *)
Definition ex_noon : time.Time := time.mkTime 1704110400000000000 time.UTC.
Definition ex_early : time.Time := time.mkTime 1704099599500000000 time.UTC.

Definition ex_store : Store := mkStore [ex_start; ex_stop] [["dev"; "go"; ""]].

(** A stopped entry of 5400 seconds and a running one. *)
Definition ex_stopped : TimeEntry :=
  mkTimeEntry 7 42 3 0 "work" (Some 1%nat) (Some 0%nat)
    (mkSlice (Some 0%nat) 2 3) 5400 false 0.

Definition ex_running : TimeEntry :=
  mkTimeEntry 7 43 3 0 "work" None (Some 0%nat)
    (mkSlice (Some 0%nat) 2 3) (-1704099600) false 0.

(** A stopped entry whose stop time is absent, and one without a start. *)
Definition ex_no_stop : TimeEntry := set_Stop ex_stopped None.
Definition ex_no_start : TimeEntry := set_Start ex_stopped None.

(** The sample environment: a clock at noon UTC on 2024-01-01 and
    later, a local zone one hour east of UTC, and a remote service that
    answers every request with the entry 99 but refuses to delete. *)
Definition ex_answer : Bytes :=
  Some (json.Obj [("data", json.Obj [
    ("id", json.Num (json.Int 99));
    ("description", json.Str "work");
    ("start", json.Str "2024-01-02T08:00:00+01:00");
    ("duration", json.Num (json.Int (-1704178800)));
    ("tags", json.Arr [json.Str "dev"; json.Str "go"]);
    ("duronly", json.Bool false)])]).

Definition ex_transport (log : list Request) (r : Request) : Bytes * error :=
  match method r with
  | DELETE => (None, Some "500 Internal Server Error")
  | _ => (ex_answer, None)
  end.

Definition ex_env : Env :=
  mkEnv (fun n => time.Add ex_noon (Z.of_nat n * time.Second))
        (fun _ => 3600) ex_transport DefaultAppName (fun n => (2 * n)%nat).

Definition ex_world : World := mkWorld 0 [] ex_store.

(** An entry of ten billion seconds (some 317 years). *)
Definition ex_long : TimeEntry := set_Duration ex_stopped 10000000000.

(** The heap of [ex_store] with [time.Time{}] (year 1) for the start. *)
Definition ex_ancient_store : Store :=
  mkStore [time.zero; ex_stop] [["dev"; "go"; ""]].

(** A time in a zone 30 seconds east of UTC, the first instant of the
    year 10000, and a time in a zone 24 hours east of UTC. *)
Definition ex_odd_zone : time.Time :=
  time.mkTime 1704099600000000000 (time.FixedZone 30).
Definition ex_far : time.Time := time.mkTime 253402300800000000000 time.UTC.
Definition ex_day_zone : time.Time :=
  time.mkTime 1704099600000000000 (time.FixedZone 86400).

(** Entries that start at these times, and one whose billable value is
    a NaN. *)
Definition ex_odd_store : Store := mkStore [ex_odd_zone; ex_far; ex_day_zone] [].
Definition ex_odd_entry : TimeEntry := set_Start zeroTimeEntry (Some 0%nat).
Definition ex_far_entry : TimeEntry := set_Start zeroTimeEntry (Some 1%nat).
Definition ex_day_entry : TimeEntry := set_Start zeroTimeEntry (Some 2%nat).
Definition ex_nan_entry : TimeEntry := set_Billable zeroTimeEntry 2143289344.

(** A remote service that has no entry to report: every answer is the
    document with a null [data] member. *)
Definition ex_idle_env : Env :=
  mkEnv (clock ex_env) (zone ex_env)
        (fun _ _ => (Some (json.Obj [("data", json.Null)]), None))
        DefaultAppName (grow ex_env).

(** A remote service that answers every request with a list of two
    entries, the second one [null]. *)
Definition ex_list_env : Env :=
  mkEnv (clock ex_env) (zone ex_env)
        (fun _ _ =>
           (Some (json.Arr [
              json.Obj [("id", json.Num (json.Int 7));
                        ("start", json.Str "2024-01-01T09:00:00Z");
                        ("duration", json.Num (json.Int 60))];
              json.Null]), None))
        DefaultAppName (grow ex_env).

(** Whether [parseTime] reads [s] without an error. *)
Definition parses (tz : Z -> Z) (s : string) : bool :=
  match snd (parseTime tz s) with
  | None => true
  | Some _ => false
  end.

(** A document with a start in the UTC form and an empty stop. *)
Definition ex_document : json.Value :=
  json.Obj [("id", json.Num (json.Int 42));
            ("start", json.Str "2024-01-01T09:00:00Z");
            ("stop", json.Str "");
            ("duration", json.Num (json.Int (-1704099600)))].

(** ** Vocabulary of the statements *)

(** What a mutator leaves alone: every field but start, stop and
    duration. *)
Definition same_other_fields (e e' : TimeEntry) : Prop :=
  Wid e' = Wid e /\ ID e' = ID e /\ Pid e' = Pid e /\ Tid e' = Tid e /\
  Description e' = Description e /\ Tags e' = Tags e /\
  DurOnly e' = DurOnly e /\ Billable e' = Billable e.

(** Every cell of [st] is a cell of [st'] with the same content. *)
Definition extends (st st' : Store) : Prop :=
  (forall p t, load p st = Some t -> load p st' = Some t) /\
  arrays st' = arrays st.

(** [st'] is [st] with more cells and arrays at the end. *)
Definition grows (st st' : Store) : Prop :=
  (exists l, times st' = times st ++ l) /\
  (exists l, arrays st' = arrays st ++ l).

(** The test that the day [doe] of an era converts to a date of the
    calendar and back. *)
Definition doe_ok (doe : Z) : bool :=
  let '(yoe, m, d) := time.civil_of_doe doe in
  (0 <=? yoe) && (yoe <? 400) && (1 <=? m) && (m <=? 12) && (1 <=? d)
  && (d <=? time.daysIn m (if m <=? 2 then yoe + 1 else yoe))
  && (time.doe_of_civil yoe m d =? doe).

(** [f] holds of the [n] integers from [z] on. *)
Fixpoint all_from (f : Z -> bool) (n : nat) (z : Z) : bool :=
  match n with
  | O => true
  | S n' => f z && all_from f n' (z + 1)
  end.

(** The text does not start with a digit. *)
Definition no_digit_ahead (s : string) : Prop :=
  match s with
  | String c _ => time.digit_val c = None
  | EmptyString => True
  end.

(** What may follow the seconds: the zone, which starts with no digit
    and no decimal separator. *)
Definition zone_like (s : string) : Prop :=
  match s with
  | String c _ =>
      time.digit_val c = None /\ Ascii.eqb c "." = false /\ Ascii.eqb c "," = false
  | EmptyString => True
  end.

(** A time [MarshalJSON] writes in full: a year of four digits and a
    zone offset of whole minutes, under 24 hours. *)
Definition encodable_time (tz : Z -> Z) (t : time.Time) : Prop :=
  let off := time.offset_of tz t in
  (let '(y, _, _) := time.Date tz t in 0 <= y <= 9999) /\
  off mod 60 = 0 /\ -86400 < off < 86400.

(** The same instant, shown at the same offset. *)
Definition same_time (tz : Z -> Z) (t t' : time.Time) : Prop :=
  time.nanos t' = time.nanos t /\ time.offset_of tz t' = time.offset_of tz t.

(** An entry [json.Marshal] accepts and writes in full: [int] and
    [int64] fields in their range, a finite billable value, and
    timestamps that are absent or encodable. *)
Definition encodable (tz : Z -> Z) (st : Store) (e : TimeEntry) : Prop :=
  in_int64 (Wid e) = true /\ in_int64 (ID e) = true /\
  in_int64 (Pid e) = true /\ in_int64 (Tid e) = true /\
  in_int64 (Duration e) = true /\ float32_finite (Billable e) = true /\
  (Start e = None \/
   exists t, load (Start e) st = Some t /\ encodable_time tz t) /\
  (Stop e = None \/
   exists t, load (Stop e) st = Some t /\ encodable_time tz t) /\
  (exists l, elems (Tags e) st = Some l).

(** Two optional timestamps, each in its heap: both absent, or both
    present and the same time. *)
Definition same_time_field (tz : Z -> Z) (p : ptr) (st : Store)
    (p' : ptr) (st' : Store) : Prop :=
  match p with
  | None => p' = None
  | Some _ =>
      exists t t', load p st = Some t /\ load p' st' = Some t' /\ same_time tz t t'
  end.

(** Two entries, each in its heap, equal field for field: references
    are compared by what they refer to. *)
Definition same_entry (tz : Z -> Z) (e : TimeEntry) (st : Store)
    (e' : TimeEntry) (st' : Store) : Prop :=
  Wid e' = Wid e /\ ID e' = ID e /\ Pid e' = Pid e /\ Tid e' = Tid e /\
  Description e' = Description e /\ Duration e' = Duration e /\
  DurOnly e' = DurOnly e /\ Billable e' = Billable e /\
  (s_arr (Tags e') = None <-> s_arr (Tags e) = None) /\
  elems (Tags e') st' = elems (Tags e) st /\
  same_time_field tz (Start e) st (Start e') st' /\
  same_time_field tz (Stop e) st (Stop e') st'.

(** An optional timestamp as [marshal_time_field] writes it. *)
Definition time_piece (k : string) (o : option string)
  : list (string * json.Value) :=
  match o with
  | None => []
  | Some s => [(k, json.Str s)]
  end.

(** The heap once a new [time.Time] variable holds [t]. *)
Definition push_time (t : time.Time) (st : Store) : Store :=
  mkStore (times st ++ [t]) (arrays st).

(** A call that hands back [TimeEntry{}] whenever it returns an error. *)
Definition zero_on_error (m : M (TimeEntry * error)) : Prop :=
  forall w e msg w', m w = Done ((e, Some msg), w') -> e = zeroTimeEntry.

(** A time [MarshalJSON] accepts: a year of four digits and a zone less
    than 24 hours from UTC. *)
Definition writable_time (tz : Z -> Z) (t : time.Time) : bool :=
  let '(y, _, _) := time.Date tz t in
  (0 <=? y) && (y <=? 9999)
  && (Z.abs (Z.quot (time.offset_of tz t) 60) / 60 <? 24).

(** An optional timestamp is absent or holds a time of this kind. *)
Definition writable (tz : Z -> Z) (st : Store) (p : ptr) : bool :=
  match load p st with
  | Some t => writable_time tz t
  | None => true
  end.

(** The keys of a time entry document: the names in the field tags of
    [TimeEntry]. *)
Definition entry_keys : list string :=
  ["wid"; "id"; "pid"; "tid"; "description"; "stop"; "start"; "tags";
   "duration"; "duronly"; "billable"].

(** The order [Values_Encode] lists the keys in. *)
Definition key_le {A} (a b : string * A) : Prop :=
  String.leb (fst a) (fst b) = true.

(** An entry of a [map[string]string] as [Values.Set] stores it. *)
Definition single (kv : string * string) : string * list string :=
  (fst kv, [snd kv]).

(** The number of the local calendar day [t] falls on (days since
    1970-01-01), and the test that its year has four digits. *)
Definition local_day (tz : Z -> Z) (t : time.Time) : Z :=
  time.wall tz (time.InLocal t) / time.secondsPerDay.

Definition four_digit_year (tz : Z -> Z) (t : time.Time) : Prop :=
  let '(y, _, _) := time.Date tz (time.InLocal t) in 0 <= y <= 9999.

(** A slice as the program builds them: it starts at the first element
    of its array, and its capacity is the array's length. *)
Definition wf_slice (st : Store) (s : slice) : Prop :=
  match s_arr s with
  | None => s_len s = 0%nat /\ s_cap s = 0%nat
  | Some a =>
      exists arr, arrays st !! a = Some arr /\
                  (s_len s <= s_cap s)%nat /\ s_cap s = length arr
  end.

(** * Properties *)

(** ** Arithmetic *)

Lemma wrap_in_range z : Int64.in_range z -> Int64.wrap z = z.
Proof.
  unfold Int64.in_range, Int64.wrap, Int64.min_int, Int64.max_int. intros H.
  rewrite Z.mod_small; lia.
Qed.

Lemma wrap_range z : Int64.in_range (Int64.wrap z).
Proof.
  unfold Int64.in_range, Int64.wrap, Int64.min_int, Int64.max_int.
  pose proof (Z.mod_pos_bound (z + 2 ^ 63) (2 ^ 64)). lia.
Qed.

Lemma Sub_range t u : Int64.in_range (time.Sub t u).
Proof.
  unfold time.Sub, time.minDuration, time.maxDuration, Int64.in_range,
    Int64.min_int, Int64.max_int.
  repeat case_match; lia.
Qed.

Lemma Sub_exact t u :
  Int64.in_range (time.nanos t - time.nanos u) ->
  time.Sub t u = time.nanos t - time.nanos u.
Proof.
  unfold time.Sub, time.minDuration, time.maxDuration, Int64.in_range,
    Int64.min_int, Int64.max_int.
  intros H. repeat case_match; lia.
Qed.

(** Dividing a duration by [time.Second] never overflows. *)
Lemma quot_Second_exact d :
  Int64.in_range d -> Int64.quot d time.Second = Z.quot d time.Second.
Proof.
  intros H. unfold Int64.quot. apply wrap_in_range.
  unfold Int64.in_range, Int64.min_int, Int64.max_int, time.Second in *.
  pose proof (Z.quot_le_mono d (2 ^ 63 - 1) 1000000000).
  pose proof (Z.quot_le_mono (- 2 ^ 63) d 1000000000).
  assert (Z.quot (2 ^ 63 - 1) 1000000000 = 9223372036) by reflexivity.
  assert (Z.quot (- 2 ^ 63) 1000000000 = -9223372036) by reflexivity.
  lia.
Qed.

(** ** The heap *)

Lemma load_new_time t st :
  load (Some (fst (new_time t st))) (snd (new_time t st)) = Some t.
Proof.
  unfold new_time, load. simpl.
  rewrite lookup_app_r by lia. by rewrite Nat.sub_diag.
Qed.

Lemma load_after_new_time p t u st :
  load p st = Some u -> load p (snd (new_time t st)) = Some u.
Proof.
  destruct p as [a|]; simpl; [|done]. intros H.
  by apply lookup_app_l_Some.
Qed.

Lemma IsRunning_false e : IsRunning e = false <-> 0 <= Duration e.
Proof. unfold IsRunning. rewrite Z.ltb_ge. done. Qed.

Lemma IsRunning_true e : IsRunning e = true <-> Duration e < 0.
Proof. unfold IsRunning. apply Z.ltb_lt. Qed.

(** ** Mutators of a time entry *)

Lemma extends_new_time t st : extends st (snd (new_time t st)).
Proof. split; [intros p u; apply load_after_new_time | done]. Qed.

Lemma extends_trans st1 st2 st3 : extends st1 st2 -> extends st2 st3 -> extends st1 st3.
Proof.
  intros [H1 A1] [H2 A2]. split; [intros p t H; by apply H2, H1 | congruence].
Qed.

(** C3, as amended: on a running entry (duration < 0), [SetDuration] and
    [SetStopTime] return the error "TimeEntry must be stopped" and leave
    the entry and the heap as they were, while [SetStartTime], which
    returns no error, points the start at a new cell holding the new
    start time and changes no other field. *)
Theorem running_entry_mutators e st :
  IsRunning e = true ->
  (forall duration,
      SetDuration e duration st = Done (e, Some "TimeEntry must be stopped", st)) /\
  (forall stop,
      SetStopTime e stop st = Done (e, Some "TimeEntry must be stopped", st)) /\
  (forall start updateEnd,
      let e' := set_Start e (Some (length (times st))) in
      let st' := mkStore (times st ++ [start]) (arrays st) in
      SetStartTime e start updateEnd st = Done (e', st') /\
      load (Start e') st' = Some start /\
      Stop e' = Stop e /\ Duration e' = Duration e /\ same_other_fields e e').
Proof.
  intros Hrun. repeat split.
  - intros d. unfold SetDuration. by rewrite Hrun.
  - intros t. unfold SetStopTime. by rewrite Hrun.
  - unfold SetStartTime, new_time, IsRunning in *. simpl. by rewrite Hrun.
  - apply (load_new_time start st).
Qed.

Lemma running_entry_mutators_witness :
  IsRunning ex_running = true /\
  SetStopTime ex_running ex_noon ex_store
  = Done (ex_running, Some "TimeEntry must be stopped", ex_store).
Proof.
  split; [reflexivity|].
  apply (running_entry_mutators ex_running ex_store); reflexivity.
Defined.

(** C3 as stated fails for [SetStartTime]: on the running entry
    [ex_running] it returns normally and the start time read afterwards
    is the new one. *)
Lemma SetStartTime_accepts_running :
  IsRunning ex_running = true /\
  StartTime ex_running ex_store = Done ex_start /\
  SetStartTime ex_running ex_noon true ex_store
  = Done (set_Start ex_running (Some 2%nat),
          mkStore [ex_start; ex_stop; ex_noon] (arrays ex_store)) /\
  StartTime (set_Start ex_running (Some 2%nat))
    (mkStore [ex_start; ex_stop; ex_noon] (arrays ex_store)) = Done ex_noon /\
  ex_noon <> ex_start.
Proof. repeat split; discriminate. Qed.

(** C4, as amended: [SetStartTime] points the start at a new cell holding
    [newStart] and keeps every cell there was.  On a running entry
    nothing else changes.  On a stopped entry with [updateEnd], the
    duration stays and the stop becomes [newStart] plus the duration,
    provided the duration is at most 9223372036 seconds (its
    nanoseconds fit an [int64]).  On a stopped entry without
    [updateEnd], provided the stop is present, the stop stays and the
    duration becomes the 64-bit difference of the Unix seconds of stop
    and [newStart]. *)
Theorem SetStartTime_spec e newStart updateEnd st :
  (IsRunning e = false -> updateEnd = false ->
   exists stop, load (Stop e) st = Some stop) ->
  (IsRunning e = false -> updateEnd = true -> Duration e <= 9223372036) ->
  exists e' st',
    SetStartTime e newStart updateEnd st = Done (e', st') /\
    load (Start e') st' = Some newStart /\
    extends st st' /\ same_other_fields e e' /\
    (IsRunning e = true -> Duration e' = Duration e /\ Stop e' = Stop e) /\
    (IsRunning e = false -> updateEnd = true ->
       Duration e' = Duration e /\
       load (Stop e') st' = Some (time.Add newStart (Duration e * time.Second))) /\
    (IsRunning e = false -> updateEnd = false ->
       Stop e' = Stop e /\
       exists stop, load (Stop e') st' = Some stop /\
         load (Stop e) st = Some stop /\
         Duration e' = Int64.sub (time.Unix stop) (time.Unix newStart)).
Proof.
  intros Hstop Hdur. unfold SetStartTime.
  pose proof (load_new_time newStart st) as Hnew.
  pose proof (extends_new_time newStart st) as Hext.
  destruct (new_time newStart st) as [a st1] eqn:Ea. cbn [fst snd] in Hnew, Hext.
  assert (IsRunning (set_Start e (Some a)) = IsRunning e) as -> by done.
  destruct (IsRunning e) eqn:Hrun; cbn [negb].
  - exists (set_Start e (Some a)), st1.
    repeat split; try done; try apply Hext.
  - destruct updateEnd.
    + pose proof (load_new_time
        (time.Add newStart (Int64.mul (Duration e) time.Second)) st1) as Hnew2.
      pose proof (extends_new_time
        (time.Add newStart (Int64.mul (Duration e) time.Second)) st1) as Hext2.
      change (Duration (set_Start e (Some a))) with (Duration e).
      destruct (new_time _ st1) as [b st2] eqn:Eb. cbn [fst snd] in Hnew2, Hext2.
      exists (set_Stop (set_Start e (Some a)) (Some b)), st2.
      split; [done|]. split; [by apply Hext2|].
      split; [by eapply extends_trans|]. split; [done|].
      split; [done|]. split; [|done].
      intros _ _. split; [done|].
      etrans; [exact Hnew2|]. do 2 f_equal. unfold Int64.mul. apply wrap_in_range.
      apply IsRunning_false in Hrun. specialize (Hdur eq_refl eq_refl).
      unfold Int64.in_range, Int64.min_int, Int64.max_int, time.Second. lia.
    + destruct (Hstop eq_refl eq_refl) as [stop Hs].
      change (Stop (set_Start e (Some a))) with (Stop e).
      change (Start (set_Start e (Some a))) with (Some a).
      rewrite (proj1 Hext _ _ Hs), Hnew.
      exists (set_Duration (set_Start e (Some a))
                (Int64.sub (time.Unix stop) (time.Unix newStart))), st1.
      split; [done|]. split; [done|]. split; [done|]. split; [done|].
      split; [done|]. split; [done|].
      intros _ _. split; [done|]. exists stop.
      split; [by apply Hext|done].
Qed.

Lemma SetStartTime_spec_witness :
  exists e' st',
    SetStartTime ex_stopped ex_noon true ex_store = Done (e', st') /\
    load (Stop e') st'
    = Some (time.Add ex_noon (Duration ex_stopped * time.Second)).
Proof.
  destruct (SetStartTime_spec ex_stopped ex_noon true ex_store)
    as (e' & st' & H & _ & _ & _ & _ & Hend & _).
  - discriminate.
  - intros _ _. vm_compute. discriminate.
  - exists e', st'. split; [exact H|]. apply Hend; reflexivity.
Defined.

(** C4 as stated fails in two places.  A stopped entry without a stop
    time panics when the duration is to be recomputed; and a duration
    whose nanoseconds overflow an [int64] does not move the stop to
    [newStart] plus the duration. *)
Lemma SetStartTime_partial_and_overflow :
  (IsRunning ex_no_stop = false /\
   SetStartTime ex_no_stop ex_noon false ex_store = Panic) /\
  (IsRunning ex_long = false /\
   exists e' st',
     SetStartTime ex_long ex_noon true ex_store = Done (e', st') /\
     load (Stop e') st' = Some (time.Add ex_noon (-8446744073709551616)) /\
     time.Add ex_noon (-8446744073709551616)
     <> time.Add ex_noon (Duration ex_long * time.Second)).
Proof.
  split; [split; reflexivity|]. split; [reflexivity|].
  eexists _, _. split; [reflexivity|]. split; [reflexivity|]. discriminate.
Qed.

(** C5, as amended: on a stopped entry with a start, [SetStopTime]
    succeeds, points the stop at a new cell holding [newStop], keeps the
    start, and sets the duration to the whole seconds of
    [newStop.Sub(start)], rounded toward zero, where [Sub] is the
    difference clamped to the [int64] nanosecond range.  When
    [start <= newStop] and the two are at most [maxDuration] (about 292
    years) apart, that is the floor of the difference in seconds. *)
Theorem SetStopTime_spec e newStop st start :
  IsRunning e = false ->
  load (Start e) st = Some start ->
  exists e' st',
    SetStopTime e newStop st = Done (e', None, st') /\
    load (Stop e') st' = Some newStop /\
    Start e' = Start e /\ load (Start e') st' = Some start /\
    extends st st' /\ same_other_fields e e' /\
    Duration e' = Z.quot (time.Sub newStop start) time.Second /\
    (0 <= time.nanos newStop - time.nanos start <= time.maxDuration ->
     Duration e' = (time.nanos newStop - time.nanos start) / time.Second).
Proof.
  intros Hrun Hstart. unfold SetStopTime. rewrite Hrun.
  pose proof (load_new_time newStop st) as Hnew.
  pose proof (extends_new_time newStop st) as Hext.
  destruct (new_time newStop st) as [a st1] eqn:Ea. cbn [fst snd] in Hnew, Hext.
  change (Start (set_Stop e (Some a))) with (Start e).
  rewrite (proj1 Hext _ _ Hstart).
  eexists _, _. split; [reflexivity|].
  split; [done|]. split; [done|]. split; [by apply Hext|].
  split; [done|]. split; [done|].
  assert (Duration (set_Duration (set_Stop e (Some a))
            (Int64.quot (time.Sub newStop start) time.Second))
          = Z.quot (time.Sub newStop start) time.Second) as Hd.
  { simpl. apply quot_Second_exact, Sub_range. }
  split; [exact Hd|].
  intros Hle. rewrite Hd, Sub_exact.
  - apply Z.quot_div_nonneg; [lia|done].
  - unfold time.maxDuration, Int64.in_range, Int64.min_int in *. lia.
Qed.

Lemma SetStopTime_spec_witness :
  exists e' st',
    SetStopTime ex_stopped ex_noon ex_store = Done (e', None, st') /\
    Duration e' = 10800.
Proof.
  destruct (SetStopTime_spec ex_stopped ex_noon ex_store ex_start)
    as (e' & st' & H & _ & _ & _ & _ & _ & Hd & _); [reflexivity..|].
  exists e', st'. split; [exact H|]. rewrite Hd. reflexivity.
Defined.

(** C5 as stated fails in two places.  A stop half a second before the
    start gives duration 0, not the floor -1; and a stop more than 292
    years after the start gives the clamped 9223372036 seconds, not the
    floor of the difference. *)
Lemma SetStopTime_truncates_and_clamps :
  (exists e' st',
     SetStopTime ex_stopped ex_early ex_store = Done (e', None, st') /\
     Duration e' = 0 /\
     (time.nanos ex_early - time.nanos ex_start) / time.Second = -1) /\
  (exists e' st',
     SetStopTime ex_stopped ex_noon ex_ancient_store = Done (e', None, st') /\
     time.nanos time.zero <= time.nanos ex_noon /\
     Duration e' = 9223372036 /\
     (time.nanos ex_noon - time.nanos time.zero) / time.Second = 63839707200).
Proof.
  split; eexists _, _; repeat split; try reflexivity; discriminate.
Qed.

(** C6, as amended: on a stopped entry with a start, [SetDuration]
    succeeds, sets the duration to [seconds], keeps the start and points
    the stop at a new cell holding the start plus [seconds], for every
    [seconds] between -9223372036 and 9223372036 (those whose
    nanoseconds fit an [int64]). *)
Theorem SetDuration_spec e seconds st start :
  IsRunning e = false ->
  load (Start e) st = Some start ->
  -9223372036 <= seconds <= 9223372036 ->
  exists e' st',
    SetDuration e seconds st = Done (e', None, st') /\
    Duration e' = seconds /\
    load (Stop e') st' = Some (time.Add start (seconds * time.Second)) /\
    Start e' = Start e /\ load (Start e') st' = Some start /\
    extends st st' /\ same_other_fields e e'.
Proof.
  intros Hrun Hstart Hsec. unfold SetDuration. rewrite Hrun.
  change (Start (set_Duration e seconds)) with (Start e). rewrite Hstart.
  pose proof (load_new_time
    (time.Add start (Int64.mul seconds time.Second)) st) as Hnew.
  pose proof (extends_new_time
    (time.Add start (Int64.mul seconds time.Second)) st) as Hext.
  destruct (new_time _ st) as [a st1] eqn:Ea. cbn [fst snd] in Hnew, Hext.
  eexists _, _. split; [reflexivity|]. split; [done|].
  split.
  - etrans; [exact Hnew|]. do 2 f_equal. unfold Int64.mul. apply wrap_in_range.
    unfold Int64.in_range, Int64.min_int, Int64.max_int, time.Second. lia.
  - split; [done|]. split; [by apply Hext|]. done.
Qed.

Lemma SetDuration_spec_witness :
  exists e' st',
    SetDuration ex_stopped 60 ex_store = Done (e', None, st') /\
    load (Stop e') st' = Some (time.Add ex_start (60 * time.Second)).
Proof.
  destruct (SetDuration_spec ex_stopped 60 ex_store ex_start)
    as (e' & st' & H & _ & Hs & _); [reflexivity..|lia|].
  exists e', st'. split; [exact H|exact Hs].
Defined.

(** C6 as stated fails for a duration whose nanoseconds overflow an
    [int64]: ten billion seconds move the stop some 267 years before
    the start. *)
Lemma SetDuration_overflow :
  exists e' st',
    SetDuration ex_stopped 10000000000 ex_store = Done (e', None, st') /\
    Duration e' = 10000000000 /\
    load (Stop e') st' = Some (time.Add ex_start (-8446744073709551616)) /\
    time.Add ex_start (-8446744073709551616)
    <> time.Add ex_start (10000000000 * time.Second).
Proof.
  eexists _, _. repeat split; try reflexivity. discriminate.
Qed.

(** ** Copy *)

(** [Copy] gives the tags a backing array of their own, and hands on the
    start and stop pointers as they are. *)
Lemma Copy_result e st l :
  elems (Tags e) st = Some l ->
  Copy e st
  = Done (set_Tags e (mkSlice (Some (length (arrays st)))
                        (s_len (Tags e)) (s_len (Tags e))),
          mkStore (times st) (arrays st ++ [l])).
Proof.
  intros H. unfold Copy. rewrite H. unfold new_array, addr_of_deref.
  destruct e as [? ? ? ? ? [?|] [?|] ? ? ? ?]; reflexivity.
Qed.

Lemma Copy_pointers e st c st' :
  Copy e st = Done (c, st') ->
  Start c = Start e /\ Stop c = Stop e /\ times st' = times st.
Proof.
  unfold Copy. destruct (elems (Tags e) st) as [l|]; [|discriminate].
  unfold new_array, addr_of_deref.
  destruct e as [? ? ? ? ? [?|] [?|] ? ? ? ?]; simpl; intros [= <- <-]; done.
Qed.

(** C7: the tags are copied, the start and stop instants are not.  The
    copy of [ex_stopped] holds the very start and stop pointers of the
    original, so that assigning through the copy's start pointer changes
    the start time the original reads. *)
Theorem Copy_shares_start_and_stop :
  exists c st1 st2,
    Copy ex_stopped ex_store = Done (c, st1) /\
    Start c = Start ex_stopped /\ Stop c = Stop ex_stopped /\
    s_arr (Tags c) <> s_arr (Tags ex_stopped) /\
    StartTime ex_stopped st1 = Done ex_start /\
    assign (Start c) ex_noon st1 = Done st2 /\
    StartTime c st2 = Done ex_noon /\
    StartTime ex_stopped st2 = Done ex_noon.
Proof.
  eexists _, _, _. repeat split; try reflexivity. discriminate.
Qed.

(** ** Absent timestamps *)

Lemma valid_ptr_load st p :
  valid_ptr st p -> load p st = None -> p = None.
Proof. intros [->|[t H]]; [done|congruence]. Qed.

Lemma SetDuration_panics e d st :
  valid_ptr st (Start e) -> IsRunning e = false ->
  SetDuration e d st = Panic <-> Start e = None.
Proof.
  intros Hv Hrun. unfold SetDuration. rewrite Hrun.
  change (Start (set_Duration e d)) with (Start e).
  destruct (load (Start e) st) eqn:E.
  - destruct (new_time _ st). split; [discriminate|].
    intros H. rewrite H in E. discriminate.
  - split; [intros _; by eapply valid_ptr_load|done].
Qed.

Lemma SetStartTime_panics e t st :
  valid_ptr st (Stop e) -> IsRunning e = false ->
  SetStartTime e t false st = Panic <-> Stop e = None.
Proof.
  intros Hv Hrun. unfold SetStartTime.
  pose proof (load_new_time t st) as Hnew.
  pose proof (extends_new_time t st) as Hext.
  destruct (new_time t st) as [a st1]. cbn [fst snd] in Hnew, Hext.
  assert (IsRunning (set_Start e (Some a)) = IsRunning e) as -> by done.
  rewrite Hrun. cbn [negb].
  change (Stop (set_Start e (Some a))) with (Stop e).
  change (Start (set_Start e (Some a))) with (Some a). rewrite Hnew.
  destruct Hv as [Hn|[u Hu]].
  - rewrite Hn. done.
  - rewrite (proj1 Hext _ _ Hu). split; [discriminate|].
    intros H. rewrite H in Hu. discriminate.
Qed.

Lemma SetStopTime_panics e t st :
  valid_ptr st (Start e) -> IsRunning e = false ->
  SetStopTime e t st = Panic <-> Start e = None.
Proof.
  intros Hv Hrun. unfold SetStopTime. rewrite Hrun.
  pose proof (extends_new_time t st) as Hext.
  destruct (new_time t st) as [a st1]. cbn [fst snd] in Hext.
  change (Start (set_Stop e (Some a))) with (Start e).
  destruct Hv as [Hn|[u Hu]].
  - rewrite Hn. done.
  - rewrite (proj1 Hext _ _ Hu). split; [discriminate|].
    intros H. rewrite H in Hu. discriminate.
Qed.

(** ** Requests *)

Lemma bind_done {A B} (m : M A) (f : A -> M B) w a w' :
  m w = Done (a, w') -> (m ≫= f) w = f a w'.
Proof. intros H. unfold mbind, M_bind. by rewrite H. Qed.

Lemma bind_panic {A B} (m : M A) (f : A -> M B) w :
  m w = Panic -> (m ≫= f) w = Panic.
Proof. intros H. unfold mbind, M_bind. by rewrite H. Qed.

(** [put] and [post] with a map for [data]: the map is encoded, and
    only an encoded body is sent. *)
Lemma send_map (env : Env) (meth : Method) (url path : string)
    (m : list (string * GoValue)) (w : World) :
  (encode_body env (VMap m) ≫= fun '(body, err) =>
     match err with
     | Some _ => mret (None, err)
     | None => request env meth (url ++ path)%string body
     end) w
  = match json_Marshal (zone env) (heap w) (VMap m) with
    | Panic => Panic
    | Done (_, Some msg) => Done ((None, Some msg), w)
    | Done (body, None) =>
        let r := mkRequest meth (url ++ path)%string body in
        Done (transport env (sent w) r,
              mkWorld (ticks w) (sent w ++ [r]) (heap w))
    end.
Proof.
  unfold mbind, M_bind, encode_body.
  destruct (json_Marshal (zone env) (heap w) (VMap m)) as [[b [msg|]]|]; done.
Qed.

Lemma put_map env url path m w :
  put env url path (VMap m) w
  = match json_Marshal (zone env) (heap w) (VMap m) with
    | Panic => Panic
    | Done (_, Some msg) => Done ((None, Some msg), w)
    | Done (body, None) =>
        let r := mkRequest PUT (url ++ path)%string body in
        Done (transport env (sent w) r,
              mkWorld (ticks w) (sent w ++ [r]) (heap w))
    end.
Proof. apply send_map. Qed.

Lemma post_map env url path m w :
  post env url path (VMap m) w
  = match json_Marshal (zone env) (heap w) (VMap m) with
    | Panic => Panic
    | Done (_, Some msg) => Done ((None, Some msg), w)
    | Done (body, None) =>
        let r := mkRequest POST (url ++ path)%string body in
        Done (transport env (sent w) r,
              mkWorld (ticks w) (sent w ++ [r]) (heap w))
    end.
Proof. apply send_map. Qed.

(** [timeEntryRequest] returns, sends nothing and only uses the heap. *)
Lemma timeEntryRequest_done env data err w :
  exists r st,
    timeEntryRequest env data err w = Done (r, set_heap w st).
Proof.
  unfold timeEntryRequest. destruct err as [msg|].
  - exists (zeroTimeEntry, Some msg), (heap w). by destruct w.
  - destruct (unmarshal_data _ _ data (heap w)) as [[entry [msg|]] st];
      eexists _, _; reflexivity.
Qed.

Lemma timeEntryRequest_decode env data w :
  timeEntryRequest env data None w
  = match unmarshal_data (zone env) (grow env) data (heap w) with
    | (_, Some msg, st) => Done ((zeroTimeEntry, Some msg), set_heap w st)
    | (entry, None, st) => Done ((entry, None), set_heap w st)
    end.
Proof.
  unfold timeEntryRequest.
  by destruct (unmarshal_data _ _ data (heap w)) as [[entry [msg|]] st].
Qed.

(** What follows the request in every call: the answer is decoded,
    nothing more is sent. *)
Lemma answer_done env (x : Bytes * error) (w : World) :
  exists r w',
    (let '(respData, err) := x in timeEntryRequest env respData err) w
    = Done (r, w') /\ sent w' = sent w.
Proof.
  destruct x as [data err].
  destruct (timeEntryRequest_done env data err w) as (r & st & H).
  exists r, (set_heap w st). by split.
Qed.

(** The document for a map holding a time entry. *)
Lemma marshal_time_entry_map tz st e :
  json_Marshal tz st (VMap [("time_entry", VTimeEntry e)])
  = match marshal_TimeEntry tz st e with
    | Done (inr j) => Done (Some (json.Obj [("time_entry", j)]), None)
    | Done (inl msg) => Done (None, Some msg)
    | Panic => Panic
    end.
Proof.
  unfold json_Marshal. simpl.
  by destruct (marshal_TimeEntry tz st e) as [[msg|j]|].
Qed.

(** The document that starts a new entry, keys in sorted order. *)
Lemma marshal_start_data env st timer duronly tags :
  marshal_strings st (Tags timer) = Done (inr tags) ->
  float32_finite (Billable timer) = true ->
  json_Marshal (zone env) st (start_data env timer duronly)
  = Done (Some (json.Obj [("time_entry", json.Obj [
        ("billable", json.Num (json.Float32 (Billable timer)));
        ("created_with", json.Str (AppName env));
        ("description", json.Str (Description timer));
        ("duronly", json.Bool duronly);
        ("pid", json.Num (json.Int (Pid timer)));
        ("tags", tags);
        ("tid", json.Num (json.Int (Tid timer)))])]), None).
Proof.
  intros Htags Hfin. unfold json_Marshal, start_data.
  cbn. unfold marshal_float32. rewrite Hfin, Htags. reflexivity.
Qed.

(** ** ContinueTimeEntry *)

Lemma continue_duration now d :
  0 <= now -> Int64.in_range now -> 0 <= d -> Int64.in_range d ->
  Int64.neg (Int64.sub now d) = - (now - d).
Proof.
  unfold Int64.neg, Int64.sub, Int64.in_range, Int64.min_int, Int64.max_int.
  intros. rewrite (wrap_in_range (now - d)).
  - apply wrap_in_range.
    unfold Int64.in_range, Int64.min_int, Int64.max_int. lia.
  - unfold Int64.in_range, Int64.min_int, Int64.max_int. lia.
Qed.



(** ** Decoding only adds to the heap *)

Lemma grows_refl st : grows st st.
Proof. split; exists []; by rewrite app_nil_r. Qed.

Lemma grows_trans st1 st2 st3 : grows st1 st2 -> grows st2 st3 -> grows st1 st3.
Proof.
  intros [[l1 H1] [a1 A1]] [[l2 H2] [a2 A2]]. split.
  - exists (l1 ++ l2). by rewrite H2, H1, app_assoc.
  - exists (a1 ++ a2). by rewrite A2, A1, app_assoc.
Qed.

Lemma grows_new_time t st : grows st (snd (new_time t st)).
Proof. split; [by exists [t]|exists []; simpl; by rewrite app_nil_r]. Qed.

Lemma grows_new_array l st : grows st (snd (new_array l st)).
Proof. split; [exists []; simpl; by rewrite app_nil_r|by exists [l]]. Qed.

Lemma grows_load st st' p t : grows st st' -> load p st = Some t -> load p st' = Some t.
Proof.
  intros [[l H] _]. destruct p as [a|]; simpl; [|done].
  rewrite H. apply lookup_app_l_Some.
Qed.

Lemma grows_elems st st' s l : grows st st' -> elems s st = Some l -> elems s st' = Some l.
Proof.
  intros [_ [a H]]. unfold elems. destruct (s_arr s) as [i|]; [|done].
  rewrite H. destruct (arrays st !! i) as [arr|] eqn:E; [|done].
  by rewrite (lookup_app_l_Some _ _ _ _ E).
Qed.

Lemma decode_strings_grows g field v st s st' :
  decode_strings g field v st = inr (s, st') -> grows st st'.
Proof.
  unfold decode_strings. destruct v; try discriminate.
  - intros [= <- <-]. apply grows_refl.
  - destruct (decode_elements field l) as [|ss]; [discriminate|].
    pose proof (grows_new_array
      (ss ++ replicate ((if (length ss =? 0)%nat then 0%nat
                         else Nat.max (length ss) (g (length ss))) - length ss)
                ""%string) st) as H.
    destruct (new_array _ st) as [a st1]. intros [= <- <-]. exact H.
Qed.

Lemma decode_key_grows g k v t st t' st' :
  decode_key g k v t st = inr (t', st') -> grows st st'.
Proof.
  unfold decode_key.
  repeat (case_match; try discriminate);
    try (intros [= <- <-]; apply grows_refl).
  intros [= <- <-]. by eapply decode_strings_grows.
Qed.

Lemma decode_fields_grows g fields : forall t st t' st',
  decode_fields g fields t st = inr (t', st') -> grows st st'.
Proof.
  induction fields as [|[k v] fields IH]; intros t st t' st'; simpl.
  - intros [= <- <-]. apply grows_refl.
  - destruct (decode_key g k v t st) as [|[t1 st1]] eqn:E; [discriminate|].
    intros H. eapply grows_trans; [by eapply decode_key_grows|by eapply IH].
Qed.

Lemma asTimeEntry_grows tz t st :
  grows st (snd (asTimeEntry tz t st)).
Proof.
  unfold asTimeEntry.
  assert (forall e st0, grows st0 (snd (
    if negb (String.eqb (StopString t) "")
    then let '(stop, err) := parseTime tz (StopString t) in
         match err with
         | Some _ => (e, err, st0)
         | None => let '(a, st1) := new_time stop st0 in
                   (set_Stop e (Some a), None, st1)
         end
    else (e, None : error, st0)))) as Hstop.
  { intros e st0. destruct (negb _); [|apply grows_refl].
    destruct (parseTime tz (StopString t)) as [stop [msg|]]; [apply grows_refl|].
    apply (grows_new_time stop st0). }
  destruct (negb (String.eqb (StartString t) "")); [|apply Hstop].
  destruct (parseTime tz (StartString t)) as [start [msg|]]; [apply grows_refl|].
  pose proof (grows_new_time start st) as H.
  destruct (new_time start st) as [a st1]. eapply grows_trans; [exact H|apply Hstop].
Qed.

Lemma UnmarshalJSON_grows tz g e b st :
  grows st (snd (UnmarshalJSON tz g e b st)).
Proof.
  unfold UnmarshalJSON.
  destruct (unmarshal_temp g b st) as [|[t st1]] eqn:E; [apply grows_refl|].
  assert (grows st st1) as H1.
  { unfold unmarshal_temp in E. destruct b; try discriminate.
    - injection E as <- <-. apply grows_refl.
    - by eapply decode_fields_grows. }
  pose proof (asTimeEntry_grows tz t st1) as H2.
  destruct (asTimeEntry tz t st1) as [[te [msg|]] st2];
    by eapply grows_trans.
Qed.

Lemma decode_data_grows tz g fields : forall d st,
  grows st (snd (decode_data tz g fields d st)).
Proof.
  induction fields as [|[k v] fields IH]; intros d st; simpl; [apply grows_refl|].
  destruct (String.eqb (fold_key k) "data"); [|apply IH].
  pose proof (UnmarshalJSON_grows tz g d v st) as H.
  destruct (UnmarshalJSON tz g d v st) as [[d1 [msg|]] st1]; [exact H|].
  eapply grows_trans; [exact H|apply IH].
Qed.

Lemma unmarshal_data_grows tz g data st :
  grows st (snd (unmarshal_data tz g data st)).
Proof.
  unfold unmarshal_data. destruct data as [[]|]; try apply grows_refl.
  apply decode_data_grows.
Qed.

(** ** UnstopTimeEntry *)

Lemma Unstop_create_failed env timer w b msg w1 :
  post env TogglAPI "/time_entries/start"
    (start_data env timer (DurOnly timer)) w = Done ((b, Some msg), w1) ->
  UnstopTimeEntry env timer w
  = Done ((zeroTimeEntry, Errorf "New entry not started" msg), w1).
Proof.
  intros H. unfold UnstopTimeEntry. erewrite bind_done; [|exact H]. reflexivity.
Qed.

Lemma Unstop_after_create env timer w b w1 created st1 :
  post env TogglAPI "/time_entries/start"
    (start_data env timer (DurOnly timer)) w = Done ((b, None), w1) ->
  unmarshal_data (zone env) (grow env) b (heap w1) = (created, None, st1) ->
  UnstopTimeEntry env timer w
  = (let newEntry := set_Start created (Start timer) in
     '(_, err) ← UpdateTimeEntry env newEntry;
     match err with
     | Some msg => mret (newEntry, Errorf "New entry not updated" msg)
     | None =>
         '(_, err) ← DeleteTimeEntry env timer;
         match err with
         | Some msg => mret (newEntry, Errorf "Old entry not deleted" msg)
         | None => mret (newEntry, None)
         end
     end) (set_heap w1 st1).
Proof.
  intros H Hd. unfold UnstopTimeEntry. erewrite bind_done; [|exact H].
  cbn iota. erewrite bind_done; cycle 1.
  { rewrite timeEntryRequest_decode, Hd. reflexivity. }
  reflexivity.
Qed.



(** ** Calls that do not panic *)

Lemma marshal_time_field_done tz st k p :
  valid_ptr st p -> exists r, marshal_time_field tz st k p = Done r.
Proof.
  unfold marshal_time_field. intros [->|[t H]]; [by eexists|].
  destruct p as [a|]; [|discriminate]. simpl in H. rewrite H.
  destruct (time.MarshalJSON tz t) as [s [msg|]]; by eexists.
Qed.

Lemma marshal_strings_done st s l :
  elems s st = Some l -> exists j, marshal_strings st s = Done (inr j).
Proof.
  unfold marshal_strings. intros H. destruct (s_arr s); [|by eexists].
  rewrite H. by eexists.
Qed.

Lemma marshal_TimeEntry_done tz st e :
  valid_entry st e -> exists r, marshal_TimeEntry tz st e = Done r.
Proof.
  intros (Hs & Hp & l & Hl). unfold marshal_TimeEntry, enc_bind.
  destruct (marshal_time_field_done tz st "stop" _ Hp) as [[msg|stop] ->];
    [by eexists|].
  destruct (marshal_time_field_done tz st "start" _ Hs) as [[msg|start] ->];
    [by eexists|].
  destruct (marshal_strings_done _ _ _ Hl) as [tags ->].
  unfold marshal_float32. destruct (float32_finite (Billable e)); by eexists.
Qed.

Lemma marshal_start_data_done env st timer duronly l :
  elems (Tags timer) st = Some l ->
  exists r, json_Marshal (zone env) st (start_data env timer duronly) = Done r.
Proof.
  intros Hl. destruct (marshal_strings_done _ _ _ Hl) as [tags Ht].
  destruct (float32_finite (Billable timer)) eqn:Hfin.
  - rewrite (marshal_start_data env st timer duronly tags Ht Hfin). by eexists.
  - unfold json_Marshal, start_data. cbn. unfold marshal_float32.
    rewrite Hfin. cbn. by eexists.
Qed.

(** A request for a time entry returns once its body is encoded without
    a panic. *)
Lemma send_returns env (send : M (Bytes * error)) w :
  (exists r w', send w = Done (r, w')) ->
  exists r w',
    (send ≫= fun '(respData, err) => timeEntryRequest env respData err) w
    = Done (r, w').
Proof.
  intros (x & w1 & H). erewrite bind_done; [|exact H]. destruct x as [b err].
  destruct (timeEntryRequest_done env b err w1) as (r & st & Hr).
  by eexists _, _.
Qed.

Lemma send_map_returns env meth url path m w r :
  json_Marshal (zone env) (heap w) (VMap m) = Done r ->
  exists x w',
    (encode_body env (VMap m) ≫= fun '(body, err) =>
       match err with
       | Some _ => mret (None, err)
       | None => request env meth (url ++ path)%string body
       end) w = Done (x, w').
Proof.
  intros H. rewrite send_map, H. destruct r as [b [msg|]]; by eexists _, _.
Qed.

Lemma Copy_valid e st l :
  valid_entry st e -> elems (Tags e) st = Some l ->
  exists c st1, Copy e st = Done (c, st1) /\
    forall d b, valid_entry st1 (set_DurOnly (set_Duration c d) b).
Proof.
  intros (Hs & Hp & _) Hl. eexists _, _. split; [by apply Copy_result|].
  intros d b. split; [|split].
  - exact Hs.
  - exact Hp.
  - unfold elems. cbn. rewrite lookup_app_r by lia. rewrite Nat.sub_diag.
    by eexists.
Qed.

Lemma ContinueTimeEntry_returns env timer duronly w :
  valid_entry (heap w) timer ->
  (duronly = true -> exists start, load (Start timer) (heap w) = Some start) ->
  exists r w', ContinueTimeEntry env timer duronly w = Done (r, w').
Proof.
  intros Hv Hstart. pose proof Hv as (_ & _ & l & Hl).
  assert (forall n, let w1 := mkWorld n (sent w) (heap w) in
            exists r w',
              ('(respData, err) ←
                 post env TogglAPI "/time_entries/start"
                   (start_data env timer duronly);
               timeEntryRequest env respData err) w1 = Done (r, w')) as HB.
  { intros n w1. apply send_returns.
    destruct (marshal_start_data_done env (heap w) timer duronly l Hl) as [r Hr].
    by eapply send_map_returns. }
  unfold ContinueTimeEntry. destruct duronly.
  - destruct (Hstart eq_refl) as [start Hs].
    erewrite bind_done; cycle 1.
    { erewrite (bind_done (Now env)); [|reflexivity].
      erewrite (bind_done (deref (Start timer))); [reflexivity|].
      unfold deref. cbn. by rewrite Hs. }
    destruct (same_local_day env _ start); [|apply HB].
    destruct (Copy_valid timer (heap w) l Hv Hl) as (c & st1 & Hc & Hvc).
    erewrite (bind_done (on_heap (Copy timer))); cycle 1.
    { unfold on_heap. cbn. rewrite Hc. reflexivity. }
    erewrite (bind_done (Now env)); [|reflexivity].
    apply send_returns.
    destruct (marshal_TimeEntry_done (zone env) st1 _
                (Hvc (Int64.neg (Int64.sub
                   (time.Unix (clock env (S (ticks w)))) (Duration c))) true))
      as [r Hr].
    destruct r as [msg|j]; eapply send_map_returns;
      rewrite marshal_time_entry_map; cbn [heap set_heap ticks];
      rewrite Hr; reflexivity.
  - erewrite bind_done; [|reflexivity]. destruct w. apply (HB ticks0).
Qed.

(** C10: four operations dereference an optional timestamp without a
    nil check.  On a stopped entry (whose references point into the
    heap) [SetDuration] and [SetStopTime] panic exactly when the start
    is absent, and [SetStartTime] without [updateEnd] exactly when the
    stop is absent; [ContinueTimeEntry] with [duronly] panics exactly
    when the start is absent. *)
Theorem absent_timestamps_panic e st :
  valid_entry st e ->
  (IsRunning e = false ->
   (forall duration, SetDuration e duration st = Panic <-> Start e = None) /\
   (forall start, SetStartTime e start false st = Panic <-> Stop e = None) /\
   (forall stop, SetStopTime e stop st = Panic <-> Start e = None)) /\
  (forall env w, heap w = st ->
     ContinueTimeEntry env e true w = Panic <-> Start e = None).
Proof.
  intros Hv. pose proof Hv as (Hs & Hp & _). split.
  - intros Hrun. repeat split.
    + by apply SetDuration_panics.
    + by apply SetDuration_panics.
    + by apply SetStartTime_panics.
    + by apply SetStartTime_panics.
    + by apply SetStopTime_panics.
    + by apply SetStopTime_panics.
  - intros env w <-. split.
    + intros Hpanic. destruct (load (Start e) (heap w)) as [t|] eqn:E.
      * destruct (ContinueTimeEntry_returns env e true w Hv) as (r & w' & H);
          [by eexists|congruence].
      * by eapply valid_ptr_load.
    + intros Hnil. unfold ContinueTimeEntry. apply bind_panic.
      erewrite (bind_done (Now env)); [|reflexivity].
      apply bind_panic. unfold deref. by rewrite Hnil.
Qed.

Lemma absent_timestamps_panic_witness :
  SetDuration ex_no_start 60 ex_store = Panic /\
  SetStartTime ex_no_stop ex_noon false ex_store = Panic /\
  SetStopTime ex_no_start ex_noon ex_store = Panic /\
  ContinueTimeEntry ex_env ex_no_start true ex_world = Panic /\
  ContinueTimeEntry ex_env ex_stopped true ex_world <> Panic.
Proof.
  assert (valid_entry ex_store ex_no_start) as V1.
  { split; [by left|]. split; [right; by eexists|by eexists]. }
  assert (valid_entry ex_store ex_no_stop) as V2.
  { split; [right; by eexists|]. split; [by left|by eexists]. }
  assert (valid_entry ex_store ex_stopped) as V3.
  { split; [right; by eexists|]. split; [right; by eexists|by eexists]. }
  split; [|split; [|split; [|split]]].
  - apply (absent_timestamps_panic ex_no_start ex_store V1); reflexivity.
  - apply (absent_timestamps_panic ex_no_stop ex_store V2); reflexivity.
  - apply (absent_timestamps_panic ex_no_start ex_store V1); reflexivity.
  - apply (absent_timestamps_panic ex_no_start ex_store V1 ); reflexivity.
  - intros H.
    apply (absent_timestamps_panic ex_stopped ex_store V3) in H;
      [discriminate|reflexivity].
Defined.

(** ** Decoding timestamps *)

(** The generic decoder never fills the embedded entry's own start and
    stop: the string fields take those keys. *)
Lemma decode_key_pointers g k v t st t' st' :
  decode_key g k v t st = inr (t', st') ->
  Start (embeddedTimeEntry t') = Start (embeddedTimeEntry t) /\
  Stop (embeddedTimeEntry t') = Stop (embeddedTimeEntry t).
Proof.
  unfold decode_key.
  repeat (case_match; try discriminate); by intros [= <- <-].
Qed.

Lemma decode_fields_pointers g fields : forall t st t' st',
  decode_fields g fields t st = inr (t', st') ->
  Start (embeddedTimeEntry t') = Start (embeddedTimeEntry t) /\
  Stop (embeddedTimeEntry t') = Stop (embeddedTimeEntry t).
Proof.
  induction fields as [|[k v] fields IH]; intros t st t' st'; simpl.
  - by intros [= <- <-].
  - destruct (decode_key g k v t st) as [|[t1 st1]] eqn:E; [discriminate|].
    intros H. destruct (decode_key_pointers _ _ _ _ _ _ _ E) as [<- <-].
    by eapply IH.
Qed.

Lemma unmarshal_temp_pointers g b st t st1 :
  unmarshal_temp g b st = inr (t, st1) ->
  Start (embeddedTimeEntry t) = None /\ Stop (embeddedTimeEntry t) = None.
Proof.
  unfold unmarshal_temp. destruct b; try discriminate.
  - by intros [= <- <-].
  - intros H. by destruct (decode_fields_pointers _ _ _ _ _ _ H) as [-> ->].
Qed.

Lemma parseTime_order tz s :
  parseTime tz s
  = match snd (time.ParseZ s) with
    | None => time.ParseZ s
    | Some _ => time.ParseOffset tz s
    end.
Proof. unfold parseTime. by destruct (time.ParseZ s) as [t [msg|]]. Qed.

(** C9: [parseTime] tries the layout with the literal Z first and the
    layout with a numeric offset second, and returns the first parse
    that succeeds.  In [UnmarshalJSON], for the start and stop strings
    the generic decoder found: an empty string leaves the field nil
    without an error; a string that parses sets the field to a new cell
    holding the time; and any other string makes the decode fail with
    an error, the target entry left as it was. *)
Theorem timestamp_decoding tz g e b st t st1 :
  unmarshal_temp g b st = inr (t, st1) ->
  (forall s,
     parseTime tz s
     = match snd (time.ParseZ s) with
       | None => time.ParseZ s
       | Some _ => time.ParseOffset tz s
       end) /\
  exists e' err st',
    UnmarshalJSON tz g e b st = (e', err, st') /\
    (err = None <->
     (StartString t = "" \/ parses tz (StartString t) = true) /\
     (StopString t = "" \/ parses tz (StopString t) = true)) /\
    (err <> None -> e' = e) /\
    (err = None ->
     (StartString t = "" -> Start e' = None) /\
     (StartString t <> "" ->
      load (Start e') st' = Some (fst (parseTime tz (StartString t)))) /\
     (StopString t = "" -> Stop e' = None) /\
     (StopString t <> "" ->
      load (Stop e') st' = Some (fst (parseTime tz (StopString t))))).
Proof.
  intros H. split; [apply parseTime_order|].
  destruct (unmarshal_temp_pointers _ _ _ _ _ H) as [Hs0 Hp0].
  unfold UnmarshalJSON. rewrite H. unfold asTimeEntry, parses.
  destruct (String.eqb_spec (StartString t) "") as [Es|Es];
    destruct (String.eqb_spec (StopString t) "") as [Ep|Ep]; cbn [negb].
  - eexists _, _, _. split; [reflexivity|]. repeat split; try done; auto.
  - destruct (parseTime tz (StopString t)) as [stop [msg|]] eqn:Pp; cbn [snd fst].
    + eexists _, _, _. split; [reflexivity|].
      repeat split; try done. intros [_ [?|?]]; done.
    + pose proof (load_new_time stop st1) as Hn.
      destruct (new_time stop st1) as [a st2]. cbn [fst snd] in Hn.
      eexists _, _, _. split; [reflexivity|]. repeat split; try done; auto.
  - destruct (parseTime tz (StartString t)) as [start [msg|]] eqn:Ps; cbn [snd fst].
    + eexists _, _, _. split; [reflexivity|].
      repeat split; try done. intros [[?|?] _]; done.
    + pose proof (load_new_time start st1) as Hn.
      destruct (new_time start st1) as [a st2]. cbn [fst snd] in Hn.
      eexists _, _, _. split; [reflexivity|]. repeat split; try done; auto.
  - destruct (parseTime tz (StartString t)) as [start [msg|]] eqn:Ps; cbn [snd fst].
    + eexists _, _, _. split; [reflexivity|].
      repeat split; try done. intros [[?|?] _]; done.
    + pose proof (load_new_time start st1) as Hn.
      pose proof (extends_new_time start st1) as Hx.
      destruct (new_time start st1) as [a st2]. cbn [fst snd] in Hn, Hx.
      destruct (parseTime tz (StopString t)) as [stop [msg|]] eqn:Pp; cbn [snd fst].
      * eexists _, _, _. split; [reflexivity|].
        repeat split; try done. intros [_ [?|?]]; done.
      * pose proof (load_new_time stop st2) as Hn2.
        pose proof (extends_new_time stop st2) as Hx2.
        destruct (new_time stop st2) as [c st3]. cbn [fst snd] in Hn2, Hx2.
        eexists _, _, _. split; [reflexivity|].
        repeat split; try done; auto.
        intros _. by apply Hx2.
Qed.

Lemma timestamp_decoding_witness :
  exists e' st',
    UnmarshalJSON (fun _ => 3600) (fun n => n) zeroTimeEntry ex_document ex_store
    = (e', None, st') /\
    load (Start e') st' = Some ex_start /\ Stop e' = None.
Proof.
  edestruct (timestamp_decoding (fun _ => 3600) (fun n => n) zeroTimeEntry
               ex_document ex_store) as (_ & e' & err & st' & H & Herr & _ & Hok);
    [reflexivity|].
  assert (err = None) as ->.
  { apply Herr. split; [right|left]; reflexivity. }
  exists e', st'. split; [exact H|].
  destruct (Hok eq_refl) as (_ & Hs & Hp & _).
  split; [apply Hs; discriminate|apply Hp; reflexivity].
Defined.

(** ** The calendar *)

Lemma all_from_spec f n : forall z i,
  all_from f n z = true -> z <= i < z + Z.of_nat n -> f i = true.
Proof.
  induction n as [|n IH]; intros z i H Hi; [lia|].
  simpl in H. apply andb_true_iff in H as [H0 H1].
  destruct (Z.eq_dec i z) as [->|Hne]; [done|].
  apply (IH (z + 1)); [done|lia].
Qed.

(** Every day of the 400-year era passes the test, by evaluation. *)
Lemma doe_ok_era : all_from doe_ok (Z.to_nat 146097) 0 = true.
Proof. vm_compute. reflexivity. Qed.

Lemma doe_ok_all doe : 0 <= doe < 146097 -> doe_ok doe = true.
Proof.
  intros H. apply (all_from_spec doe_ok (Z.to_nat 146097) 0); [apply doe_ok_era|].
  rewrite Z2Nat.id; lia.
Qed.

Lemma isLeap_shift k e : time.isLeap (k + e * 400) = time.isLeap k.
Proof.
  unfold time.isLeap.
  replace (k + e * 400) with (k + (e * 100) * 4) at 1 by ring.
  replace (k + e * 400) with (k + (e * 4) * 100) at 1 by ring.
  by rewrite !Z_mod_plus_full.
Qed.

Lemma daysIn_shift m k e : time.daysIn m (k + e * 400) = time.daysIn m k.
Proof. unfold time.daysIn. by rewrite isLeap_shift. Qed.

(** A day number converts to a date of the calendar, and the date back
    to the day number. *)
Lemma civil_roundtrip z y m d :
  time.civil_from_days z = (y, m, d) ->
  1 <= m <= 12 /\ 1 <= d <= time.daysIn m y /\ time.days_from_civil y m d = z.
Proof.
  unfold time.civil_from_days, time.days_from_civil.
  pose proof (Z.mod_pos_bound (z + 719468) 146097 ltac:(lia)) as Hdoe.
  pose proof (Z.div_mod (z + 719468) 146097 ltac:(lia)) as Hz.
  pose proof (doe_ok_all _ Hdoe) as Hok. unfold doe_ok in Hok.
  destruct (time.civil_of_doe ((z + 719468) mod 146097)) as [[yoe m0] d0].
  intros [= <- <- <-].
  repeat (apply andb_true_iff in Hok as [Hok ?]).
  set (era := (z + 719468) / 146097) in *.
  assert (time.daysIn m0 (if m0 <=? 2 then yoe + era * 400 + 1 else yoe + era * 400)
          = time.daysIn m0 (if m0 <=? 2 then yoe + 1 else yoe)) as Hdays.
  { destruct (m0 <=? 2).
    - replace (yoe + era * 400 + 1) with (yoe + 1 + era * 400) by ring.
      apply daysIn_shift.
    - apply daysIn_shift. }
  split; [lia|]. split; [rewrite Hdays; lia|].
  assert ((if m0 <=? 2
           then (if m0 <=? 2 then yoe + era * 400 + 1 else yoe + era * 400) - 1
           else (if m0 <=? 2 then yoe + era * 400 + 1 else yoe + era * 400))
          = yoe + era * 400) as -> by (destruct (m0 <=? 2); lia).
  rewrite Z_div_plus_full, Z_mod_plus_full by lia.
  rewrite Z.div_small, Z.mod_small by lia.
  apply Z.eqb_eq in H. lia.
Qed.

(** ** Printing and reading numbers *)

Lemma digit_val_digit n : time.digit_val (time.digit n) = Some (n mod 10).
Proof.
  unfold time.digit.
  pose proof (Z.mod_pos_bound n 10 ltac:(lia)) as H.
  assert (n mod 10 = 0 \/ n mod 10 = 1 \/ n mod 10 = 2 \/ n mod 10 = 3 \/
          n mod 10 = 4 \/ n mod 10 = 5 \/ n mod 10 = 6 \/ n mod 10 = 7 \/
          n mod 10 = 8 \/ n mod 10 = 9) as Hc by lia.
  destruct Hc as [->|[->|[->|[->|[->|[->|[->|[->|[->| ->]]]]]]]]]; reflexivity.
Qed.

Lemma isDigit_digit n : time.isDigit (time.digit n) = true.
Proof. unfold time.isDigit. by rewrite digit_val_digit. Qed.

Lemma appendInt_digits x w :
  0 <= x < 10 ^ Z.of_nat w -> time.appendInt x w = time.digits w x.
Proof.
  intros H. unfold time.appendInt.
  rewrite Z.abs_eq by lia.
  destruct (Z.ltb_spec x (10 ^ Z.of_nat w)); [|lia].
  destruct (Z.ltb_spec x 0); [lia|done].
Qed.

Lemma getnum2_digits n r :
  0 <= n < 100 -> time.getnum2 (time.digits 2 n ++ r) = Some (n, r).
Proof.
  intros H. cbn. rewrite !digit_val_digit. do 2 f_equal.
  Z.div_mod_to_equations. lia.
Qed.

Lemma getnum_digits n r :
  0 <= n < 100 -> time.getnum (time.digits 2 n ++ r) = Some (n, r).
Proof.
  intros H. cbn. rewrite !digit_val_digit. do 2 f_equal.
  Z.div_mod_to_equations. lia.
Qed.

Lemma getyear_digits y r :
  0 <= y < 10000 -> time.getyear (time.digits 4 y ++ r) = Some (y, r).
Proof.
  intros H. unfold time.getyear.
  cbn -[time.digit time.digit_val Z.div Z.modulo Z.mul Z.add].
  rewrite !digit_val_digit.
  cbn -[time.digit time.digit_val Z.div Z.modulo Z.mul Z.add].
  rewrite !digit_val_digit. do 2 f_equal.
  Z.div_mod_to_equations. lia.
Qed.

Lemma span_no_digit s : no_digit_ahead s -> time.span_digits s = ([], s).
Proof. destruct s as [|c s]; [done|]. simpl. by intros ->. Qed.

Lemma span_frac k : forall n r,
  0 <= n < 10 ^ Z.of_nat k -> no_digit_ahead r ->
  exists ds, time.span_digits (time.frac k n ++ r) = (ds, r) /\
             time.scaled k ds = n.
Proof.
  induction k as [|k IH]; intros n r Hn Hr.
  - exists []. split; [by apply span_no_digit|]. simpl in *. lia.
  - cbn [time.frac]. destruct (Z.eqb_spec n 0) as [->|Hne].
    + exists []. split; [by apply span_no_digit|done].
    + assert (0 < 10 ^ Z.of_nat k) as Hpos by (apply Z.pow_pos_nonneg; lia).
      assert (10 ^ Z.of_nat (S k) = 10 * 10 ^ Z.of_nat k) as Hpow.
      { rewrite Nat2Z.inj_succ, Z.pow_succ_r; lia. }
      pose proof (Z.mod_pos_bound n (10 ^ Z.of_nat k) Hpos) as Hm.
      pose proof (Z.div_mod n (10 ^ Z.of_nat k) ltac:(lia)) as Hdm.
      assert (0 <= n / 10 ^ Z.of_nat k < 10) as Hq.
      { split; [apply Z.div_pos; lia|apply Z.div_lt_upper_bound; lia]. }
      destruct (IH (n mod 10 ^ Z.of_nat k) r Hm Hr) as (ds & Hs & Hv).
      exists (n / 10 ^ Z.of_nat k :: ds). split.
      * cbn. rewrite digit_val_digit, Hs. by rewrite Z.mod_small.
      * cbn [time.scaled]. rewrite Hv. lia.
Qed.

(** ** Reading back a printed timestamp *)

Lemma zone_like_no_digit r : zone_like r -> no_digit_ahead r.
Proof. destruct r; [done|]. by intros [? _]. Qed.

Lemma getfrac_zone r : zone_like r -> time.getfrac r = (0, r).
Proof.
  destruct r as [|c [|d r]]; try done.
  intros (_ & H1 & H2). unfold time.getfrac. by rewrite H1, H2.
Qed.

Lemma getfrac_appendNano ns r :
  0 <= ns < 1000000000 -> zone_like r ->
  time.getfrac (time.appendNano ns ++ r) = (ns, r).
Proof.
  intros Hns Hr. unfold time.appendNano.
  destruct (Z.eqb_spec ns 0) as [->|Hne]; [by apply getfrac_zone|].
  destruct (span_frac 9 ns r ltac:(simpl; lia) (zone_like_no_digit _ Hr))
    as (ds & Hs & Hv).
  change (String "." (time.frac 9 ns) ++ r)%string
    with (String "."%char (time.frac 9 ns ++ r)%string).
  revert Hs. cbn [time.frac]. destruct (Z.eqb_spec ns 0); [done|].
  cbn [append]. intros Hs. unfold time.getfrac.
  rewrite isDigit_digit. cbn [Ascii.eqb Bool.eqb orb andb].
  rewrite Hs. by rewrite Hv.
Qed.

Lemma skip_literal c s : time.skip c (String c EmptyString ++ s) = Some s.
Proof. cbn. by rewrite Ascii.eqb_refl. Qed.

Lemma in_range_true lo hi x : lo <= x <= hi -> time.in_range lo hi x = true.
Proof. intros H. unfold time.in_range. apply andb_true_iff. lia. Qed.

Lemma daysIn_le m y : time.daysIn m y <= 31.
Proof. unfold time.daysIn. repeat case_match; lia. Qed.

(** The date and time printed field by field is read back by
    [parse_datetime], up to the zone. *)
Lemma parse_datetime_fields y m d hh mm ss ns r :
  0 <= y < 10000 -> 1 <= m <= 12 -> 1 <= d <= time.daysIn m y ->
  0 <= hh < 24 -> 0 <= mm < 60 -> 0 <= ss < 60 -> 0 <= ns < 1000000000 ->
  zone_like r ->
  time.parse_datetime
    (time.digits 4 y ++ "-" ++ time.digits 2 m ++ "-" ++ time.digits 2 d ++ "T"
     ++ time.digits 2 hh ++ ":" ++ time.digits 2 mm ++ ":" ++ time.digits 2 ss
     ++ time.appendNano ns ++ r)
  = Some (time.civil_nanos y m d hh mm ss ns, r).
Proof.
  intros Hy Hm Hd Hh Hmm Hss Hns Hr.
  pose proof (daysIn_le m y) as Hd31.
  unfold time.parse_datetime.
  rewrite getyear_digits by done. cbn [mbind option_bind].
  rewrite skip_literal. cbn [mbind option_bind].
  rewrite getnum2_digits by lia. cbn [mbind option_bind].
  rewrite in_range_true by lia. cbn [negb].
  rewrite skip_literal. cbn [mbind option_bind].
  rewrite getnum2_digits by lia. cbn [mbind option_bind].
  rewrite skip_literal. cbn [mbind option_bind].
  rewrite getnum_digits by lia. cbn [mbind option_bind].
  rewrite in_range_true by lia. cbn [negb].
  rewrite skip_literal. cbn [mbind option_bind].
  rewrite getnum2_digits by lia. cbn [mbind option_bind].
  rewrite in_range_true by lia. cbn [negb].
  rewrite skip_literal. cbn [mbind option_bind].
  rewrite getnum2_digits by lia. cbn [mbind option_bind].
  rewrite in_range_true by lia. cbn [negb].
  rewrite getfrac_appendNano by done.
  by rewrite in_range_true by lia.
Qed.

(** A zone offset of whole minutes, less than a day, prints as a sign,
    two digits of hours, a colon and two digits of minutes. *)
Lemma appendZone_shape off :
  off <> 0 -> off mod 60 = 0 -> -86400 < off < 86400 ->
  exists sg hh mm,
    time.appendZone off
    = String sg (time.digits 2 hh ++ ":" ++ time.digits 2 mm) /\
    0 <= hh < 24 /\ 0 <= mm < 60 /\
    ((sg = "+"%char /\ off = (hh * 60 + mm) * 60) \/
     (sg = "-"%char /\ off = - ((hh * 60 + mm) * 60))).
Proof.
  intros Hne Hmod Hrange. unfold time.appendZone.
  destruct (Z.eqb_spec off 0); [done|].
  assert (exists q, off = q * 60) as [q ->].
  { exists (off / 60). pose proof (Z.div_mod off 60 ltac:(lia)). lia. }
  rewrite Z.quot_mul by lia.
  assert (0 <= Z.abs q / 60 < 24) as Hh.
  { split; [apply Z.div_pos; lia|apply Z.div_lt_upper_bound; lia]. }
  pose proof (Z.mod_pos_bound (Z.abs q) 60 ltac:(lia)) as Hm.
  pose proof (Z.div_mod (Z.abs q) 60 ltac:(lia)) as Hdm.
  rewrite !appendInt_digits by (simpl; lia).
  destruct (Z.ltb_spec q 0).
  - exists "-"%char, (Z.abs q / 60), (Z.abs q mod 60).
    split; [done|]. split; [done|]. split; [done|]. right. split; [done|]. lia.
  - exists "+"%char, (Z.abs q / 60), (Z.abs q mod 60).
    split; [done|]. split; [done|]. split; [done|]. left. split; [done|]. lia.
Qed.

Lemma parse_offset_shape sg hh mm :
  0 <= hh < 24 -> 0 <= mm < 60 ->
  time.parse_offset (String sg (time.digits 2 hh ++ ":" ++ time.digits 2 mm))
  = if Ascii.eqb sg "+" then Some ((hh * 60 + mm) * 60, EmptyString)
    else if Ascii.eqb sg "-" then Some (- ((hh * 60 + mm) * 60), EmptyString)
    else None.
Proof.
  intros Hh Hm.
  cbn -[time.digit time.digit_val Z.div Z.modulo Z.mul Z.add Z.opp Z.ltb Ascii.eqb].
  rewrite !digit_val_digit.
  cbn -[time.digit time.digit_val Z.div Z.modulo Z.mul Z.add Z.opp Z.ltb Ascii.eqb].
  replace (10 * ((hh / 10) mod 10) + hh mod 10) with hh
    by (Z.div_mod_to_equations; lia).
  replace (10 * ((mm / 10) mod 10) + mm mod 10) with mm
    by (Z.div_mod_to_equations; lia).
  destruct (Z.ltb_spec 24 hh); [lia|]. destruct (Z.ltb_spec 60 mm); [lia|].
  reflexivity.
Qed.

(** An encodable time is printed by [MarshalJSON], and [parseTime]
    reads the text back as the same instant at the same offset. *)
Lemma parse_MarshalJSON tz t :
  encodable_time tz t ->
  exists s t',
    time.MarshalJSON tz t = (s, None) /\ same_time tz t t' /\
    (time.offset_of tz t = 0 -> time.ParseZ s = (t', None)) /\
    (time.offset_of tz t <> 0 ->
     snd (time.ParseZ s) <> None /\ time.ParseOffset tz s = (t', None)).
Proof.
  unfold encodable_time. intros (Hy & Hmod & Hoff).
  unfold time.MarshalJSON, time.FormatRFC3339Nano.
  destruct (time.Date tz t) as [[y m] d] eqn:Edate.
  unfold time.Date in Edate.
  destruct (civil_roundtrip _ _ _ _ Edate) as (Hm & Hd & Hdays).
  pose proof (daysIn_le m y) as Hd31.
  assert (time.wall tz t = time.seconds t + time.offset_of tz t) as Hwall by done.
  remember (time.offset_of tz t) as off eqn:Eoff.
  remember (time.wall tz t) as w eqn:Ew.
  pose proof (Z.mod_pos_bound w time.secondsPerDay ltac:(done)) as Hsod.
  pose proof (Z.div_mod w time.secondsPerDay ltac:(done)) as Hw.
  remember (w mod time.secondsPerDay) as sod eqn:Esod.
  unfold time.secondsPerDay in *.
  assert (0 <= sod / 3600 < 24) as Hhh by (Z.div_mod_to_equations; lia).
  assert (0 <= sod mod 3600 / 60 < 60) as Hmm by (Z.div_mod_to_equations; lia).
  assert (0 <= sod mod 60 < 60) as Hss by (Z.div_mod_to_equations; lia).
  pose proof (Z.mod_pos_bound (time.nanos t) time.Second ltac:(done)) as Hns.
  pose proof (Z.div_mod (time.nanos t) time.Second ltac:(done)) as Hn.
  fold (time.Nanos t) in Hns, Hn. fold (time.seconds t) in Hn.
  unfold time.Second in Hns.
  destruct (Z.ltb_spec y 0); [lia|]. destruct (Z.ltb_spec 9999 y); [lia|].
  cbn [orb].
  assert ((24 <=? Z.abs (Z.quot off 60) / 60) = false) as ->.
  { apply Z.leb_gt. apply Z.div_lt_upper_bound; [lia|].
    assert (off = (off / 60) * 60) as Hq.
    { pose proof (Z.div_mod off 60 ltac:(lia)). lia. }
    rewrite Hq, Z.quot_mul by lia. lia. }
  rewrite !appendInt_digits by (simpl; lia).
  assert (time.civil_nanos y m d (sod / 3600) (sod mod 3600 / 60) (sod mod 60)
            (time.Nanos t) = w * time.Second + time.Nanos t) as Hcivil.
  { unfold time.civil_nanos, time.secondsPerDay. rewrite Hdays.
    f_equal. f_equal. Z.div_mod_to_equations. lia. }
  eexists _.
  destruct (Z.eq_dec off 0) as [Hz|Hnz].
  - (* UTC: the first layout reads it *)
    exists (time.mkTime (time.nanos t) time.UTC).
    split; [reflexivity|]. split; [|split; [|done]].
    + split; [done|]. cbn. by rewrite <- Eoff, Hz.
    + intros _. unfold time.ParseZ.
      rewrite Hz. change (time.appendZone 0) with "Z".
      rewrite parse_datetime_fields by (done || lia).
      rewrite Hcivil. cbn. do 2 f_equal. unfold time.Second in *. lia.
  - destruct (appendZone_shape off Hnz Hmod Hoff)
      as (sg & hh & mm & Hshape & Hh & Hmi & Hsg).
    assert (zone_like (String sg (time.digits 2 hh ++ ":" ++ time.digits 2 mm)))
      as Hzl by (destruct Hsg as [[-> _]|[-> _]]; done).
    assert (zone_like (time.appendZone off)) as Hzl' by (by rewrite Hshape).
    set (t' := if tz (Int64.wrap (time.nanos t / time.Second)) =? off
               then time.mkTime (time.nanos t) time.Local
               else time.mkTime (time.nanos t) (time.FixedZone off)).
    exists t'. split; [reflexivity|]. split; [|split; [done|intros _; split]].
    + subst t'.
      destruct (Z.eqb_spec (tz (Int64.wrap (time.nanos t / time.Second))) off)
        as [E|E].
      * split; [done|]. rewrite <- Eoff. exact E.
      * split; [done|]. by rewrite <- Eoff.
    + unfold time.ParseZ.
      rewrite parse_datetime_fields by (done || lia). rewrite Hshape.
      destruct Hsg as [[-> _]|[-> _]]; done.
    + unfold time.ParseOffset.
      rewrite parse_datetime_fields by (done || lia). rewrite Hshape.
      rewrite parse_offset_shape by done. rewrite Hcivil.
      assert (w * time.Second + time.Nanos t - off * time.Second = time.nanos t)
        as Hback by (unfold time.Second in *; lia).
      subst t'.
      destruct Hsg as [[-> Ho]|[-> Ho]];
        cbn -[Z.mul Z.add Z.sub Z.opp Z.div Z.eqb Int64.wrap];
        rewrite <- Ho, Hback; by destruct (_ =? off).
Qed.

Lemma parseTime_MarshalJSON tz t :
  encodable_time tz t ->
  exists s t',
    time.MarshalJSON tz t = (s, None) /\
    parseTime tz s = (t', None) /\ same_time tz t t'.
Proof.
  intros H. destruct (parse_MarshalJSON tz t H) as (s & t' & Hm & Hsame & HZ & HO).
  exists s, t'. split; [done|]. split; [|done].
  rewrite parseTime_order.
  destruct (Z.eq_dec (time.offset_of tz t) 0) as [E|E].
  - by rewrite (HZ E).
  - destruct (HO E) as [Hfail ->]. by destruct (snd (time.ParseZ s)).
Qed.

(** ** Encoding an entry and decoding it again *)

Lemma decode_fields_app g l1 : forall l2 t st,
  decode_fields g (l1 ++ l2) t st
  = match decode_fields g l1 t st with
    | inr (t1, st1) => decode_fields g l2 t1 st1
    | inl msg => inl msg
    end.
Proof.
  induction l1 as [|[k v] l1 IH]; intros l2 t st; [done|].
  simpl. destruct (decode_key g k v t st) as [|[t1 st1]]; [done|apply IH].
Qed.

Lemma decode_elements_strings field l :
  decode_elements field (map json.Str l) = inr l.
Proof. induction l as [|s l IH]; [done|]. simpl. by rewrite IH. Qed.

Lemma omitted_int g k z t st (upd : tempTimeEntry) :
  (z = 0 -> upd = t) ->
  decode_key g k (json.Num (json.Int z)) t st = inr (upd, st) ->
  decode_fields g (omitempty k (z =? 0) (json.Num (json.Int z))) t st
  = inr (upd, st).
Proof.
  intros H0 Hk. unfold omitempty. destruct (Z.eqb_spec z 0) as [E|E].
  - by rewrite (H0 E).
  - simpl. by rewrite Hk.
Qed.

Lemma key_wid g z t st :
  in_int64 z = true ->
  decode_key g "wid" (json.Num (json.Int z)) t st
  = inr (set_embedded t (set_Wid (embeddedTimeEntry t) z), st).
Proof.
  intros H.
  change (decode_key g "wid" (json.Num (json.Int z)) t st)
    with (match decode_int "wid" (json.Num (json.Int z))
                  (Wid (embeddedTimeEntry t)) with
          | inr z0 => inr (set_embedded t (set_Wid (embeddedTimeEntry t) z0), st)
          | inl msg => inl msg
          end).
  simpl. by rewrite H.
Qed.

Lemma key_id g z t st :
  in_int64 z = true ->
  decode_key g "id" (json.Num (json.Int z)) t st
  = inr (set_embedded t (set_ID (embeddedTimeEntry t) z), st).
Proof.
  intros H.
  change (decode_key g "id" (json.Num (json.Int z)) t st)
    with (match decode_int "id" (json.Num (json.Int z))
                  (ID (embeddedTimeEntry t)) with
          | inr z0 => inr (set_embedded t (set_ID (embeddedTimeEntry t) z0), st)
          | inl msg => inl msg
          end).
  simpl. by rewrite H.
Qed.

Lemma key_pid g z t st :
  in_int64 z = true ->
  decode_key g "pid" (json.Num (json.Int z)) t st
  = inr (set_embedded t (set_Pid (embeddedTimeEntry t) z), st).
Proof.
  intros H.
  change (decode_key g "pid" (json.Num (json.Int z)) t st)
    with (match decode_int "pid" (json.Num (json.Int z))
                  (Pid (embeddedTimeEntry t)) with
          | inr z0 => inr (set_embedded t (set_Pid (embeddedTimeEntry t) z0), st)
          | inl msg => inl msg
          end).
  simpl. by rewrite H.
Qed.

Lemma key_tid g z t st :
  in_int64 z = true ->
  decode_key g "tid" (json.Num (json.Int z)) t st
  = inr (set_embedded t (set_Tid (embeddedTimeEntry t) z), st).
Proof.
  intros H.
  change (decode_key g "tid" (json.Num (json.Int z)) t st)
    with (match decode_int "tid" (json.Num (json.Int z))
                  (Tid (embeddedTimeEntry t)) with
          | inr z0 => inr (set_embedded t (set_Tid (embeddedTimeEntry t) z0), st)
          | inl msg => inl msg
          end).
  simpl. by rewrite H.
Qed.

Lemma key_duration g z t st :
  in_int64 z = true ->
  decode_key g "duration" (json.Num (json.Int z)) t st
  = inr (set_embedded t (set_Duration (embeddedTimeEntry t) z), st).
Proof.
  intros H.
  change (decode_key g "duration" (json.Num (json.Int z)) t st)
    with (match decode_int "duration" (json.Num (json.Int z))
                  (Duration (embeddedTimeEntry t)) with
          | inr z0 =>
              inr (set_embedded t (set_Duration (embeddedTimeEntry t) z0), st)
          | inl msg => inl msg
          end).
  simpl. by rewrite H.
Qed.

Lemma key_tags g v t st s st' :
  decode_strings g "tags" v st = inr (s, st') ->
  decode_key g "tags" v t st
  = inr (set_embedded t (set_Tags (embeddedTimeEntry t) s), st').
Proof.
  intros H.
  change (decode_key g "tags" v t st)
    with (match decode_strings g "tags" v st with
          | inr (s0, st0) =>
              inr (set_embedded t (set_Tags (embeddedTimeEntry t) s0), st0)
          | inl msg => inl msg
          end).
  by rewrite H.
Qed.

Lemma set_Wid_same e : set_Wid e (Wid e) = e.
Proof. by destruct e. Qed.
Lemma set_ID_same e : set_ID e (ID e) = e.
Proof. by destruct e. Qed.
Lemma set_Description_same e : set_Description e (Description e) = e.
Proof. by destruct e. Qed.
Lemma set_Duration_same e : set_Duration e (Duration e) = e.
Proof. by destruct e. Qed.
Lemma set_embedded_same t : set_embedded t (embeddedTimeEntry t) = t.
Proof. by destruct t. Qed.

Lemma omitted_description g s t st :
  (s = "" -> Description (embeddedTimeEntry t) = "") ->
  decode_fields g (omitempty "description" (String.eqb s "") (json.Str s)) t st
  = inr (set_embedded t (set_Description (embeddedTimeEntry t) s), st).
Proof.
  intros H. unfold omitempty. destruct (String.eqb_spec s "") as [E|E].
  - subst s. simpl. rewrite <- (H eq_refl).
    by rewrite set_Description_same, set_embedded_same.
  - reflexivity.
Qed.

Lemma decode_written g (e : TimeEntry) (stop start : option string)
    (tags : json.Value) (s : slice) st st' :
  in_int64 (Wid e) = true -> in_int64 (ID e) = true ->
  in_int64 (Pid e) = true -> in_int64 (Tid e) = true ->
  in_int64 (Duration e) = true ->
  decode_strings g "tags" tags st = inr (s, st') ->
  decode_fields g
    (omitempty "wid" (Wid e =? 0) (json.Num (json.Int (Wid e)))
     ++ omitempty "id" (ID e =? 0) (json.Num (json.Int (ID e)))
     ++ [("pid", json.Num (json.Int (Pid e)));
         ("tid", json.Num (json.Int (Tid e)))]
     ++ omitempty "description" (String.eqb (Description e) "")
          (json.Str (Description e))
     ++ time_piece "stop" stop ++ time_piece "start" start
     ++ [("tags", tags)]
     ++ omitempty "duration" (Duration e =? 0) (json.Num (json.Int (Duration e)))
     ++ [("duronly", json.Bool (DurOnly e));
         ("billable", json.Num (json.Float32 (Billable e)))])
    zeroTemp st
  = inr (mkTemp
           (mkTimeEntry (Wid e) (ID e) (Pid e) (Tid e) (Description e)
              None None s (Duration e) (DurOnly e) (Billable e))
           (default "" stop) (default "" start), st').
Proof.
  intros Hw Hi Hp Ht Hd Htags.
  rewrite decode_fields_app.
  erewrite omitted_int; [|intros E|by apply key_wid]; cycle 1.
  { rewrite E. reflexivity. }
  rewrite decode_fields_app.
  erewrite omitted_int; [|intros E|by apply key_id]; cycle 1.
  { rewrite E. reflexivity. }
  rewrite decode_fields_app.
  cbn [decode_fields]. rewrite key_pid, key_tid by done.
  rewrite decode_fields_app.
  rewrite omitted_description by done.
  rewrite decode_fields_app.
  assert (forall t0 st0,
            decode_fields g (time_piece "stop" stop) t0 st0
            = inr (mkTemp (embeddedTimeEntry t0)
                     (match stop with Some x => x | None => StopString t0 end)
                     (StartString t0), st0)) as ->.
  { intros t0 st0. destruct stop; [reflexivity|by destruct t0]. }
  rewrite decode_fields_app.
  assert (forall t0 st0,
            decode_fields g (time_piece "start" start) t0 st0
            = inr (mkTemp (embeddedTimeEntry t0) (StopString t0)
                     (match start with Some x => x | None => StartString t0 end),
                   st0)) as ->.
  { intros t0 st0. destruct start; [reflexivity|by destruct t0]. }
  rewrite decode_fields_app.
  cbn [decode_fields]. erewrite key_tags by exact Htags.
  rewrite decode_fields_app.
  erewrite omitted_int; [|intros E|by apply key_duration]; cycle 1.
  { cbn. rewrite E. reflexivity. }
  destruct stop, start; reflexivity.
Qed.

Lemma marshal_time_field_written tz st k p :
  (p = None \/ exists t, load p st = Some t /\ encodable_time tz t) ->
  exists o,
    marshal_time_field tz st k p = Done (inr (time_piece k o)) /\
    match p with
    | None => o = None
    | Some _ =>
        exists t s t',
          load p st = Some t /\ o = Some s /\
          parseTime tz s = (t', None) /\ same_time tz t t'
    end.
Proof.
  intros [->|(t & Hl & He)]; [by exists None|].
  destruct p as [a|]; [|discriminate].
  destruct (parseTime_MarshalJSON tz t He) as (s & t' & Hm & Hp & Hs).
  exists (Some s). split.
  - unfold marshal_time_field. simpl in Hl. by rewrite Hl, Hm.
  - by exists t, s, t'.
Qed.

Lemma decode_strings_written g st s l st0 :
  elems s st = Some l ->
  exists j s' st0',
    marshal_strings st s = Done (inr j) /\
    decode_strings g "tags" j st0 = inr (s', st0') /\
    (s_arr s' = None <-> s_arr s = None) /\
    elems s' st0' = Some l /\ times st0' = times st0.
Proof.
  intros Hl. unfold marshal_strings. destruct (s_arr s) as [a|] eqn:Ea.
  - rewrite Hl. eexists _, _, _. split; [reflexivity|].
    unfold decode_strings. rewrite decode_elements_strings.
    unfold new_array. split; [reflexivity|]. split; [done|]. split; [|done].
    unfold elems. cbn. rewrite lookup_app_r by lia. rewrite Nat.sub_diag. cbn.
    by rewrite take_app_length.
  - exists json.Null, nil_slice, st0. split; [done|]. split; [done|].
    split; [done|]. split; [|done].
    unfold elems in Hl. rewrite Ea in Hl. by injection Hl as <-.
Qed.

Lemma parses_not_empty tz s t : parseTime tz s = (t, None) -> String.eqb s "" = false.
Proof. intros H. destruct (String.eqb_spec s ""); [by subst s|done]. Qed.




(** * More properties of the code *)

(** ** Tags *)

Lemma indexOfTag_from_spec tag l : forall i,
  (indexOfTag_from i tag l = -1 /\ 0 <= i -> tag ∉ l) /\
  (tag ∉ l -> indexOfTag_from i tag l = -1) /\
  (0 <= i -> tag ∈ l ->
   exists k : nat,
     indexOfTag_from i tag l = i + Z.of_nat k /\
     l !! k = Some tag /\ tag ∉ take k l).
Proof.
  induction l as [|t l IH]; intros i; simpl.
  - split; [intros _; apply not_elem_of_nil|]. split; [done|].
    intros _ H. by apply elem_of_nil in H.
  - destruct (String.eqb_spec t tag) as [->|Hne].
    + split; [lia|]. split; [intros H; destruct H; left|].
      intros Hi _. exists 0%nat. split; [lia|]. split; [done|].
      simpl. apply not_elem_of_nil.
    + destruct (IH (i + 1)) as (H1 & H2 & H3).
      split; [|split].
      * intros [H Hi]. apply not_elem_of_cons. split; [done|]. apply H1. lia.
      * intros H. apply not_elem_of_cons in H as [_ H]. by apply H2.
      * intros Hi H. apply elem_of_cons in H as [->|H]; [done|].
        destruct (H3 ltac:(lia) H) as (k & Hk & Hl & Ht).
        exists (S k). split; [lia|]. split; [done|].
        simpl. apply not_elem_of_cons. by split.
Qed.

Lemma indexOfTag_absent tag l : indexOfTag tag l = -1 <-> tag ∉ l.
Proof.
  unfold indexOfTag. destruct (indexOfTag_from_spec tag l 0) as (H1 & H2 & _).
  split; [intros H; apply H1; lia|done].
Qed.

Lemma indexOfTag_present tag l :
  tag ∈ l ->
  exists k : nat,
    indexOfTag tag l = Z.of_nat k /\ l !! k = Some tag /\ tag ∉ take k l.
Proof.
  intros H. destruct (indexOfTag_from_spec tag l 0) as (_ & _ & H3).
  destruct (H3 ltac:(lia) H) as (k & Hk & Hl). exists k. by rewrite Z.add_0_l in Hk.
Qed.

(** X1: [indexOfTag] returns -1 exactly when the tag is not among the
    tags, and otherwise the position of its first occurrence: an index
    inside the list that holds the tag, with no earlier index holding
    it. *)
Theorem indexOfTag_first tag l :
  (indexOfTag tag l = -1 <-> tag ∉ l) /\
  (tag ∈ l <->
   exists k : nat,
     indexOfTag tag l = Z.of_nat k /\ (k < length l)%nat /\
     l !! k = Some tag /\ forall j, (j < k)%nat -> l !! j <> Some tag).
Proof.
  split; [apply indexOfTag_absent|]. split.
  - intros H. destruct (indexOfTag_present tag l H) as (k & Hk & Hl & Ht).
    exists k. split; [done|]. split; [by eapply lookup_lt_Some|]. split; [done|].
    intros j Hj Hlj. apply Ht. apply list_elem_of_lookup. exists j.
    by rewrite lookup_take_lt.
  - intros (k & _ & _ & Hl & _). by eapply list_elem_of_lookup_2.
Qed.

Lemma wf_elems st s :
  wf_slice st s -> exists l, elems s st = Some l /\ length l = s_len s.
Proof.
  unfold wf_slice, elems. destruct (s_arr s) as [a|].
  - intros (arr & -> & Hle & Hcap). eexists. split; [done|].
    rewrite length_take. lia.
  - intros [-> _]. by exists [].
Qed.

Lemma HasTag_elem e tag st l :
  elems (Tags e) st = Some l ->
  (tag ∈ l -> HasTag e tag st = Done true) /\
  (tag ∉ l -> HasTag e tag st = Done false).
Proof.
  intros Hl. unfold HasTag. rewrite Hl. split; intros H.
  - destruct (Z.eqb_spec (indexOfTag tag l) (-1)) as [E|E]; [|done].
    by apply indexOfTag_absent in E.
  - apply indexOfTag_absent in H. by rewrite H.
Qed.

Lemma AddTag_present g e tag st l :
  elems (Tags e) st = Some l -> tag ∈ l -> AddTag g e tag st = Done (e, st).
Proof.
  intros Hl H. unfold AddTag.
  by rewrite (proj1 (HasTag_elem e tag st l Hl) H).
Qed.

Lemma AddTag_absent g e tag st l :
  wf_slice st (Tags e) -> elems (Tags e) st = Some l -> tag ∉ l ->
  exists s' st',
    AddTag g e tag st = Done (set_Tags e s', st') /\
    elems s' st' = Some (l ++ [tag]) /\ wf_slice st' s' /\
    times st' = times st /\
    (wf_slice st' (Tags e) /\ elems (Tags e) st' = Some l) /\
    ((s_len (Tags e) < s_cap (Tags e))%nat ->
     s_arr s' = s_arr (Tags e) /\ length (arrays st') = length (arrays st)) /\
    (s_len (Tags e) = s_cap (Tags e) ->
     s_arr s' = Some (length (arrays st)) /\
     arrays st' = arrays st ++ [l ++ [tag] ++
        replicate (Nat.max (S (s_len (Tags e))) (g (S (s_len (Tags e))))
                   - S (s_len (Tags e))) ""]).
Proof.
  intros Hwf Hl H. unfold AddTag.
  rewrite (proj2 (HasTag_elem e tag st l Hl) H).
  unfold append1. rewrite Hl.
  destruct (wf_elems _ _ Hwf) as (l0 & Hl0 & Hlen).
  assert (l0 = l) as -> by congruence. clear Hl0.
  unfold wf_slice in Hwf. unfold elems in Hl.
  destruct (Nat.ltb_spec (s_len (Tags e)) (s_cap (Tags e))) as [Hlt|Hge].
  - destruct (s_arr (Tags e)) as [a|] eqn:Ea; [|lia].
    destruct Hwf as (arr & Harr & Hle & Hcap). rewrite Harr in Hl |- *.
    injection Hl as Hl.
    eexists _, _. split; [reflexivity|].
    assert (a < length (arrays st))%nat as Ha by (by eapply lookup_lt_Some).
    split; [|split; [|split; [done|split; [|split; [|lia]]]]].
    + unfold elems, set_array. cbn. rewrite list_lookup_insert_eq by done.
      f_equal. rewrite <- Hl.
      rewrite take_insert_lt by lia.
      rewrite (take_S_r arr (s_len (Tags e)) (default "" (arr !! s_len (Tags e)))).
      * rewrite insert_app_r_alt by (rewrite length_take; lia).
        rewrite length_take. replace (_ - _)%nat with 0%nat by lia. done.
      * destruct (lookup_lt_is_Some_2 arr (s_len (Tags e)) ltac:(lia)) as [x ->].
        done.
    + unfold wf_slice, set_array. cbn. rewrite list_lookup_insert_eq by done.
      eexists. split; [done|]. rewrite length_insert. lia.
    + unfold wf_slice, elems, set_array. rewrite Ea. cbn.
      rewrite list_lookup_insert_eq by done. split.
      * eexists. split; [done|]. rewrite length_insert. lia.
      * rewrite take_insert_ge by lia. by rewrite Hl.
    + intros _. split; [done|]. unfold set_array. cbn. by rewrite length_insert.
  - eexists _, _. split; [reflexivity|].
    split; [|split; [|split; [done|split; [|split; [lia|]]]]].
    + unfold elems, new_array. cbn. rewrite lookup_app_r by lia.
      rewrite Nat.sub_diag. cbn. f_equal.
      rewrite cons_middle, app_assoc.
      apply take_app_length'. rewrite length_app. simpl. lia.
    + unfold wf_slice, new_array. cbn. rewrite lookup_app_r by lia.
      rewrite Nat.sub_diag. cbn. eexists. split; [done|].
      rewrite length_app. cbn. rewrite length_replicate. lia.
    + unfold wf_slice, elems, new_array. cbn.
      destruct (s_arr (Tags e)) as [a|]; [|done].
      destruct Hwf as (arr & Harr & Hle & Hcap). rewrite Harr in Hl.
      rewrite (lookup_app_l_Some _ _ _ _ Harr). split; [by exists arr|done].
    + intros _. done.
Qed.

Lemma array_kept a (arr' : list string) st b arr :
  b <> a -> arrays st !! b = Some arr ->
  arrays (set_array a arr' st) !! b = Some arr.
Proof. intros Hne H. unfold set_array. cbn. by rewrite list_lookup_insert_ne. Qed.

(** Appending a tag changes at most the array of the entry's own slice. *)
Lemma AddTag_frame g e tag st e' st' b arr :
  AddTag g e tag st = Done (e', st') ->
  Some b <> s_arr (Tags e) -> arrays st !! b = Some arr ->
  arrays st' !! b = Some arr.
Proof.
  unfold AddTag, HasTag, append1.
  destruct (elems (Tags e) st) as [l|]; [|done].
  destruct (negb _); [by intros [= <- <-]|].
  destruct (s_len (Tags e) <? s_cap (Tags e))%nat.
  - destruct (s_arr (Tags e)) as [a|]; [|done].
    destruct (arrays st !! a) as [arr0|]; [|done].
    intros [= <- <-] Hne H. apply array_kept; congruence.
  - intros [= <- <-] _ H. cbn. by apply lookup_app_l_Some.
Qed.

Lemma RemoveTag_absent e tag st l :
  elems (Tags e) st = Some l -> tag ∉ l -> RemoveTag e tag st = Done (e, st).
Proof.
  intros Hl H. unfold RemoveTag. rewrite Hl.
  apply indexOfTag_absent in H. by rewrite H.
Qed.

Lemma RemoveTag_at e tag st l (k : nat) a :
  wf_slice st (Tags e) -> elems (Tags e) st = Some l ->
  s_arr (Tags e) = Some a ->
  indexOfTag tag l = Z.of_nat k -> (k < length l)%nat ->
  exists s' st',
    RemoveTag e tag st = Done (set_Tags e s', st') /\
    s' = mkSlice (Some a) (s_len (Tags e) - 1) (s_cap (Tags e)) /\
    elems s' st' = Some (take k l ++ drop (S k) l) /\
    elems (Tags e) st' = Some (take k l ++ drop (S k) l ++ drop (length l - 1) l) /\
    wf_slice st' s' /\ times st' = times st /\
    length (arrays st') = length (arrays st) /\
    (forall b arr, b <> a -> arrays st !! b = Some arr -> arrays st' !! b = Some arr).
Proof.
  intros Hwf Hl Ea Hk Hlt.
  destruct (wf_elems _ _ Hwf) as (l0 & Hl0 & Hlen).
  assert (l0 = l) as -> by congruence. clear Hl0.
  unfold RemoveTag. rewrite Hl, Hk, Ea.
  destruct (Z.eqb_spec (Z.of_nat k) (-1)); [lia|].
  unfold wf_slice in Hwf. unfold elems in Hl. rewrite Ea in Hwf, Hl.
  destruct Hwf as (arr & Harr & Hle & Hcap). rewrite Harr in Hl |- *.
  injection Hl as Hl. rewrite Nat2Z.id, Hl.
  assert (a < length (arrays st))%nat as Ha by (by eapply lookup_lt_Some).
  assert (length (take k arr ++ drop (S k) l) = (s_len (Tags e) - 1)%nat) as Hn.
  { rewrite length_app, length_take, length_drop. lia. }
  assert (take k arr = take k l) as Htk.
  { rewrite <- Hl, take_take. f_equal. lia. }
  assert (drop (s_len (Tags e) - 1) arr
          = drop (length l - 1) l ++ drop (s_len (Tags e)) arr) as Hlast.
  { rewrite <- (take_drop (s_len (Tags e)) arr) at 1. rewrite Hl.
    rewrite drop_app_le by lia. by rewrite Hlen. }
  eexists _, _. split; [reflexivity|]. split; [done|].
  split; [|split; [|split; [|split; [done|split]]]].
  - unfold elems, set_array. cbn. rewrite list_lookup_insert_eq by done.
    f_equal. rewrite app_assoc. rewrite take_app_length' by done. by rewrite Htk.
  - unfold elems, set_array. rewrite Ea. cbn.
    rewrite list_lookup_insert_eq by done. f_equal.
    rewrite Hlast, Htk, !app_assoc. apply take_app_length'.
    rewrite !length_app, length_take, !length_drop. lia.
  - unfold wf_slice, set_array. cbn. rewrite list_lookup_insert_eq by done.
    eexists. split; [done|]. split; [lia|].
    rewrite app_assoc, length_app, Hn, length_drop. lia.
  - unfold set_array. cbn. by rewrite length_insert.
  - intros b arr0 Hne H. by apply array_kept.
Qed.

Lemma ex_stopped_wf : wf_slice ex_store (Tags ex_stopped).
Proof. exists ["dev"; "go"; ""]. split; [done|]. simpl. lia. Qed.

Lemma elem_dec (tag : string) (l : list string) : tag ∈ l \/ tag ∉ l.
Proof.
  destruct (list_elem_of_dec (dec := String.string_dec) tag l); [by left|by right].
Qed.

(** X2: on an entry with a well-formed tag slice, [AddTag] returns,
    changes no field but [Tags] and no timestamp cell, and leaves an
    entry that has the tag.  When the entry had the tag already nothing
    changes at all; otherwise the tags are the old ones followed by the
    new one.  Adding the same tag again changes nothing. *)
Theorem AddTag_spec g e tag st l :
  wf_slice st (Tags e) -> elems (Tags e) st = Some l ->
  exists e' st',
    AddTag g e tag st = Done (e', st') /\
    e' = set_Tags e (Tags e') /\ times st' = times st /\
    wf_slice st' (Tags e') /\
    (tag ∈ l -> e' = e /\ st' = st) /\
    (tag ∉ l -> elems (Tags e') st' = Some (l ++ [tag])) /\
    HasTag e' tag st' = Done true /\
    AddTag g e' tag st' = Done (e', st').
Proof.
  intros Hwf Hl. destruct (elem_dec tag l) as [Hin|Hout].
  - exists e, st. rewrite (AddTag_present g e tag st l Hl Hin).
    split; [done|]. split; [by destruct e|]. split; [done|]. split; [done|].
    split; [done|]. split; [done|].
    split; [by apply (HasTag_elem e tag st l Hl)|done].
  - destruct (AddTag_absent g e tag st l Hwf Hl Hout)
      as (s' & st' & H & Hl' & Hwf' & Ht & _).
    exists (set_Tags e s'), st'. split; [done|]. split; [done|].
    split; [done|]. split; [done|]. split; [done|]. split; [done|].
    assert (tag ∈ l ++ [tag]) as Hin by (apply elem_of_app; right; by left).
    split.
    + by apply (HasTag_elem (set_Tags e s') tag st' (l ++ [tag])).
    + by apply (AddTag_present g (set_Tags e s') tag st' (l ++ [tag])).
Qed.

Lemma AddTag_spec_witness :
  exists e' st',
    AddTag (fun n => (2 * n)%nat) ex_stopped "urgent" ex_store = Done (e', st') /\
    elems (Tags e') st' = Some ["dev"; "go"; "urgent"] /\
    HasTag e' "urgent" st' = Done true.
Proof.
  destruct (AddTag_spec (fun n => (2 * n)%nat) ex_stopped "urgent" ex_store
              ["dev"; "go"] ex_stopped_wf eq_refl)
    as (e' & st' & H & _ & _ & _ & _ & Hout & Hhas & _).
  exists e', st'. split; [exact H|]. split; [|exact Hhas].
  apply Hout. intros Hin. repeat (apply elem_of_cons in Hin as [Hin|Hin]; [discriminate|]).
  by apply elem_of_nil in Hin.
Defined.

Lemma wf_Some_of_elem st s l (tag : string) :
  wf_slice st s -> elems s st = Some l -> tag ∈ l -> exists a, s_arr s = Some a.
Proof.
  unfold elems. destruct (s_arr s) as [a|]; [by eexists|].
  intros _ [= <-] H. by apply elem_of_nil in H.
Qed.

(** What [RemoveTag] does to an entry that has the tag. *)
Lemma RemoveTag_present e tag st l :
  wf_slice st (Tags e) -> elems (Tags e) st = Some l -> tag ∈ l ->
  exists (k : nat) a s' st',
    l !! k = Some tag /\ (tag ∉ take k l) /\ s_arr (Tags e) = Some a /\
    RemoveTag e tag st = Done (set_Tags e s', st') /\
    s' = mkSlice (Some a) (s_len (Tags e) - 1) (s_cap (Tags e)) /\
    elems s' st' = Some (take k l ++ drop (S k) l) /\
    elems (Tags e) st' = Some (take k l ++ drop (S k) l ++ drop (length l - 1) l) /\
    wf_slice st' s' /\ times st' = times st /\
    length (arrays st') = length (arrays st) /\
    (forall b arr, b <> a -> arrays st !! b = Some arr -> arrays st' !! b = Some arr).
Proof.
  intros Hwf Hl Hin.
  destruct (indexOfTag_present tag l Hin) as (k & Hk & Hlk & Hnot).
  destruct (wf_Some_of_elem _ _ _ _ Hwf Hl Hin) as [a Ea].
  destruct (RemoveTag_at e tag st l k a Hwf Hl Ea Hk) as (s' & st' & H);
    [by eapply lookup_lt_Some|].
  exists k, a, s', st'. by repeat (split; [done|]).
Qed.

Lemma NoDup_remove_at (l : list string) k tag :
  NoDup l -> l !! k = Some tag ->
  NoDup (take k l ++ drop (S k) l) /\ tag ∉ (take k l ++ drop (S k) l).
Proof.
  intros Hnd Hk.
  rewrite <- (take_drop_middle l k tag Hk) in Hnd.
  apply NoDup_app in Hnd as (H1 & H2 & H3).
  apply NoDup_cons in H3 as [H3 H4]. split.
  - apply NoDup_app. split; [done|]. split; [|done].
    intros x Hx Hx'. apply (H2 x Hx). by right.
  - intros H. apply elem_of_app in H as [H|H]; [|done].
    apply (H2 tag H). by left.
Qed.

(** X3: on an entry with a well-formed tag slice, [RemoveTag] returns,
    changes no field but [Tags], no timestamp cell and not the capacity
    of the slice.  Without the tag nothing changes at all; with it, the
    first occurrence (and only that one) is taken out, the order of the
    other tags kept.  If no tag occurred twice the entry no longer has
    the tag. *)
Theorem RemoveTag_spec e tag st l :
  wf_slice st (Tags e) -> elems (Tags e) st = Some l ->
  exists e' st',
    RemoveTag e tag st = Done (e', st') /\
    e' = set_Tags e (Tags e') /\ times st' = times st /\
    wf_slice st' (Tags e') /\ s_cap (Tags e') = s_cap (Tags e) /\
    (tag ∉ l -> e' = e /\ st' = st) /\
    (forall k : nat, l !! k = Some tag -> tag ∉ take k l ->
       elems (Tags e') st' = Some (take k l ++ drop (S k) l)) /\
    (NoDup l -> HasTag e' tag st' = Done false).
Proof.
  intros Hwf Hl. destruct (elem_dec tag l) as [Hin|Hout].
  - destruct (RemoveTag_present e tag st l Hwf Hl Hin)
      as (k & a & s' & st' & Hk & Hnot & Ea & H & Hs & Hl' & _ & Hwf' & Ht & _).
    exists (set_Tags e s'), st'. split; [done|]. split; [done|]. split; [done|].
    split; [done|]. split; [by subst s'|]. split; [done|]. split.
    + intros k' Hk' Hnot'. cbn [Tags set_Tags]. rewrite Hl'.
      assert (k' = k) as ->; [|done].
      destruct (Nat.lt_trichotomy k' k) as [Hlt|[->|Hgt]]; [|done|].
      * destruct Hnot. apply list_elem_of_lookup. exists k'.
        by rewrite lookup_take_lt.
      * destruct Hnot'. apply list_elem_of_lookup. exists k.
        by rewrite lookup_take_lt.
    + intros Hnd. apply (HasTag_elem (set_Tags e s') tag st' _ Hl').
      by apply NoDup_remove_at.
  - exists e, st. rewrite (RemoveTag_absent e tag st l Hl Hout).
    split; [done|]. split; [by destruct e|]. split; [done|]. split; [done|].
    split; [done|]. split; [done|]. split.
    + intros k Hk. destruct Hout. by eapply list_elem_of_lookup_2.
    + intros _. by apply (HasTag_elem e tag st l Hl).
Qed.

Lemma RemoveTag_spec_witness :
  exists e' st',
    RemoveTag ex_stopped "dev" ex_store = Done (e', st') /\
    elems (Tags e') st' = Some ["go"] /\
    HasTag e' "dev" st' = Done false.
Proof.
  destruct (RemoveTag_spec ex_stopped "dev" ex_store ["dev"; "go"]
              ex_stopped_wf eq_refl)
    as (e' & st' & H & _ & _ & _ & _ & _ & Hat & Hnd).
  exists e', st'. split; [exact H|]. split.
  - apply (Hat 0%nat); [reflexivity|apply not_elem_of_nil].
  - apply Hnd. repeat constructor; [|apply not_elem_of_nil].
    intros Hin. apply elem_of_cons in Hin as [Hin|Hin]; [discriminate|].
    by apply elem_of_nil in Hin.
Defined.

(** X4: tags without repetition stay without repetition under [AddTag]
    and [RemoveTag], and after [RemoveTag] the tag is gone. *)
Theorem tags_stay_distinct g e tag st l :
  wf_slice st (Tags e) -> elems (Tags e) st = Some l -> NoDup l ->
  (exists e' st' l',
     AddTag g e tag st = Done (e', st') /\
     elems (Tags e') st' = Some l' /\ NoDup l') /\
  (exists e' st' l',
     RemoveTag e tag st = Done (e', st') /\
     elems (Tags e') st' = Some l' /\ NoDup l' /\ tag ∉ l').
Proof.
  intros Hwf Hl Hnd. split.
  - destruct (elem_dec tag l) as [Hin|Hout].
    + exists e, st, l. by rewrite (AddTag_present g e tag st l Hl Hin).
    + destruct (AddTag_absent g e tag st l Hwf Hl Hout)
        as (s' & st' & H & Hl' & _).
      exists (set_Tags e s'), st', (l ++ [tag]). split; [done|]. split; [done|].
      apply NoDup_app. split; [done|]. split; [|apply NoDup_singleton].
      intros x Hx Hx'. apply list_elem_of_singleton in Hx'. by subst x.
  - destruct (elem_dec tag l) as [Hin|Hout].
    + destruct (RemoveTag_present e tag st l Hwf Hl Hin)
        as (k & a & s' & st' & Hk & _ & _ & H & _ & Hl' & _).
      exists (set_Tags e s'), st', (take k l ++ drop (S k) l).
      split; [done|]. split; [done|]. by apply NoDup_remove_at.
    + exists e, st, l. by rewrite (RemoveTag_absent e tag st l Hl Hout).
Qed.

Lemma ex_tags_distinct : NoDup ["dev"; "go"].
Proof.
  repeat constructor; [|apply not_elem_of_nil].
  intros Hin. apply elem_of_cons in Hin as [Hin|Hin]; [discriminate|].
  by apply elem_of_nil in Hin.
Qed.

Lemma tags_stay_distinct_witness :
  exists e' st' l',
    RemoveTag ex_stopped "go" ex_store = Done (e', st') /\
    elems (Tags e') st' = Some l' /\ NoDup l' /\ "go" ∉ l'.
Proof.
  apply (tags_stay_distinct (fun n => n) ex_stopped "go" ex_store ["dev"; "go"]
           ex_stopped_wf eq_refl ex_tags_distinct).
Defined.

(** X5: adding a tag the entry does not have and removing it again gives
    back the tags there were.  The slice then has spare capacity, so
    that adding the tag once more writes into the same backing array and
    allocates none. *)
Theorem AddTag_then_RemoveTag g e tag st l :
  wf_slice st (Tags e) -> elems (Tags e) st = Some l -> tag ∉ l ->
  exists e1 st1 e2 st2,
    AddTag g e tag st = Done (e1, st1) /\
    RemoveTag e1 tag st1 = Done (e2, st2) /\
    elems (Tags e2) st2 = Some l /\
    (s_len (Tags e2) < s_cap (Tags e2))%nat /\
    exists e3 st3,
      AddTag g e2 tag st2 = Done (e3, st3) /\
      s_arr (Tags e3) = s_arr (Tags e2) /\
      length (arrays st3) = length (arrays st2).
Proof.
  intros Hwf Hl Hout.
  destruct (AddTag_absent g e tag st l Hwf Hl Hout)
    as (s1 & st1 & H1 & Hl1 & Hwf1 & _).
  assert (tag ∈ l ++ [tag]) as Hin by (apply elem_of_app; right; by left).
  destruct (RemoveTag_present (set_Tags e s1) tag st1 (l ++ [tag]) Hwf1 Hl1 Hin)
    as (k & a & s2 & st2 & Hk & Hnot & Ea & H2 & Hs2 & Hl2 & _ & Hwf2 & _).
  assert (k = length l) as ->.
  { destruct (Nat.lt_trichotomy k (length l)) as [Hlt|[->|Hgt]]; [|done|].
    - destruct Hout. rewrite lookup_app_l in Hk by done.
      by eapply list_elem_of_lookup_2.
    - apply lookup_lt_Some in Hk. rewrite length_app in Hk. simpl in Hk. lia. }
  assert (elems s2 st2 = Some l) as Hl2'.
  { rewrite Hl2. f_equal. rewrite take_app_length.
    rewrite drop_ge by (rewrite length_app; simpl; lia). apply app_nil_r. }
  destruct (wf_elems _ _ Hwf1) as (l1 & Hl1' & Hlen1).
  assert (l1 = l ++ [tag]) as -> by congruence.
  rewrite length_app in Hlen1. cbn [Tags set_Tags length] in Hlen1.
  assert (s_len s2 < s_cap s2)%nat as Hspare.
  { subst s2. cbn [Tags set_Tags s_len s_cap].
    unfold wf_slice in Hwf1. cbn [Tags set_Tags] in Ea. rewrite Ea in Hwf1.
    destruct Hwf1 as (arr & _ & Hle & _). lia. }
  exists (set_Tags e s1), st1, (set_Tags (set_Tags e s1) s2), st2.
  split; [done|]. split; [done|]. split; [done|]. split; [done|].
  destruct (AddTag_absent g (set_Tags (set_Tags e s1) s2) tag st2 l Hwf2 Hl2' Hout)
    as (s3 & st3 & H3 & _ & _ & _ & _ & Hplace & _).
  exists (set_Tags (set_Tags (set_Tags e s1) s2) s3), st3.
  split; [done|]. by apply Hplace.
Qed.

Lemma AddTag_then_RemoveTag_witness :
  exists e1 st1 e2 st2,
    AddTag (fun n => n) ex_stopped "urgent" ex_store = Done (e1, st1) /\
    RemoveTag e1 "urgent" st1 = Done (e2, st2) /\
    elems (Tags e2) st2 = Some ["dev"; "go"].
Proof.
  destruct (AddTag_then_RemoveTag (fun n => n) ex_stopped "urgent" ex_store
              ["dev"; "go"] ex_stopped_wf eq_refl)
    as (e1 & st1 & e2 & st2 & H1 & H2 & H3 & _).
  - intros Hin.
    repeat (apply elem_of_cons in Hin as [Hin|Hin]; [discriminate|]).
    by apply elem_of_nil in Hin.
  - by exists e1, st1, e2, st2.
Defined.

(** X6: [RemoveTag] moves the later tags down inside the backing array.
    Another entry holding the same slice (a plain struct copy) keeps its
    length and sees the tag list with the removed tag gone and the last
    tag twice. *)
Theorem RemoveTag_shared_array e tag st l (k : nat) :
  wf_slice st (Tags e) -> elems (Tags e) st = Some l ->
  l !! k = Some tag -> tag ∉ take k l ->
  exists e' st',
    RemoveTag e tag st = Done (e', st') /\
    elems (Tags e') st' = Some (take k l ++ drop (S k) l) /\
    s_arr (Tags e') = s_arr (Tags e) /\
    forall other,
      Tags other = Tags e ->
      elems (Tags other) st'
      = Some (take k l ++ drop (S k) l ++ drop (length l - 1) l).
Proof.
  intros Hwf Hl Hk Hnot.
  assert (tag ∈ l) as Hin by (by eapply list_elem_of_lookup_2).
  destruct (RemoveTag_present e tag st l Hwf Hl Hin)
    as (k' & a & s' & st' & Hk' & Hnot' & Ea & H & Hs & Hl' & Hold & _).
  assert (k' = k) as ->.
  { destruct (Nat.lt_trichotomy k' k) as [Hlt|[->|Hgt]]; [|done|].
    - destruct Hnot. apply list_elem_of_lookup. exists k'.
      by rewrite lookup_take_lt.
    - destruct Hnot'. apply list_elem_of_lookup. exists k.
      by rewrite lookup_take_lt. }
  exists (set_Tags e s'), st'. split; [done|]. split; [done|].
  split; [by subst s'|]. by intros other ->.
Qed.

Lemma RemoveTag_shared_array_witness :
  exists e' st',
    RemoveTag ex_stopped "dev" ex_store = Done (e', st') /\
    elems (Tags e') st' = Some ["go"] /\
    elems (Tags ex_running) st' = Some ["go"; "go"].
Proof.
  destruct (RemoveTag_shared_array ex_stopped "dev" ex_store ["dev"; "go"] 0
              ex_stopped_wf eq_refl eq_refl)
    as (e' & st' & H & Hl & _ & Hother); [apply not_elem_of_nil|].
  exists e', st'. split; [exact H|]. split; [exact Hl|].
  apply (Hother ex_running). reflexivity.
Defined.

(** X7: two entries holding the same slice (a plain struct copy), each
    given a tag of its own.  With spare capacity both calls write the
    same array element, so the first entry ends up with the second
    entry's tag in place of its own; with a full slice each call gets a
    new array and the first entry keeps its tag. *)
Theorem AddTag_shared_array g e other t1 t2 st l :
  wf_slice st (Tags e) -> elems (Tags e) st = Some l ->
  Tags other = Tags e -> t1 ∉ l -> t2 ∉ l ->
  exists e1 st1 other2 st2,
    AddTag g e t1 st = Done (e1, st1) /\
    elems (Tags e1) st1 = Some (l ++ [t1]) /\
    AddTag g other t2 st1 = Done (other2, st2) /\
    elems (Tags other2) st2 = Some (l ++ [t2]) /\
    ((s_len (Tags e) < s_cap (Tags e))%nat ->
     elems (Tags e1) st2 = Some (l ++ [t2])) /\
    (s_len (Tags e) = s_cap (Tags e) ->
     elems (Tags e1) st2 = Some (l ++ [t1])).
Proof.
  intros Hwf Hl Hother Ht1 Ht2.
  destruct (wf_elems _ _ Hwf) as (l0 & Hl0 & Hlen).
  assert (l0 = l) as -> by congruence. clear Hl0.
  destruct (AddTag_absent g e t1 st l Hwf Hl Ht1)
    as (s1 & st1 & H1 & Hl1 & Hwf1 & _ & [Hwfo Hlo] & Hplace & Hnew).
  rewrite <- Hother in Hwfo, Hlo.
  destruct (AddTag_absent g other t2 st1 l Hwfo Hlo Ht2)
    as (s2 & st2 & H2 & Hl2 & Hwf2 & _ & _ & Hplace2 & Hnew2).
  exists (set_Tags e s1), st1, (set_Tags other s2), st2.
  split; [done|]. split; [done|]. split; [done|]. split; [done|].
  cbn [Tags set_Tags]. rewrite Hother in Hplace2, Hnew2. split.
  - intros Hlt. destruct (Hplace Hlt) as [Es1 _].
    destruct (Hplace2 Hlt) as [Es2 _].
    destruct (wf_elems _ _ Hwf1) as (l1 & Hl1' & Hlen1).
    destruct (wf_elems _ _ Hwf2) as (l2 & Hl2' & Hlen2).
    assert (l1 = l ++ [t1]) as -> by congruence.
    assert (l2 = l ++ [t2]) as -> by congruence.
    rewrite <- Hl2. unfold elems. rewrite Es1, Es2.
    replace (s_len s1) with (s_len s2); [done|].
    rewrite <- Hlen1, <- Hlen2, !length_app. done.
  - intros Heq. destruct (Hnew Heq) as [Es1 _].
    destruct (Hnew2 Heq) as [_ Harrs].
    rewrite <- Hl1. unfold elems. rewrite Es1, Harrs.
    unfold elems in Hl1. rewrite Es1 in Hl1.
    destruct (arrays st1 !! length (arrays st)) as [arr1|] eqn:E1; [|done].
    by rewrite (lookup_app_l_Some _ _ _ _ E1).
Qed.

Lemma AddTag_shared_array_witness :
  exists e1 st1 other2 st2,
    AddTag (fun n => n) ex_stopped "a" ex_store = Done (e1, st1) /\
    elems (Tags e1) st1 = Some ["dev"; "go"; "a"] /\
    AddTag (fun n => n) ex_running "b" st1 = Done (other2, st2) /\
    elems (Tags e1) st2 = Some ["dev"; "go"; "b"].
Proof.
  assert (forall t : string, t <> "dev" -> t <> "go" -> t ∉ ["dev"; "go"]) as Hout.
  { intros t H1 H2 Hin.
    repeat (apply elem_of_cons in Hin as [Hin|Hin]; [done|]).
    by apply elem_of_nil in Hin. }
  destruct (AddTag_shared_array (fun n => n) ex_stopped ex_running "a" "b"
              ex_store ["dev"; "go"] ex_stopped_wf eq_refl eq_refl)
    as (e1 & st1 & o2 & st2 & H1 & Hl1 & H2 & _ & Hshared & _);
    [by apply Hout..|].
  exists e1, st1, o2, st2. split; [exact H1|]. split; [exact Hl1|].
  split; [exact H2|]. apply Hshared. simpl. lia.
Defined.

Lemma elems_kept s st st' l :
  elems s st = Some l ->
  (forall b arr, s_arr s = Some b -> arrays st !! b = Some arr ->
                 arrays st' !! b = Some arr) ->
  elems s st' = Some l.
Proof.
  unfold elems. destruct (s_arr s) as [b|]; [|done].
  destruct (arrays st !! b) as [arr|] eqn:E; [|done].
  intros Hl H. by rewrite (H b arr eq_refl E).
Qed.

Lemma AddTag_returns g e tag st l :
  wf_slice st (Tags e) -> elems (Tags e) st = Some l ->
  exists e' st',
    AddTag g e tag st = Done (e', st') /\
    forall b arr, Some b <> s_arr (Tags e) -> arrays st !! b = Some arr ->
                  arrays st' !! b = Some arr.
Proof.
  intros Hwf Hl.
  assert (exists e' st', AddTag g e tag st = Done (e', st')) as (e' & st' & H).
  { destruct (elem_dec tag l) as [Hin|Hout].
    - eexists _, _. by eapply AddTag_present.
    - destruct (AddTag_absent g e tag st l Hwf Hl Hout) as (s' & st' & H & _).
      by eexists _, _. }
  exists e', st'. split; [done|]. intros b arr. by eapply AddTag_frame.
Qed.

Lemma RemoveTag_returns e tag st l :
  wf_slice st (Tags e) -> elems (Tags e) st = Some l ->
  exists e' st',
    RemoveTag e tag st = Done (e', st') /\
    forall b arr, Some b <> s_arr (Tags e) -> arrays st !! b = Some arr ->
                  arrays st' !! b = Some arr.
Proof.
  intros Hwf Hl. destruct (elem_dec tag l) as [Hin|Hout].
  - destruct (RemoveTag_present e tag st l Hwf Hl Hin)
      as (k & a & s' & st' & _ & _ & Ea & H & _ & _ & _ & _ & _ & _ & Hframe).
    eexists _, _. split; [exact H|]. intros b arr Hne. apply Hframe. congruence.
  - exists e, st. split; [by eapply RemoveTag_absent|done].
Qed.

(** X8: [Copy] gives the copy a backing array of its own holding the same
    tags: adding or removing a tag on the copy leaves the tags of the
    original as they were, and the other way round. *)
Theorem Copy_tags_independent g e st l :
  wf_slice st (Tags e) -> elems (Tags e) st = Some l ->
  exists c st1,
    Copy e st = Done (c, st1) /\
    elems (Tags c) st1 = Some l /\ elems (Tags e) st1 = Some l /\
    s_arr (Tags c) <> s_arr (Tags e) /\
    (forall tag, exists c' st2,
        AddTag g c tag st1 = Done (c', st2) /\ elems (Tags e) st2 = Some l) /\
    (forall tag, exists c' st2,
        RemoveTag c tag st1 = Done (c', st2) /\ elems (Tags e) st2 = Some l) /\
    (forall tag, exists e' st2,
        AddTag g e tag st1 = Done (e', st2) /\ elems (Tags c) st2 = Some l) /\
    (forall tag, exists e' st2,
        RemoveTag e tag st1 = Done (e', st2) /\ elems (Tags c) st2 = Some l).
Proof.
  intros Hwf Hl.
  destruct (wf_elems _ _ Hwf) as (l0 & Hl0 & Hlen).
  assert (l0 = l) as -> by congruence. clear Hl0.
  set (c := set_Tags e (mkSlice (Some (length (arrays st)))
                          (s_len (Tags e)) (s_len (Tags e)))).
  set (st1 := mkStore (times st) (arrays st ++ [l])).
  assert (arrays st1 !! length (arrays st) = Some l) as Hnew.
  { unfold st1. cbn. rewrite lookup_app_r by lia. by rewrite Nat.sub_diag. }
  assert (elems (Tags c) st1 = Some l) as Hlc.
  { unfold elems. cbn [c Tags set_Tags s_arr s_len]. rewrite Hnew.
    rewrite <- Hlen. by rewrite firstn_all. }
  assert (wf_slice st1 (Tags c)) as Hwfc.
  { exists l. split; [done|]. cbn. lia. }
  assert (elems (Tags e) st1 = Some l) as Hle.
  { apply (elems_kept _ st); [done|]. intros b arr _ H.
    by apply lookup_app_l_Some. }
  assert (wf_slice st1 (Tags e)) as Hwfe.
  { unfold wf_slice in *. destruct (s_arr (Tags e)) as [a|]; [|done].
    destruct Hwf as (arr & Harr & H). exists arr. split; [|done].
    by apply lookup_app_l_Some. }
  assert (s_arr (Tags c) <> s_arr (Tags e)) as Hne.
  { cbn. unfold wf_slice in Hwf. destruct (s_arr (Tags e)) as [a|]; [|done].
    destruct Hwf as (arr & Harr & _). apply lookup_lt_Some in Harr.
    intros [= E]. lia. }
  exists c, st1. split; [by apply Copy_result|]. split; [done|]. split; [done|].
  split; [done|]. split; [|split; [|split]]; intros tag.
  - destruct (AddTag_returns g c tag st1 l Hwfc Hlc) as (c' & st2 & H & Hf).
    exists c', st2. split; [done|]. apply (elems_kept _ st1); [done|].
    intros b arr Eb. apply Hf. congruence.
  - destruct (RemoveTag_returns c tag st1 l Hwfc Hlc) as (c' & st2 & H & Hf).
    exists c', st2. split; [done|]. apply (elems_kept _ st1); [done|].
    intros b arr Eb. apply Hf. congruence.
  - destruct (AddTag_returns g e tag st1 l Hwfe Hle) as (e' & st2 & H & Hf).
    exists e', st2. split; [done|]. apply (elems_kept _ st1); [done|].
    intros b arr Eb. apply Hf. congruence.
  - destruct (RemoveTag_returns e tag st1 l Hwfe Hle) as (e' & st2 & H & Hf).
    exists e', st2. split; [done|]. apply (elems_kept _ st1); [done|].
    intros b arr Eb. apply Hf. congruence.
Qed.

Lemma Copy_tags_independent_witness :
  exists c st1 c' st2,
    Copy ex_stopped ex_store = Done (c, st1) /\
    RemoveTag c "dev" st1 = Done (c', st2) /\
    elems (Tags ex_stopped) st2 = Some ["dev"; "go"].
Proof.
  destruct (Copy_tags_independent (fun n => n) ex_stopped ex_store ["dev"; "go"]
              ex_stopped_wf eq_refl)
    as (c & st1 & H & _ & _ & _ & _ & Hrem & _).
  destruct (Hrem "dev") as (c' & st2 & H2 & Hl).
  by exists c, st1, c', st2.
Defined.

(** X9: [Copy] does not keep a nil tag slice nil: the copy of an entry
    without tags has an empty slice that is not nil, so that where the
    original is encoded with [null] for its tags the copy is encoded
    with an empty array. *)
Theorem Copy_of_nil_tags e st :
  let e0 := set_Tags e nil_slice in
  exists c st1,
    Copy e0 st = Done (c, st1) /\
    elems (Tags c) st1 = Some [] /\
    marshal_strings st (Tags e0) = Done (inr json.Null) /\
    marshal_strings st1 (Tags c) = Done (inr (json.Arr [])).
Proof.
  intros e0. eexists _, _. split; [by apply (Copy_result e0 st [])|].
  unfold elems, marshal_strings. cbn.
  rewrite lookup_app_r by lia. rewrite Nat.sub_diag. done.
Qed.

(** ** How the mutators compose *)

Lemma new_time_push t st : new_time t st = (length (times st), push_time t st).
Proof. reflexivity. Qed.

Lemma load_push t st : load (Some (length (times st))) (push_time t st) = Some t.
Proof. apply (load_new_time t st). Qed.

Lemma load_push_old p t u st : load p st = Some u -> load p (push_time t st) = Some u.
Proof. apply (load_after_new_time p t u st). Qed.

Lemma SetDuration_done e d st start :
  IsRunning e = false -> load (Start e) st = Some start ->
  SetDuration e d st
  = Done (set_Stop (set_Duration e d) (Some (length (times st))), None,
          push_time (time.Add start (Int64.mul d time.Second)) st).
Proof.
  intros Hrun Hs. unfold SetDuration. rewrite Hrun.
  change (Start (set_Duration e d)) with (Start e). by rewrite Hs, new_time_push.
Qed.

Lemma SetStopTime_done e stop st start :
  IsRunning e = false -> load (Start e) st = Some start ->
  SetStopTime e stop st
  = Done (set_Duration (set_Stop e (Some (length (times st))))
            (Int64.quot (time.Sub stop start) time.Second), None,
          push_time stop st).
Proof.
  intros Hrun Hs. unfold SetStopTime. rewrite Hrun, new_time_push.
  change (Start (set_Stop e _)) with (Start e).
  by rewrite (load_push_old _ stop _ _ Hs).
Qed.

Lemma SetStartTime_done_false e t st stop :
  IsRunning e = false -> load (Stop e) st = Some stop ->
  SetStartTime e t false st
  = Done (set_Duration (set_Start e (Some (length (times st))))
            (Int64.sub (time.Unix stop) (time.Unix t)),
          push_time t st).
Proof.
  intros Hrun Hs. unfold SetStartTime. rewrite new_time_push.
  change (IsRunning (set_Start e _)) with (IsRunning e). rewrite Hrun. cbn [negb].
  change (Stop (set_Start e _)) with (Stop e).
  change (Start (set_Start e ?p)) with p.
  by rewrite (load_push_old _ t _ _ Hs), load_push.
Qed.

Lemma SetStartTime_done_true e t st :
  IsRunning e = false ->
  SetStartTime e t true st
  = Done (set_Stop (set_Start e (Some (length (times st))))
            (Some (S (length (times st)))),
          push_time (time.Add t (Int64.mul (Duration e) time.Second))
            (push_time t st)).
Proof.
  intros Hrun. unfold SetStartTime. rewrite new_time_push.
  change (IsRunning (set_Start e _)) with (IsRunning e). rewrite Hrun. cbn [negb].
  rewrite new_time_push. cbn. rewrite length_app. cbn. by rewrite Nat.add_1_r.
Qed.

Lemma wrap_wrap_sub a b : Int64.wrap (Int64.wrap a - Int64.wrap b) = Int64.wrap (a - b).
Proof.
  unfold Int64.wrap. f_equal.
  replace ((a + 2 ^ 63) mod 2 ^ 64 - 2 ^ 63 - ((b + 2 ^ 63) mod 2 ^ 64 - 2 ^ 63) + 2 ^ 63)
    with ((a + 2 ^ 63) mod 2 ^ 64 - (b + 2 ^ 63) mod 2 ^ 64 + 2 ^ 63) by ring.
  rewrite <- Zplus_mod_idemp_l, <- Zminus_mod, Zplus_mod_idemp_l.
  f_equal. ring.
Qed.

Lemma Unix_sub t u : Int64.sub (time.Unix t) (time.Unix u)
                     = Int64.wrap (time.seconds t - time.seconds u).
Proof. apply wrap_wrap_sub. Qed.

Lemma seconds_Add t d : time.seconds (time.Add t (d * time.Second)) = time.seconds t + d.
Proof. unfold time.seconds, time.Add. cbn. by rewrite Z_div_plus_full. Qed.

Lemma mul_Second_exact d :
  -9223372036 <= d <= 9223372036 -> Int64.mul d time.Second = d * time.Second.
Proof.
  intros H. unfold Int64.mul. apply wrap_in_range.
  unfold Int64.in_range, Int64.min_int, Int64.max_int, time.Second. lia.
Qed.

Lemma small_in_range d : -9223372036 <= d <= 9223372036 -> Int64.in_range d.
Proof. unfold Int64.in_range, Int64.min_int, Int64.max_int. lia. Qed.

(** X10: after [SetDuration] with a duration between 0 and 9223372036
    seconds, [StopTime] is [StartTime] plus exactly that many seconds,
    and the other setters agree with it: [SetStopTime] with the stop
    time just set, [SetStartTime] with the present start time (with or
    without [updateEnd]) all leave the duration, the start and the stop
    as they are. *)
Theorem setters_agree_after_SetDuration e d st start :
  IsRunning e = false -> load (Start e) st = Some start ->
  0 <= d <= 9223372036 ->
  exists e1 st1 stop,
    SetDuration e d st = Done (e1, None, st1) /\
    StartTime e1 st1 = Done start /\ StopTime e1 st1 = Done stop /\
    time.nanos stop - time.nanos start = d * time.Second /\
    (exists e2 st2, SetStopTime e1 stop st1 = Done (e2, None, st2) /\
                    Duration e2 = d /\ StopTime e2 st2 = Done stop) /\
    (exists e2 st2, SetStartTime e1 start false st1 = Done (e2, st2) /\
                    Duration e2 = d /\ StartTime e2 st2 = Done start) /\
    (exists e2 st2, SetStartTime e1 start true st1 = Done (e2, st2) /\
                    Duration e2 = d /\ StopTime e2 st2 = Done stop).
Proof.
  intros Hrun Hs Hd.
  rewrite (SetDuration_done e d st start Hrun Hs).
  rewrite mul_Second_exact by lia.
  set (stop := time.Add start (d * time.Second)).
  set (e1 := set_Stop (set_Duration e d) (Some (length (times st)))).
  set (st1 := push_time stop st).
  assert (IsRunning e1 = false) as Hrun1 by (apply IsRunning_false; cbn; lia).
  assert (load (Start e1) st1 = Some start) as Hs1 by (by apply load_push_old).
  assert (load (Stop e1) st1 = Some stop) as Hp1 by apply load_push.
  assert (forall e0 st0 t, load (Start e0) st0 = Some t -> StartTime e0 st0 = Done t)
    as HStart.
  { intros e0 st0 t. unfold StartTime, load.
    destruct (Start e0); [by intros ->|done]. }
  assert (forall e0 st0 t, load (Stop e0) st0 = Some t -> StopTime e0 st0 = Done t)
    as HStop.
  { intros e0 st0 t. unfold StopTime, load.
    destruct (Stop e0); [by intros ->|done]. }
  exists e1, st1, stop. split; [done|]. split; [by apply HStart|].
  split; [by apply HStop|]. split; [cbn; lia|]. split; [|split].
  - rewrite (SetStopTime_done e1 stop st1 start Hrun1 Hs1).
    eexists _, _. split; [done|]. split.
    + cbn [Duration set_Duration]. rewrite quot_Second_exact by apply Sub_range.
      rewrite Sub_exact.
      * cbn. replace (time.nanos start + d * time.Second - time.nanos start)
          with (d * time.Second) by lia.
        apply Z.quot_mul. done.
      * cbn. unfold Int64.in_range, Int64.min_int, Int64.max_int, time.Second. lia.
    + apply HStop. apply load_push.
  - rewrite (SetStartTime_done_false e1 start st1 stop Hrun1 Hp1).
    eexists _, _. split; [done|]. split.
    + cbn [Duration set_Duration]. rewrite Unix_sub. unfold stop.
      rewrite seconds_Add. replace (time.seconds start + d - time.seconds start)
        with d by lia.
      apply wrap_in_range, small_in_range. lia.
    + apply HStart. apply load_push.
  - rewrite (SetStartTime_done_true e1 start st1 Hrun1).
    eexists _, _. split; [done|]. split; [done|].
    apply HStop. cbn [Duration e1 set_Stop set_Duration].
    rewrite mul_Second_exact by lia. fold stop.
    cbn [Stop set_Stop]. replace (S (length (times st1)))
      with (length (times (push_time start st1))).
    + apply load_push.
    + cbn. rewrite length_app. cbn. lia.
Qed.

Lemma setters_agree_after_SetDuration_witness :
  exists e1 st1 e2 st2,
    SetDuration ex_stopped 60 ex_store = Done (e1, None, st1) /\
    SetStopTime e1 (time.Add ex_start (60 * time.Second)) st1 = Done (e2, None, st2) /\
    Duration e2 = 60.
Proof.
  destruct (setters_agree_after_SetDuration ex_stopped 60 ex_store ex_start)
    as (e1 & st1 & stop & H1 & _ & Hstop & _ & (e2 & st2 & H2 & Hd & _) & _);
    [reflexivity|reflexivity|lia|].
  exists e1, st1, e2, st2. split; [exact H1|]. split; [|exact Hd].
  assert (stop = time.Add ex_start (60 * time.Second)) as <-; [|exact H2].
  injection H1 as <- <-. by injection Hstop as <-.
Defined.

(** X11: the setters can turn a stopped entry into a running one.
    [SetDuration] accepts a negative duration, after which the entry
    counts as running and both [SetDuration] and [SetStopTime] are
    refused; [SetStopTime] with a stop a second or more before the start,
    and [SetStartTime] (without [updateEnd]) with a start in a later
    second than the stop, store a negative duration as well. *)
Theorem stopped_entry_becomes_running e st start :
  IsRunning e = false -> load (Start e) st = Some start ->
  (forall d, d < 0 ->
     exists e' st',
       SetDuration e d st = Done (e', None, st') /\ IsRunning e' = true /\
       (forall d2, SetDuration e' d2 st'
                   = Done (e', Some "TimeEntry must be stopped", st')) /\
       (forall t, SetStopTime e' t st'
                  = Done (e', Some "TimeEntry must be stopped", st'))) /\
  (forall stop, time.nanos stop - time.nanos start <= - time.Second ->
     exists e' st',
       SetStopTime e stop st = Done (e', None, st') /\ IsRunning e' = true) /\
  (forall stop newStart,
     load (Stop e) st = Some stop ->
     Int64.min_int <= time.seconds stop - time.seconds newStart < 0 ->
     exists e' st',
       SetStartTime e newStart false st = Done (e', st') /\ IsRunning e' = true).
Proof.
  intros Hrun Hs. split; [|split].
  - intros d Hd. rewrite (SetDuration_done e d st start Hrun Hs).
    eexists _, _. split; [done|].
    assert (IsRunning (set_Stop (set_Duration e d) (Some (length (times st)))) = true)
      as Hrun' by (by apply IsRunning_true).
    split; [done|]. split.
    + intros d2. unfold SetDuration. by rewrite Hrun'.
    + intros t. unfold SetStopTime. by rewrite Hrun'.
  - intros stop Hstop. rewrite (SetStopTime_done e stop st start Hrun Hs).
    eexists _, _. split; [done|]. apply IsRunning_true. cbn [Duration set_Duration].
    rewrite quot_Second_exact by apply Sub_range.
    assert (time.Sub stop start <= - time.Second) as Hsub.
    { unfold time.Sub, time.minDuration, time.maxDuration, Int64.min_int,
        Int64.max_int, time.Second in *.
      repeat case_match; lia. }
    pose proof (Z.quot_le_mono (time.Sub stop start) (- time.Second) time.Second
                  ltac:(done) Hsub) as Hq.
    change (Z.quot (- time.Second) time.Second) with (-1) in Hq. lia.
  - intros stop newStart Hp Hneg.
    rewrite (SetStartTime_done_false e newStart st stop Hrun Hp).
    eexists _, _. split; [done|]. apply IsRunning_true. cbn [Duration set_Duration].
    rewrite Unix_sub, wrap_in_range.
    + apply Hneg.
    + unfold Int64.in_range, Int64.max_int, Int64.min_int in *. lia.
Qed.

Lemma stopped_entry_becomes_running_witness :
  exists e' st',
    SetDuration ex_stopped (-60) ex_store = Done (e', None, st') /\
    IsRunning e' = true /\
    SetDuration e' 60 st' = Done (e', Some "TimeEntry must be stopped", st').
Proof.
  destruct (stopped_entry_becomes_running ex_stopped ex_store ex_start)
    as [H _]; [reflexivity..|].
  destruct (H (-60)) as (e' & st' & H1 & H2 & H3 & _); [lia|].
  exists e', st'. split; [exact H1|]. split; [exact H2|apply H3].
Defined.

(** X12: [SetStopTime] and [SetStartTime] count the seconds between
    start and stop differently: the first takes the whole seconds of the
    difference, the second the difference of the whole seconds.  Setting
    the stop and then the same start again (without [updateEnd]) keeps
    the duration when the start's fraction of a second is at most the
    stop's, and adds one second otherwise. *)
Theorem SetStopTime_then_SetStartTime e stop st start :
  IsRunning e = false -> load (Start e) st = Some start ->
  0 <= time.nanos stop - time.nanos start <= time.maxDuration ->
  exists e1 st1 e2 st2,
    SetStopTime e stop st = Done (e1, None, st1) /\
    SetStartTime e1 start false st1 = Done (e2, st2) /\
    Duration e1 = (time.nanos stop - time.nanos start) / time.Second /\
    (time.Nanos start <= time.Nanos stop -> Duration e2 = Duration e1) /\
    (time.Nanos stop < time.Nanos start -> Duration e2 = Duration e1 + 1).
Proof.
  intros Hrun Hs Hspan.
  rewrite (SetStopTime_done e stop st start Hrun Hs).
  set (e1 := set_Duration _ _). set (st1 := push_time stop st).
  assert (Duration e1 = (time.nanos stop - time.nanos start) / time.Second) as Hd1.
  { unfold e1. cbn [Duration set_Duration].
    rewrite quot_Second_exact by apply Sub_range.
    rewrite Sub_exact.
    - apply Z.quot_div_nonneg; [lia|done].
    - unfold time.maxDuration, Int64.in_range, Int64.min_int in *. lia. }
  assert (0 <= Duration e1 <= 9223372036) as Hrange.
  { rewrite Hd1. unfold time.maxDuration, Int64.max_int, time.Second in *.
    split; [apply Z.div_pos; lia|].
    pose proof (Z.div_le_mono (time.nanos stop - time.nanos start) (2 ^ 63 - 1)
                  1000000000 ltac:(lia) ltac:(lia)) as Hq.
    change ((2 ^ 63 - 1) / 1000000000) with 9223372036 in Hq. exact Hq. }
  assert (IsRunning e1 = false) as Hrun1 by (apply IsRunning_false; lia).
  assert (load (Stop e1) st1 = Some stop) as Hp1 by apply load_push.
  exists e1, st1. eexists _, _. split; [done|].
  split; [apply (SetStartTime_done_false e1 start st1 stop Hrun1 Hp1)|].
  split; [done|].
  cbn [Duration set_Duration]. rewrite Unix_sub. rewrite Hd1 in *.
  unfold time.Nanos, time.seconds, time.maxDuration, Int64.max_int in *.
  pose proof (Z.div_mod (time.nanos stop) time.Second ltac:(done)) as E1.
  pose proof (Z.div_mod (time.nanos start) time.Second ltac:(done)) as E2.
  pose proof (Z.mod_pos_bound (time.nanos stop) time.Second ltac:(done)) as B1.
  pose proof (Z.mod_pos_bound (time.nanos start) time.Second ltac:(done)) as B2.
  set (qs := time.nanos stop / time.Second) in *.
  set (qt := time.nanos start / time.Second) in *.
  set (rs := time.nanos stop mod time.Second) in *.
  set (rt := time.nanos start mod time.Second) in *.
  unfold time.Second in *.
  split; intros Hfrac.
  - assert ((time.nanos stop - time.nanos start) / 1000000000 = qs - qt) as Hq.
    { symmetry. apply (Z.div_unique _ _ _ (rs - rt)); lia. }
    rewrite Hq in *. apply wrap_in_range, small_in_range. lia.
  - assert ((time.nanos stop - time.nanos start) / 1000000000 = qs - qt - 1) as Hq.
    { symmetry. apply (Z.div_unique _ _ _ (rs - rt + 1000000000)); lia. }
    rewrite Hq in *. replace (qs - qt - 1 + 1) with (qs - qt) by lia.
    apply wrap_in_range. unfold Int64.in_range, Int64.min_int, Int64.max_int. lia.
Qed.

Lemma SetStopTime_then_SetStartTime_witness :
  exists e1 st1 e2 st2,
    SetStopTime ex_stopped ex_noon (mkStore [ex_early; ex_stop] []) = Done (e1, None, st1) /\
    SetStartTime e1 ex_early false st1 = Done (e2, st2) /\
    Duration e1 = 10800 /\ Duration e2 = 10801.
Proof.
  destruct (SetStopTime_then_SetStartTime ex_stopped ex_noon
              (mkStore [ex_early; ex_stop] []) ex_early)
    as (e1 & st1 & e2 & st2 & H1 & H2 & Hd & _ & Hlt);
    [reflexivity|reflexivity|vm_compute; split; discriminate|].
  exists e1, st1, e2, st2. split; [exact H1|]. split; [exact H2|].
  assert (Duration e1 = 10800) as Hd1 by (rewrite Hd; reflexivity).
  split; [exact Hd1|]. rewrite Hlt by reflexivity. rewrite Hd1. reflexivity.
Defined.

(** ** Other calls of the session *)

Lemma timeEntryRequest_error env data msg w :
  timeEntryRequest env data (Some msg) w = Done ((zeroTimeEntry, Some msg), w).
Proof. reflexivity. Qed.

(** X13: [StopTimeEntry] always sends exactly one request, a PUT without
    a body to [/time_entries/<id>/stop], and reads no clock; an error of
    the transport is returned as it is with the zero entry and the heap
    untouched; of the entry only the id is used. *)
Theorem StopTimeEntry_request env timer w :
  let r := mkRequest PUT
             (TogglAPI ++ "/time_entries/" ++ Sprint (ID timer) ++ "/stop")%string
             None in
  (exists res w',
     StopTimeEntry env timer w = Done (res, w') /\
     sent w' = sent w ++ [r] /\ ticks w' = ticks w) /\
  (forall msg,
     snd (transport env (sent w) r) = Some msg ->
     StopTimeEntry env timer w
     = Done ((zeroTimeEntry, Some msg),
             mkWorld (ticks w) (sent w ++ [r]) (heap w))) /\
  (forall other, ID other = ID timer ->
     StopTimeEntry env other w = StopTimeEntry env timer w).
Proof.
  intros r.
  assert (StopTimeEntry env timer w
          = (let '(respData, err) := transport env (sent w) r in
             timeEntryRequest env respData err)
              (mkWorld (ticks w) (sent w ++ [r]) (heap w))) as Hrun.
  { reflexivity. }
  split; [|split].
  - rewrite Hrun.
    destruct (transport env (sent w) r) as [data err].
    destruct (timeEntryRequest_done env data err
                (mkWorld (ticks w) (sent w ++ [r]) (heap w))) as (res & st & H).
    exists res, (set_heap (mkWorld (ticks w) (sent w ++ [r]) (heap w)) st).
    by split.
  - intros msg Hmsg. rewrite Hrun.
    destruct (transport env (sent w) r) as [data err]. simpl in Hmsg. by subst err.
  - intros other Hid. unfold StopTimeEntry. by rewrite Hid.
Qed.

Lemma decode_after env (x : Bytes * error) (w : World) (sent0 : list Request) :
  sent w = sent0 ->
  exists res w',
    (let '(respData, err) := x in timeEntryRequest env respData err) w
    = Done (res, w') /\ sent w' = sent0 /\ ticks w' = ticks w.
Proof.
  intros <-. destruct x as [data err].
  destruct (timeEntryRequest_done env data err w) as (r & st & H).
  exists r, (set_heap w st). by split.
Qed.



Lemma zero_on_error_decode env data err : zero_on_error (timeEntryRequest env data err).
Proof.
  intros w e msg w'. unfold timeEntryRequest. destruct err as [m|].
  - by intros [= <- _ _].
  - destruct (unmarshal_data _ _ data (heap w)) as [[entry [m|]] st];
      by intros [= <- _].
Qed.

Lemma zero_on_error_bind {A} (m : M A) (f : A -> M (TimeEntry * error)) :
  (forall a, zero_on_error (f a)) -> zero_on_error (m ≫= f).
Proof.
  intros Hf w e msg w'. unfold mbind, M_bind.
  destruct (m w) as [[a w1]|]; [|done]. apply Hf.
Qed.

Lemma zero_on_error_answer env (m : M (Bytes * error)) :
  zero_on_error (m ≫= fun '(respData, err) => timeEntryRequest env respData err).
Proof. apply zero_on_error_bind. intros [data err]. apply zero_on_error_decode. Qed.

(** X16: every call that answers with a time entry through
    [timeEntryRequest] returns [TimeEntry{}] whenever it returns an
    error, be it from the encoder, the transport or the decoder. *)
Theorem errors_come_with_zero_entry env :
  (forall timer, zero_on_error (UpdateTimeEntry env timer)) /\
  (forall timer, zero_on_error (StopTimeEntry env timer)) /\
  (forall timer duronly, zero_on_error (ContinueTimeEntry env timer duronly)) /\
  (forall entryID tag add, zero_on_error (AddRemoveTag env entryID tag add)) /\
  (forall description, zero_on_error (StartTimeEntry env description)) /\
  (forall description projectID billable,
     zero_on_error (StartTimeEntryForProject env description projectID billable)) /\
  zero_on_error (GetCurrentTimeEntry env).
Proof.
  split_and!.
  - intros timer. apply zero_on_error_answer.
  - intros timer. apply zero_on_error_answer.
  - intros timer duronly. unfold ContinueTimeEntry.
    apply zero_on_error_bind. intros [|].
    + apply zero_on_error_bind. intros entry.
      apply zero_on_error_bind. intros now. apply zero_on_error_answer.
    + apply zero_on_error_answer.
  - intros entryID tag add. unfold AddRemoveTag.
    apply zero_on_error_bind. intros tags. apply zero_on_error_answer.
  - intros description. apply zero_on_error_answer.
  - intros description projectID billable. apply zero_on_error_answer.
  - unfold GetCurrentTimeEntry. apply zero_on_error_bind. intros [data [msg|]].
    + by intros w e msg' w' [= <- _ _].
    + apply zero_on_error_decode.
Qed.

(** X17: [UpdateTimeEntry] sends its request only if the entry can be
    encoded: when [json.Marshal] refuses the entry the encoder's error
    is returned with the zero entry and nothing is sent, nothing changed;
    otherwise one POST to [/time_entries/<id>] carries the document of
    the entry. *)
Theorem UpdateTimeEntry_sends_what_encodes env timer w :
  let url := (TogglAPI ++ "/time_entries/" ++ Sprint (ID timer))%string in
  (forall msg,
     marshal_TimeEntry (zone env) (heap w) timer = Done (inl msg) ->
     UpdateTimeEntry env timer w = Done ((zeroTimeEntry, Some msg), w)) /\
  (forall j,
     marshal_TimeEntry (zone env) (heap w) timer = Done (inr j) ->
     exists res w',
       UpdateTimeEntry env timer w = Done (res, w') /\
       sent w' = sent w ++
         [mkRequest POST url (Some (json.Obj [("time_entry", j)]))]).
Proof.
  intros url. split.
  - intros msg Hm. unfold UpdateTimeEntry. erewrite bind_done; cycle 1.
    { rewrite post_map, marshal_time_entry_map, Hm. reflexivity. }
    by destruct w.
  - intros j Hm.
    set (r := mkRequest POST url (Some (json.Obj [("time_entry", j)]))).
    destruct (decode_after env (transport env (sent w) r)
                (mkWorld (ticks w) (sent w ++ [r]) (heap w)) (sent w ++ [r]) eq_refl)
      as (res & w' & H & Hs & _).
    exists res, w'. split; [|done]. rewrite <- H.
    unfold UpdateTimeEntry. erewrite bind_done; [reflexivity|].
    rewrite post_map, marshal_time_entry_map, Hm. reflexivity.
Qed.

Lemma MarshalJSON_writable tz t :
  (exists s, time.MarshalJSON tz t = (s, None)) <-> writable_time tz t = true.
Proof.
  unfold time.MarshalJSON, writable_time.
  destruct (time.Date tz t) as [[y m] d].
  destruct (Z.ltb_spec y 0), (Z.ltb_spec 9999 y), (Z.leb_spec 0 y),
    (Z.leb_spec y 9999); try lia; cbn [orb andb];
    try (split; [by intros [s [=]]|done]).
  destruct (Z.leb_spec 24 (Z.abs (Z.quot (time.offset_of tz t) 60) / 60)),
    (Z.ltb_spec (Z.abs (Z.quot (time.offset_of tz t) 60) / 60) 24); try lia.
  - split; [by intros [s [=]]|done].
  - split; [done|intros _; by eexists].
Qed.

Lemma marshal_time_field_writable tz st k p :
  valid_ptr st p ->
  (exists fs, marshal_time_field tz st k p = Done (inr fs)) /\
  writable tz st p = true
  \/ (exists msg, marshal_time_field tz st k p = Done (inl msg)) /\
     writable tz st p = false.
Proof.
  unfold marshal_time_field, writable.
  intros [->|[t H]]; [left; split; [by eexists|done]|].
  destruct p as [a|]; [|discriminate]. rewrite H. simpl in H. rewrite H.
  pose proof (MarshalJSON_writable tz t) as Hw.
  destruct (time.MarshalJSON tz t) as [s [msg|]].
  - right. split; [by eexists|].
    destruct (writable_time tz t); [|done].
    destruct (proj2 Hw eq_refl) as [s' [=]].
  - left. split; [by eexists|]. apply Hw. by eexists.
Qed.

(** X18: an entry is encoded exactly when its stop and start, where
    present, have a year in 0..9999 and a zone less than 24 hours from
    UTC, and its billable value is finite; in every other case the
    encoder returns an error. *)
Theorem marshal_TimeEntry_succeeds_iff tz st e :
  valid_entry st e ->
  ((exists j, marshal_TimeEntry tz st e = Done (inr j)) <->
   writable tz st (Stop e) = true /\ writable tz st (Start e) = true /\
   float32_finite (Billable e) = true) /\
  ((exists msg, marshal_TimeEntry tz st e = Done (inl msg)) <->
   writable tz st (Stop e) = false \/ writable tz st (Start e) = false \/
   float32_finite (Billable e) = false).
Proof.
  intros (Hs & Hp & l & Hl). unfold marshal_TimeEntry, enc_bind.
  destruct (marshal_time_field_writable tz st "stop" _ Hp)
    as [[[fs ->] ->]|[[msg ->] ->]];
    [|split; split;
      [by intros [j [=]]|by intros (? & _)|by left|intros _; by eexists]].
  destruct (marshal_time_field_writable tz st "start" _ Hs)
    as [[[fs' ->] ->]|[[msg ->] ->]];
    [|split; split;
      [by intros [j [=]]|by intros (_ & ? & _)|by right; left
      |intros _; by eexists]].
  destruct (marshal_strings_done _ _ _ Hl) as [tags ->].
  unfold marshal_float32. destruct (float32_finite (Billable e)).
  - split; split;
      [done|intros _; by eexists|by intros [msg [=]]|by intros [|[|]]].
  - split; split;
      [by intros [j [=]]|by intros (_ & _ & ?)|by right; right
      |intros _; by eexists].
Qed.

Lemma ex_stopped_valid : valid_entry ex_store ex_stopped.
Proof. split; [right; by eexists|]. split; [right; by eexists|by eexists]. Qed.

Lemma marshal_TimeEntry_succeeds_iff_witness :
  exists j, marshal_TimeEntry (zone ex_env) ex_store ex_stopped = Done (inr j).
Proof.
  apply (marshal_TimeEntry_succeeds_iff (zone ex_env) ex_store ex_stopped
           ex_stopped_valid).
  vm_compute. by split_and!.
Defined.

Lemma decode_data_absent tz g st fields :
  (forall k v, (k, v) ∈ fields -> fold_key k = "data" -> v = json.Null) ->
  decode_data tz g fields zeroTimeEntry st = (zeroTimeEntry, None, st).
Proof.
  induction fields as [|[k v] fields IH]; intros H; [done|]. simpl.
  assert (decode_data tz g fields zeroTimeEntry st = (zeroTimeEntry, None, st))
    as IH' by (apply IH; intros k' v' Hin; apply H; by right).
  destruct (String.eqb_spec (fold_key k) "data") as [E|E]; [|done].
  rewrite (H k v ltac:(by left) E). cbn. exact IH'.
Qed.

(** X19: [GetCurrentTimeEntry] always sends exactly one request, a GET
    without a body to [/time_entries/current].  An error of the
    transport is returned with the zero entry.  An answer that is
    [null], or an object whose [data] member is missing or [null], gives
    the zero entry and no error: no running entry is not told apart
    from an entry of zero values. *)
Theorem GetCurrentTimeEntry_request env w :
  let r := mkRequest GET (TogglAPI ++ "/time_entries/current")%string None in
  let w1 := mkWorld (ticks w) (sent w ++ [r]) (heap w) in
  (exists res w',
     GetCurrentTimeEntry env w = Done (res, w') /\
     sent w' = sent w ++ [r] /\ ticks w' = ticks w) /\
  (forall data msg,
     transport env (sent w) r = (data, Some msg) ->
     GetCurrentTimeEntry env w = Done ((zeroTimeEntry, Some msg), w1)) /\
  (forall fields,
     transport env (sent w) r = (Some (json.Obj fields), None) ->
     (forall k v, (k, v) ∈ fields -> fold_key k = "data" -> v = json.Null) ->
     GetCurrentTimeEntry env w = Done ((zeroTimeEntry, None), w1)) /\
  (transport env (sent w) r = (Some json.Null, None) ->
   GetCurrentTimeEntry env w = Done ((zeroTimeEntry, None), w1)).
Proof.
  intros r w1.
  assert (GetCurrentTimeEntry env w
          = (let '(data, err) := transport env (sent w) r in
             match err with
             | Some _ => mret (zeroTimeEntry, err)
             | None => timeEntryRequest env data err
             end) w1) as Hrun by reflexivity.
  rewrite Hrun. split; [|split; [|split]].
  - destruct (transport env (sent w) r) as [data [msg|]].
    + by eexists _, _.
    + destruct (timeEntryRequest_done env data None w1) as (res & st & H).
      exists res, (set_heap w1 st). by split.
  - by intros data msg ->.
  - intros fields -> Hnull. rewrite timeEntryRequest_decode.
    unfold unmarshal_data. by rewrite decode_data_absent.
  - by intros ->.
Qed.

Lemma GetCurrentTimeEntry_request_witness :
  GetCurrentTimeEntry ex_idle_env ex_world
  = Done ((zeroTimeEntry, None),
          mkWorld 0 [mkRequest GET "https://toggl.com/api/v8/time_entries/current"
                       None] ex_store).
Proof.
  apply (GetCurrentTimeEntry_request ex_idle_env ex_world) with
    (fields := [("data", json.Null)]); [reflexivity|].
  intros k v Hin _. apply list_elem_of_singleton in Hin. by injection Hin as _ ->.
Defined.

(** ** More on decoding *)

(** X20: [UnmarshalJSON] replaces the target, it does not merge into
    it: error and heap do not depend on what the target held, a
    successful decode gives the same entry whatever it held (for an
    empty object or [null], the zero entry), and a failed decode leaves
    the target as it was. *)
Theorem UnmarshalJSON_replaces_target tz g e1 e2 b st :
  (exists r1 r2 err st',
     UnmarshalJSON tz g e1 b st = (r1, err, st') /\
     UnmarshalJSON tz g e2 b st = (r2, err, st') /\
     (err = None -> r1 = r2) /\
     (err <> None -> r1 = e1 /\ r2 = e2)) /\
  UnmarshalJSON tz g e1 (json.Obj []) st = (zeroTimeEntry, None, st) /\
  UnmarshalJSON tz g e1 json.Null st = (zeroTimeEntry, None, st).
Proof.
  split; [|done]. unfold UnmarshalJSON.
  destruct (unmarshal_temp g b st) as [msg|[t st1]].
  - by eexists _, _, _, _.
  - destruct (asTimeEntry tz t st1) as [[te [msg|]] st2];
      by eexists _, _, _, _.
Qed.

Lemma parse_offset_long s off rest :
  time.parse_offset s = Some (off, rest) -> (6 <= String.length s)%nat.
Proof.
  destruct s as [|c1 [|c2 [|c3 [|c4 [|c5 [|c6 s]]]]]]; try discriminate.
  intros _. simpl. lia.
Qed.

Lemma ParseZ_ok s :
  snd (time.ParseZ s) = None ->
  exists n, time.parse_datetime s = Some (n, "Z") /\
            time.ParseZ s = (time.mkTime n time.UTC, None).
Proof.
  unfold time.ParseZ. destruct (time.parse_datetime s) as [[n rest]|]; [|done].
  destruct rest as [|c [|? ?]]; try done;
    destruct c as [[] [] [] [] [] [] [] []]; cbn; try done.
  intros _. exists n. split; reflexivity.
Qed.

Lemma ParseOffset_ok tz s :
  snd (time.ParseOffset tz s) = None ->
  exists n rest off,
    time.parse_datetime s = Some (n, rest) /\
    time.parse_offset rest = Some (off, "").
Proof.
  unfold time.ParseOffset. destruct (time.parse_datetime s) as [[n rest]|]; [|done].
  destruct (time.parse_offset rest) as [[off [|? ?]]|] eqn:E; [|discriminate..].
  intros _. by exists n, rest, off.
Qed.

(** X21: no text is accepted by both layouts of [parseTime], so that the
    order of the two attempts never decides the result: a text the first
    layout accepts is returned as read by it, in UTC, and a text the
    second layout accepts as read by the second. *)
Theorem layouts_exclude_each_other tz s :
  (snd (time.ParseZ s) <> None \/ snd (time.ParseOffset tz s) <> None) /\
  (snd (time.ParseZ s) = None ->
   parseTime tz s = time.ParseZ s /\ time.loc (fst (parseTime tz s)) = time.UTC) /\
  (snd (time.ParseOffset tz s) = None -> parseTime tz s = time.ParseOffset tz s).
Proof.
  assert (snd (time.ParseZ s) = None -> snd (time.ParseOffset tz s) = None -> False)
    as Hboth.
  { intros Hz Ho. destruct (ParseZ_ok s Hz) as (n & Hn & _).
    destruct (ParseOffset_ok tz s Ho) as (n' & rest & off & Hn' & Hoff).
    rewrite Hn in Hn'. injection Hn' as _ <-.
    apply parse_offset_long in Hoff. simpl in Hoff. lia. }
  rewrite parseTime_order. split; [|split].
  - destruct (snd (time.ParseZ s)) eqn:Ez; [by left|]. right.
    intros Ho. by apply Hboth.
  - intros Hz. rewrite Hz. split; [done|].
    destruct (ParseZ_ok s Hz) as (n & _ & ->). done.
  - intros Ho. destruct (snd (time.ParseZ s)) eqn:Ez; [done|].
    by destruct Hboth.
Qed.

Lemma decode_key_fold g k k' v t st :
  fold_key k = fold_key k' -> decode_key g k v t st = decode_key g k' v t st.
Proof. intros H. unfold decode_key. by rewrite H. Qed.

Lemma decode_key_unknown g k v t st :
  fold_key k ∉ entry_keys -> decode_key g k v t st = inr (t, st).
Proof.
  intros H.
  assert (forall x, x ∈ entry_keys -> String.eqb (fold_key k) x = false) as Hne.
  { intros x Hx. apply String.eqb_neq. intros E. apply H. by rewrite E. }
  unfold decode_key.
  rewrite !Hne by (unfold entry_keys; repeat constructor). done.
Qed.


(** ** Queries *)

Lemma leb_cases a b : String.leb a b = true <-> a = b \/ OrderedTypeEx.String_as_OT.lt a b.
Proof.
  unfold String.leb.
  pose proof (OrderedTypeEx.String_as_OT.cmp_eq a b) as He.
  pose proof (OrderedTypeEx.String_as_OT.cmp_lt a b) as Hl.
  unfold OrderedTypeEx.String_as_OT.cmp in *.
  destruct (String.compare a b) eqn:E.
  - split; [intros _; left; by apply He|done].
  - split; [intros _; right; by apply Hl|done].
  - split; [done|]. intros [H|H].
    + apply He in H. discriminate.
    + apply Hl in H. discriminate.
Qed.

Lemma leb_trans a b c :
  String.leb a b = true -> String.leb b c = true -> String.leb a c = true.
Proof.
  rewrite !leb_cases. intros [->|H1] [->|H2]; auto.
  right. by eapply OrderedTypeEx.String_as_OT.lt_trans.
Qed.

Section sorting_keys.
Context {A : Type}.
Implicit Types (kv : string * A) (l : list (string * A)).

#[local] Instance key_le_trans : Transitive (@key_le A).
Proof. intros a b c. unfold key_le. apply leb_trans. Qed.

Lemma insert_sorted_perm kv l : insert_sorted kv l ≡ₚ kv :: l.
Proof.
  induction l as [|kv' l IH]; [done|]. simpl.
  destruct (String.leb (fst kv) (fst kv')); [done|].
  rewrite IH. apply Permutation_swap.
Qed.

Lemma sort_keys_perm l : sort_keys l ≡ₚ l.
Proof.
  induction l as [|kv l IH]; [done|]. unfold sort_keys in *. simpl.
  by rewrite insert_sorted_perm, IH.
Qed.

Lemma insert_sorted_Sorted kv l :
  Sorted key_le l -> Sorted key_le (insert_sorted kv l).
Proof.
  induction l as [|kv' l IH]; intros Hs; simpl.
  - by repeat constructor.
  - destruct (String.leb (fst kv) (fst kv')) eqn:E.
    + constructor; [done|]. by constructor.
    + apply Sorted_inv in Hs as [Hs Hhd]. constructor; [by apply IH|].
      assert (key_le kv' kv) as Hle.
      { destruct (String.leb_total (fst kv) (fst kv')) as [H|H]; [congruence|done]. }
      destruct l as [|kv'' l]; simpl; [by constructor|].
      destruct (String.leb (fst kv) (fst kv'')); constructor; [done|].
      by apply HdRel_inv in Hhd.
Qed.

Lemma sort_keys_Sorted l : Sorted key_le (sort_keys l).
Proof.
  induction l as [|kv l IH]; [constructor|]. unfold sort_keys in *. simpl.
  by apply insert_sorted_Sorted.
Qed.

Lemma same_key_same_pair l kv kv' :
  NoDup (map fst l) -> kv ∈ l -> kv' ∈ l -> fst kv = fst kv' -> kv = kv'.
Proof.
  induction l as [|x l IH]; intros Hnd H1 H2 E; [by apply elem_of_nil in H1|].
  simpl in Hnd. apply NoDup_cons in Hnd as [Hx Hnd].
  apply elem_of_cons in H1 as [->|H1]; apply elem_of_cons in H2 as [->|H2].
  - done.
  - destruct Hx. rewrite E. apply list_elem_of_In, in_map, list_elem_of_In, H2.
  - destruct Hx. rewrite <- E. apply list_elem_of_In, in_map, list_elem_of_In, H1.
  - by apply IH.
Qed.

Lemma sort_keys_order l l' :
  NoDup (map fst l) -> l ≡ₚ l' -> sort_keys l = sort_keys l'.
Proof.
  intros Hnd Hp.
  apply (Sorted_unique_strong key_le); try apply sort_keys_Sorted.
  - intros x1 x2 H1 H2 Hle Hge.
    apply (same_key_same_pair l); [done| | |].
    + by rewrite <- (sort_keys_perm l).
    + by rewrite Hp, <- (sort_keys_perm l').
    + by apply String.leb_antisym.
  - by rewrite !sort_keys_perm.
Qed.
End sorting_keys.

Lemma Values_Set_fresh k v (data : Values) :
  k ∉ map fst data -> Values_Set k v data = (k, [v]) :: data.
Proof.
  intros H. unfold Values_Set. f_equal.
  induction data as [|[k' vs] data IH]; [done|]. simpl in *.
  apply not_elem_of_cons in H as [Hne H].
  destruct (String.eqb_spec k' k) as [->|_]; [done|]. simpl. f_equal. by apply IH.
Qed.

Lemma build_values entries : forall data : Values,
  NoDup (map fst entries ++ map fst data) ->
  fold_left (fun data kv => Values_Set (fst kv) (snd kv) data) entries data
  = rev (map single entries) ++ data.
Proof.
  induction entries as [|[k v] entries IH]; intros data Hnd; [done|].
  simpl in *. apply NoDup_cons in Hnd as [Hk Hnd].
  rewrite Values_Set_fresh.
  - rewrite IH.
    + by rewrite <- app_assoc.
    + simpl. apply NoDup_app in Hnd as (H1 & H2 & H3).
      apply NoDup_app. split; [done|]. split.
      * intros x Hx Hx'. apply elem_of_cons in Hx' as [->|Hx'].
        -- apply Hk. apply elem_of_app. by left.
        -- by apply (H2 x).
      * apply NoDup_cons. split; [|done]. intros H. apply Hk.
        apply elem_of_app. by right.
  - intros H. apply Hk. apply elem_of_app. by right.
Qed.

Lemma append_assoc (a b c : string) : ((a ++ b) ++ c = a ++ b ++ c)%string.
Proof. induction a as [|x a IH]; [done|]. simpl. by rewrite IH. Qed.

Lemma keys_single entries : map fst (map single entries) = map fst entries.
Proof. induction entries as [|[k v] entries IH]; [done|]. simpl. by rewrite IH. Qed.

Lemma get_with_params env url path entries w :
  NoDup (map fst entries) ->
  get env url path (Some entries) w
  = request env GET
      (url ++ path ++ "?" ++ Values_Encode (map single entries))%string None w.
Proof.
  intros Hnd. unfold get. rewrite build_values by (by rewrite app_nil_r).
  rewrite app_nil_r. unfold Values_Encode.
  rewrite (sort_keys_order (rev (map single entries)) (map single entries)).
  - by rewrite append_assoc.
  - rewrite map_rev, keys_single. by apply NoDup_ListNoDup, NoDup_rev, NoDup_ListNoDup.
  - symmetry. apply Permutation_rev.
Qed.

(** X23: [get] requests the URL and path as they are for a nil
    parameter map, and with a question mark appended for an empty one;
    for a map with entries the query lists them by ascending key,
    escaped.  The request does not depend on the order in which the map
    is iterated. *)
Theorem get_query env url path w :
  get env url path None w = request env GET (url ++ path)%string None w /\
  get env url path (Some []) w
  = request env GET (url ++ path ++ "?")%string None w /\
  (forall entries,
     NoDup (map fst entries) ->
     get env url path (Some entries) w
     = request env GET
         (url ++ path ++ "?" ++ Values_Encode (map single entries))%string None w) /\
  (forall entries entries',
     NoDup (map fst entries) -> entries ≡ₚ entries' ->
     get env url path (Some entries) w = get env url path (Some entries') w).
Proof.
  split; [done|]. split.
  { unfold get. cbn. by rewrite append_assoc. }
  split; [intros entries; apply get_with_params|].
  intros entries entries' Hnd Hp.
  assert (NoDup (map fst entries')) as Hnd'.
  { apply NoDup_ListNoDup. apply NoDup_ListNoDup in Hnd.
    eapply Permutation_NoDup; [|exact Hnd]. by apply Permutation_map. }
  rewrite !get_with_params by done. unfold Values_Encode.
  rewrite (sort_keys_order (map single entries) (map single entries')).
  - done.
  - by rewrite keys_single.
  - by apply Permutation_map.
Qed.

Lemma NoDup_two (a b : string) : a <> b -> NoDup [a; b].
Proof.
  intros H. apply NoDup_cons. split; [|apply NoDup_singleton].
  intros Hin. by apply list_elem_of_singleton in Hin.
Qed.

Lemma get_query_witness :
  get ex_env TogglAPI "/time_entries"
    (Some [("start_date", "2024-01-01T09:00:00+01:00");
           ("end_date", "2024-01-02 09:00")]) ex_world
  = request ex_env GET
      "https://toggl.com/api/v8/time_entries?end_date=2024-01-02+09%3A00&start_date=2024-01-01T09%3A00%3A00%2B01%3A00"
      None ex_world.
Proof.
  etrans.
  - apply (proj1 (proj2 (proj2
             (get_query ex_env TogglAPI "/time_entries" ex_world)))).
    by apply NoDup_two.
  - reflexivity.
Defined.

Lemma decode_entries_length tz g l : forall st es st',
  decode_entries tz g l st = (es, None, st') -> length es = length l.
Proof.
  induction l as [|v l IH]; intros st es st'; simpl.
  - by intros [= <- _].
  - destruct (UnmarshalJSON tz g zeroTimeEntry v st) as [[e [msg|]] st1]; [done|].
    destruct (decode_entries tz g l st1) as [[es1 err1] st2] eqn:E.
    intros [= <- -> <-]. simpl. f_equal. by eapply IH.
Qed.

(** X24: [GetTimeEntries] asks for [/time_entries] with the two dates in
    RFC 3339 form, escaped, [end_date] before [start_date], whatever
    order the parameter map is iterated in.  It returns all entries of
    the answered array, in order, or none: an error of the transport or
    of any element gives nil and the error, and [null] gives nil and no
    error. *)
Theorem GetTimeEntries_results env end_first startDate endDate w :
  let url :=
    (TogglAPI ++ "/time_entries?end_date="
     ++ QueryEscape (FormatRFC3339 (zone env) endDate)
     ++ "&start_date=" ++ QueryEscape (FormatRFC3339 (zone env) startDate))%string in
  let r := mkRequest GET url None in
  let w1 := mkWorld (ticks w) (sent w ++ [r]) (heap w) in
  (forall data msg,
     transport env (sent w) r = (data, Some msg) ->
     GetTimeEntries env end_first startDate endDate w
     = Done ((None, Some msg), w1)) /\
  (transport env (sent w) r = (Some json.Null, None) ->
   GetTimeEntries env end_first startDate endDate w = Done ((None, None), w1)) /\
  (forall l es st',
     transport env (sent w) r = (Some (json.Arr l), None) ->
     decode_entries (zone env) (grow env) l (heap w) = (es, None, st') ->
     GetTimeEntries env end_first startDate endDate w
     = Done ((Some es, None), set_heap w1 st') /\ length es = length l) /\
  (forall l es msg st',
     transport env (sent w) r = (Some (json.Arr l), None) ->
     decode_entries (zone env) (grow env) l (heap w) = (es, Some msg, st') ->
     GetTimeEntries env end_first startDate endDate w
     = Done ((None, Some msg), set_heap w1 st')).
Proof.
  intros url r w1.
  assert (GetTimeEntries env end_first startDate endDate w
          = (let '(data, err) := transport env (sent w) r in
             match err return M (option (list TimeEntry) * error) with
             | Some _ => mret (None, err)
             | None =>
                 fun w =>
                   let '(results, err, st) :=
                     unmarshal_entries (zone env) (grow env) data (Some [])
                       (heap w) in
                   match err with
                   | Some _ => Done ((None, err), set_heap w st)
                   | None => Done ((results, None), set_heap w st)
                   end
             end) w1) as Hrun.
  { unfold GetTimeEntries.
    set (s := FormatRFC3339 (zone env) startDate) in *.
    set (e := FormatRFC3339 (zone env) endDate) in *.
    erewrite bind_done; [reflexivity|].
    rewrite get_with_params.
    - unfold request, w1, r, url.
      destruct end_first; cbn -[TogglAPI QueryEscape]; reflexivity.
    - destruct end_first; by apply NoDup_two. }
  rewrite Hrun. split; [|split; [|split]].
  - by intros data msg ->.
  - by intros ->.
  - intros l es st' -> Hd. cbn. rewrite Hd. split; [done|].
    by eapply decode_entries_length.
  - intros l es msg st' -> Hd. cbn. by rewrite Hd.
Qed.

Lemma UpdateTimeEntry_sends_what_encodes_witness :
  UpdateTimeEntry ex_env ex_nan_entry ex_world
  = Done ((zeroTimeEntry, Some "json: unsupported value: NaN"), ex_world).
Proof.
  apply (UpdateTimeEntry_sends_what_encodes ex_env ex_nan_entry ex_world).
  reflexivity.
Defined.

Lemma GetTimeEntries_results_witness :
  exists es w',
    GetTimeEntries ex_list_env true ex_start ex_noon ex_world
    = Done ((Some es, None), w') /\
    map ID es = [7; 0] /\
    map requestURL (sent w')
    = ["https://toggl.com/api/v8/time_entries?end_date=2024-01-01T12%3A00%3A00Z&start_date=2024-01-01T09%3A00%3A00Z"].
Proof.
  destruct (GetTimeEntries_results ex_list_env true ex_start ex_noon ex_world)
    as (_ & _ & H & _).
  let l := eval vm_compute in
    (fst (transport ex_list_env [] (mkRequest GET EmptyString None))) in
  match l with
  | Some (json.Arr ?l) =>
      let v := eval vm_compute in
        (decode_entries (zone ex_list_env) (grow ex_list_env) l ex_store) in
      match v with
      | (?es, None, ?st') =>
          destruct (H l es st') as [Hrun _]; [reflexivity|vm_compute; reflexivity|];
          exists es; eexists; split; [exact Hrun|]
      end
  end.
  split; vm_compute; reflexivity.
Defined.

(** ** The day of a continued entry *)

Lemma append_empty (s : string) : (s ++ "")%string = s.
Proof. induction s as [|c s IH]; [done|]. simpl. by rewrite IH. Qed.

(** The date of a four-digit year can be read back from its text, so
    that two such dates with the same text are the same. *)
Lemma date_text_read y m d :
  0 <= y <= 9999 -> 1 <= m <= 12 -> 1 <= d <= 31 ->
  ('(y', s) ← time.getyear
      (time.appendInt y 4 ++ "-" ++ time.appendInt m 2 ++ "-"
       ++ time.appendInt d 2)%string;
   s ← time.skip "-" s;
   '(m', s) ← time.getnum2 s;
   s ← time.skip "-" s;
   '(d', _) ← time.getnum2 s;
   Some (y', m', d')) = Some (y, m, d).
Proof.
  intros Hy Hm Hd. rewrite !appendInt_digits by (simpl; lia).
  rewrite getyear_digits by lia. cbn [mbind option_bind].
  rewrite skip_literal. cbn [mbind option_bind].
  rewrite getnum2_digits by lia. cbn [mbind option_bind].
  rewrite skip_literal. cbn [mbind option_bind].
  rewrite <- (append_empty (time.digits 2 d)).
  rewrite getnum2_digits by lia. done.
Qed.

Lemma date_text_inj y m d y' m' d' :
  0 <= y <= 9999 -> 1 <= m <= 12 -> 1 <= d <= 31 ->
  0 <= y' <= 9999 -> 1 <= m' <= 12 -> 1 <= d' <= 31 ->
  (time.appendInt y 4 ++ "-" ++ time.appendInt m 2 ++ "-" ++ time.appendInt d 2
   = time.appendInt y' 4 ++ "-" ++ time.appendInt m' 2 ++ "-"
     ++ time.appendInt d' 2)%string ->
  y = y' /\ m = m' /\ d = d'.
Proof.
  intros Hy Hm Hd Hy' Hm' Hd' E.
  pose proof (date_text_read y m d Hy Hm Hd) as R.
  rewrite E, date_text_read in R by done. by injection R as -> -> ->.
Qed.

Lemma civil_from_days_inj z z' :
  time.civil_from_days z = time.civil_from_days z' -> z = z'.
Proof.
  intros E. destruct (time.civil_from_days z) as [[y m] d] eqn:E1.
  symmetry in E.
  destruct (civil_roundtrip _ _ _ _ E1) as (_ & _ & <-).
  by destruct (civil_roundtrip _ _ _ _ E) as (_ & _ & <-).
Qed.

(** X25: the test by which [ContinueTimeEntry] compares the dates of the
    current time and of the start, equality of the two texts in the
    form 2006-01-02, is exact: for times whose local year has four
    digits the texts are equal exactly when the two times fall on the
    same local calendar day. *)
Theorem same_local_day_exact env now start :
  four_digit_year (zone env) now -> four_digit_year (zone env) start ->
  same_local_day env now start = true
  <-> local_day (zone env) now = local_day (zone env) start.
Proof.
  unfold four_digit_year, same_local_day, local_day, time.FormatDate, time.Date.
  intros Hn Hs. rewrite String.eqb_eq. split.
  - destruct (time.civil_from_days
                (time.wall (zone env) (time.InLocal now) / time.secondsPerDay))
      as [[y m] d] eqn:E1.
    destruct (time.civil_from_days
                (time.wall (zone env) (time.InLocal start) / time.secondsPerDay))
      as [[y' m'] d'] eqn:E2.
    destruct (civil_roundtrip _ _ _ _ E1) as (Hm & Hd & _).
    destruct (civil_roundtrip _ _ _ _ E2) as (Hm' & Hd' & _).
    pose proof (daysIn_le m y). pose proof (daysIn_le m' y').
    intros E. apply date_text_inj in E as (-> & -> & ->); try lia.
    apply civil_from_days_inj. congruence.
  - by intros ->.
Qed.

Lemma same_local_day_exact_witness :
  same_local_day ex_env ex_noon ex_start = true.
Proof.
  apply (same_local_day_exact ex_env ex_noon ex_start).
  - vm_compute. split; discriminate.
  - vm_compute. split; discriminate.
  - reflexivity.
Defined.

(** ** Projects *)

(** X26: [GetProject] reports an error only when the transport does (and
    then returns a nil pointer); once the answer is read it returns a
    pointer to whatever the decoder left in the project, and a nil
    error, also when the decoder failed. *)
Theorem GetProject_drops_decoding_error unmarshal env id w :
  let r := mkRequest GET (TogglAPI ++ "/projects/" ++ Sprint id)%string None in
  let w1 := mkWorld (ticks w) (sent w ++ [r]) (heap w) in
  (forall data msg,
     transport env (sent w) r = (data, Some msg) ->
     GetProject unmarshal env id w = Done ((None, Some msg), w1)) /\
  (forall data p err st,
     transport env (sent w) r = (data, None) ->
     unmarshal data (heap w) = (p, err, st) ->
     GetProject unmarshal env id w = Done ((Some p, None), set_heap w1 st)).
Proof.
  intros r w1.
  assert (GetProject unmarshal env id w
          = (let '(data, err) := transport env (sent w) r in
             match err return M (option project.Project * error) with
             | Some _ => mret (None, err)
             | None =>
                 fun w =>
                   let '(dProject, err, st) := unmarshal data (heap w) in
                   Done ((Some dProject, None), set_heap w st)
             end) w1) as Hrun by reflexivity.
  rewrite Hrun. split.
  - by intros data msg ->.
  - intros data p err st -> Hd. cbn. by rewrite Hd.
Qed.
